(** * Hebrew AI agents platform: the conversation turn pipeline

    A shallow embedding of the TypeScript services behind one conversation
    turn (Hebrew text normalizer and analyzer, vector-store retrieval, prompt
    assembly, agent engine, conversation routes), followed by the properties
    proved of them.

    JavaScript strings are sequences of UTF-16 code units; every regular
    expression of the source is written without the [u] flag, so it works on
    code units as well.  Effectful code (database, vector index, model
    provider, logger, socket emitter) runs in a small state-and-exception
    monad over an explicit [World]. *)

From Stdlib Require Import Ascii String.
From Stdlib Require Import List NArith Arith Bool Lia QArith Sorted Permutation.
Import ListNotations.

Set Implicit Arguments.

(* ================================================================== *)
(** * Part I: the embedding                                             *)
(* ================================================================== *)

(** ** JavaScript strings and the string built-ins the services use *)

Module JsString.

Local Open Scope N_scope.

(** A UTF-16 code unit. *)
Definition char := N.
Definition jsstring := list char.

Definition char_eqb (a b : char) : bool := N.eqb a b.

Fixpoint eqb (s t : jsstring) : bool :=
  match s, t with
  | [], [] => true
  | a :: s', b :: t' => char_eqb a b && eqb s' t'
  | _, _ => false
  end.

(** An ASCII literal of the source as code units. *)
Definition lit (s : string) : jsstring :=
  List.map N_of_ascii (list_ascii_of_string s).

Definition SPACE : char := 0x20%N.
Definition NEWLINE : char := 0x0A%N.

(** [\s] of a regular expression, which is also the set [trim] strips:
    WhiteSpace and LineTerminator of ECMAScript. *)
Definition isWhiteSpace (c : char) : bool :=
  ((0x09 <=? c) && (c <=? 0x0D)) || (c =? 0x20) || (c =? 0xA0)
  || (c =? 0x1680) || ((0x2000 <=? c) && (c <=? 0x200A))
  || (c =? 0x2028) || (c =? 0x2029) || (c =? 0x202F) || (c =? 0x205F)
  || (c =? 0x3000) || (c =? 0xFEFF).

(** [.] of a regular expression: anything but a line terminator. *)
Definition isLineTerminator (c : char) : bool :=
  (c =? 0x0A) || (c =? 0x0D) || (c =? 0x2028) || (c =? 0x2029).

(** [\d] *)
Definition isDigit (c : char) : bool := (0x30 <=? c) && (c <=? 0x39).

(** [[a-zA-Z]] *)
Definition isAsciiLetter (c : char) : bool :=
  ((0x61 <=? c) && (c <=? 0x7A)) || ((0x41 <=? c) && (c <=? 0x5A)).

(** [s.replace(/\s+/g, ' ')]: every maximal run of white space becomes
    one space.  [inRun] tells that the previous unit was white space. *)
Fixpoint replaceWhiteSpaceRuns (inRun : bool) (s : jsstring) : jsstring :=
  match s with
  | [] => []
  | c :: t =>
      if isWhiteSpace c
      then if inRun then replaceWhiteSpaceRuns true t
           else SPACE :: replaceWhiteSpaceRuns true t
      else c :: replaceWhiteSpaceRuns false t
  end.

Fixpoint trimStart (s : jsstring) : jsstring :=
  match s with
  | [] => []
  | c :: t => if isWhiteSpace c then trimStart t else s
  end.

Fixpoint trimEnd (s : jsstring) : jsstring :=
  match s with
  | [] => []
  | c :: t =>
      match trimEnd t with
      | [] => if isWhiteSpace c then [] else [c]
      | t' => c :: t'
      end
  end.

(** [s.trim()] *)
Definition trim (s : jsstring) : jsstring := trimEnd (trimStart s).

(** [s.replace(/x/g, y)] for single code units [x] and [y]. *)
Definition replaceChar (x y : char) (s : jsstring) : jsstring :=
  List.map (fun c => if c =? x then y else c) s.

(** [s.split(sep)] for a separator of one code unit; the result is never
    empty: [''.split(' ')] is [['']]. *)
Fixpoint split (sep : char) (s : jsstring) : list jsstring :=
  match s with
  | [] => [[]]
  | c :: t =>
      if c =? sep then [] :: split sep t
      else match split sep t with
           | w :: ws => (c :: w) :: ws
           | [] => [[c]]
           end
  end.

(** [s.split(/\s+/)] *)
Fixpoint splitWhiteSpaceRuns (inRun : bool) (s : jsstring) : list jsstring :=
  match s with
  | [] => [[]]
  | c :: t =>
      if isWhiteSpace c
      then if inRun then splitWhiteSpaceRuns true t
           else [] :: splitWhiteSpaceRuns true t
      else match splitWhiteSpaceRuns false t with
           | w :: ws => (c :: w) :: ws
           | [] => [[c]]
           end
  end.

(** [parts.join(sep)] *)
Fixpoint join (sep : jsstring) (parts : list jsstring) : jsstring :=
  match parts with
  | [] => []
  | [w] => w
  | w :: ws => w ++ sep ++ join sep ws
  end.

(** [a.slice(-n)] on arrays and [s.slice(0, -n)] on strings. *)
Definition sliceLast {A : Type} (n : nat) (l : list A) : list A :=
  skipn (length l - n)%nat l.

Definition sliceButLast {A : Type} (n : nat) (l : list A) : list A :=
  firstn (length l - n)%nat l.

(** *** Regular-expression loops

    [matchAt s] is the length of the match that starts at the head of
    [s], if there is one; none of the patterns of the source matches the
    empty string.  [scanAll] is the loop
    [while ((match = regex.exec(text)) !== null)] of a [/g] expression:
    leftmost match first, the search resuming where the match ended.  It
    yields each match with its index. *)
Fixpoint scanAll (matchAt : jsstring -> option nat) (skip idx : nat)
         (s : jsstring) : list (nat * jsstring) :=
  match s with
  | [] => []
  | _ :: t =>
      match skip with
      | S k => scanAll matchAt k (S idx) t
      | O =>
          match matchAt s with
          | Some len =>
              (idx, firstn len s) :: scanAll matchAt (len - 1)%nat (S idx) t
          | None => scanAll matchAt 0%nat (S idx) t
          end
      end
  end.

(** The length of the longest prefix of units in the class [p]. *)
Fixpoint spanLength (p : char -> bool) (s : jsstring) : nat :=
  match s with
  | c :: t => if p c then S (spanLength p t) else O
  | [] => O
  end.

(** [X+] for a character class [X]. *)
Definition matchRun (p : char -> bool) (s : jsstring) : option nat :=
  match spanLength p s with
  | O => None
  | n => Some n
  end.

Fixpoint startsWith (prefix s : jsstring) : bool :=
  match prefix, s with
  | [], _ => true
  | a :: prefix', b :: s' => (a =? b) && startsWith prefix' s'
  | _ :: _, [] => false
  end.

(** The number of units before the first [?], none of them a line
    terminator. *)
Fixpoint lazyUntilQuestionMark (s : jsstring) : option nat :=
  match s with
  | [] => None
  | c :: t =>
      if c =? 0x3F then Some O
      else if isLineTerminator c then None
      else match lazyUntilQuestionMark t with
           | Some k => Some (S k)
           | None => None
           end
  end.

Definition LRO : char := 0x202D%N.
Definition PDF : char := 0x202C%N.

(** [s.replace(/(X+)/g, '\u202D$1\u202C')] for a character class [X]. *)
Fixpoint wrapRuns (p : char -> bool) (inRun : bool) (s : jsstring) : jsstring :=
  match s with
  | [] => if inRun then [PDF] else []
  | c :: t =>
      if p c
      then if inRun then c :: wrapRuns p true t
           else LRO :: c :: wrapRuns p true t
      else if inRun then PDF :: c :: wrapRuns p false t
           else c :: wrapRuns p false t
  end.

End JsString.

Import JsString.

(** ** services/hebrew-nlp: the pure text functions *)

Module HebrewText.

Local Open Scope N_scope.

(** [/[֐-׿]/], the Hebrew block. *)
Definition isHebrewChar (c : char) : bool := (0x0590 <=? c) && (c <=? 0x05FF).

(** [isHebrewText]: [hebrewRegex.test(text)]. *)
Definition isHebrewText (text : jsstring) : bool := existsb isHebrewChar text.

Definition KAF : char := 0x05DB%N.
Definition MEM : char := 0x05DE%N.
Definition NUN : char := 0x05E0%N.
Definition PE : char := 0x05E4%N.
Definition TSADI : char := 0x05E6%N.
Definition FINAL_KAF : char := 0x05DA%N.
Definition FINAL_MEM : char := 0x05DD%N.
Definition FINAL_NUN : char := 0x05DF%N.
Definition FINAL_PE : char := 0x05E3%N.
Definition FINAL_TSADI : char := 0x05E5%N.

(** The object literal [finalLetterMap], read at a one-unit key. *)
Definition finalLetterMap (c : char) : option char :=
  if c =? KAF then Some FINAL_KAF
  else if c =? MEM then Some FINAL_MEM
  else if c =? NUN then Some FINAL_NUN
  else if c =? PE then Some FINAL_PE
  else if c =? TSADI then Some FINAL_TSADI
  else None.

(** The callback of [words.map] in [fixFinalLetters]. *)
Definition fixWord (word : jsstring) : jsstring :=
  if (1 <? length word)%nat then
    match nth_error word (length word - 1)%nat,
          nth_error word (length word - 2)%nat with
    | Some lastChar, Some secondLastChar =>
        match finalLetterMap secondLastChar with
        | Some final =>
            if negb (isHebrewChar lastChar)
            then sliceButLast 2 word ++ [final] ++ [lastChar]
            else word
        | None => word
        end
    | _, _ => word
    end
  else word.

Definition fixFinalLetters (text : jsstring) : jsstring :=
  join [SPACE] (List.map fixWord (split SPACE text)).

Definition GERSHAYIM : char := 0x05F4%N.
Definition GERESH : char := 0x05F3%N.
Definition MAQAF : char := 0x05BE%N.

(** The three chained punctuation replacements. *)
Definition replaceHebrewPunctuation (s : jsstring) : jsstring :=
  replaceChar MAQAF 0x2D (replaceChar GERESH 0x27 (replaceChar GERSHAYIM 0x22 s)).

Definition normalizeHebrewText (text : jsstring) : jsstring :=
  let normalized := trim (replaceWhiteSpaceRuns false text) in
  let normalized := replaceHebrewPunctuation normalized in
  fixFinalLetters normalized.

End HebrewText.


Import HebrewText.

(** ** prisma/schema.prisma: the tables the pipeline reads and writes *)

Module Model.

Inductive ConversationStatus := ACTIVE | PAUSED | ENDED | TRANSFERRED.
Inductive MessageRole := USER | ASSISTANT | SYSTEM | FUNCTION.

Definition status_eqb (a b : ConversationStatus) : bool :=
  match a, b with
  | ACTIVE, ACTIVE | PAUSED, PAUSED | ENDED, ENDED
  | TRANSFERRED, TRANSFERRED => true
  | _, _ => false
  end.

(** JSON columns and socket payloads.  A [Date] is kept as its epoch
    milliseconds. *)
Local Unset Elimination Schemes.
Inductive Json :=
| JNull
| JBool (b : bool)
| JNum (n : Z)
| JStr (s : jsstring)
| JDate (ms : N)
| JArr (items : list Json)
| JObj (fields : list (jsstring * Json)).
Local Set Elimination Schemes.

(** Writing a key of an object literal: a later key of the same name
    replaces the earlier one in place, a new key goes last. *)
Fixpoint setField (k : jsstring) (v : Json) (o : list (jsstring * Json))
  : list (jsstring * Json) :=
  match o with
  | [] => [(k, v)]
  | (k', v') :: o' =>
      if JsString.eqb k' k then (k, v) :: o' else (k', v') :: setField k v o'
  end.

Fixpoint removeField (k : jsstring) (o : list (jsstring * Json))
  : list (jsstring * Json) :=
  match o with
  | [] => []
  | (k', v') :: o' =>
      if JsString.eqb k' k then removeField k o' else (k', v') :: removeField k o'
  end.

(** Writing a key whose value may be [undefined]: an undefined value is
    dropped when the object is serialised, and so is the key. *)
Definition setOptionalField (k : jsstring) (v : option jsstring)
           (o : list (jsstring * Json)) : list (jsstring * Json) :=
  match v with
  | Some s => setField k (JStr s) o
  | None => removeField k o
  end.

(** [{...x}]: the own fields of an object, nothing for [null]. *)
Definition spread (j : Json) : list (jsstring * Json) :=
  match j with
  | JObj fields => fields
  | _ => []
  end.

Record Agent := {
  agent_id : jsstring;
  agent_name : jsstring;
  agent_prompt : jsstring;
  agent_model : jsstring;
  agent_isActive : bool;
  agent_organizationId : jsstring
}.

Record Conversation := {
  conv_id : jsstring;
  conv_agentId : jsstring;
  conv_userId : option jsstring;
  conv_channel : jsstring;
  conv_status : ConversationStatus;
  conv_metadata : Json;
  conv_startedAt : N;
  conv_endedAt : option N
}.

Record Message := {
  msg_conversationId : jsstring;
  msg_role : MessageRole;
  msg_content : jsstring;
  msg_metadata : Json;
  msg_createdAt : N
}.

Record UserOrganization := {
  uo_userId : jsstring;
  uo_organizationId : jsstring;
  uo_role : jsstring
}.

(** [req.user], attached by the auth middleware. *)
Record User := {
  user_id : jsstring;
  user_email : jsstring;
  user_role : jsstring
}.

(** The payload of a point of the Qdrant collection: [content] together
    with the metadata keys that [addDocuments] spreads next to it. *)
Record Payload := {
  pl_content : jsstring;
  pl_metadata : list (jsstring * jsstring)
}.

Record Point := {
  pt_id : jsstring;
  pt_vector : list Q;
  pt_payload : Payload
}.

Fixpoint lookup (k : jsstring) (o : list (jsstring * jsstring)) : option jsstring :=
  match o with
  | [] => None
  | (k', v) :: o' => if JsString.eqb k' k then Some v else lookup k o'
  end.

(** [payload[key]] *)
Definition payloadField (p : Payload) (key : jsstring) : option jsstring :=
  if JsString.eqb key (lit "content") then Some (pl_content p)
  else lookup key (pl_metadata p).

End Model.

Import Model.

(** ** Effects: exceptions, the world, and the fallible call sites *)

Module Effects.

(** The places of the source that can throw: calls into the database, the
    vector index and the providers, and the bodies of the [try] blocks of
    the Hebrew NLP service. *)
Inductive Site :=
| DetectLanguage | NormalizeText | Tokenize | ExtractEntities
| AnalyzeSentiment | AddNikud
| EmbedQuery | QdrantSearch | ModelInvoke
| CreateUserMessage | CreateAssistantMessage
| FindConversation | FindUserOrganization | UpdateConversation
| CreateSystemMessage | FindMessages.

Inductive Error :=
| AppError (message : jsstring) (statusCode : nat)
| PlainError (message : jsstring)
| Failure (site : Site).

Inductive Result (A : Type) :=
| Ok (a : A)
| Throw (e : Error).
Arguments Ok {A} a.
Arguments Throw {A} e.

Inductive LogLevel := Info | Err.

(** A chat message handed to the model (langchain's message classes). *)
Inductive LLMMessage :=
| SystemMessage (content : jsstring)
| HumanMessage (content : jsstring)
| AIMessage (content : jsstring).

(** A condition of a Qdrant filter. *)
Inductive Match :=
| MatchValue (value : jsstring)
| MatchAny (values : list jsstring).

Record Condition := { cond_key : jsstring; cond_match : Match }.
Record QdrantFilter := { must : list Condition }.

Record SearchRequest := {
  sr_vector : list Q;
  sr_limit : nat;
  sr_filter : option QdrantFilter;
  sr_with_payload : bool
}.

(** What a handler leaves behind besides the tables. *)
Inductive Event :=
| Logged (level : LogLevel) (message : jsstring) (error : option Error)
| Emitted (room event : jsstring) (payload : Json)
| Searched (request : SearchRequest)
| Invoked (model : jsstring) (messages : list LLMMessage).

Record World := {
  w_agents : list Agent;
  w_conversations : list Conversation;
  w_messages : list Message;
  w_userOrganizations : list UserOrganization;
  w_points : list Point;
  w_trace : list Event
}.

Record Hit := { hit_score : Q; hit_point : Point }.

(** Everything outside the repository: which call sites fail, the
    providers, the index's ranking, the clock and the UUID validator. *)
Record Env := {
  fails : Site -> bool;
  embedQuery : jsstring -> list Q;
  qdrantSearch : list Point -> SearchRequest -> list Hit;
  modelReply : jsstring -> list LLMMessage -> jsstring;
  enableNikud : bool;
  now : N;
  toISOString : N -> jsstring;
  isUUID : jsstring -> bool
}.

Definition M (A : Type) : Type := World -> Result A * World.

Definition ret {A} (a : A) : M A := fun w => (Ok a, w).
Definition throw {A} (e : Error) : M A := fun w => (Throw e, w).

Definition bind {A B} (m : M A) (k : A -> M B) : M B :=
  fun w =>
    match m w with
    | (Ok a, w') => k a w'
    | (Throw e, w') => (Throw e, w')
    end.

(** [try { m } catch (error) { handler }] *)
Definition tryCatch {A} (m : M A) (handler : Error -> M A) : M A :=
  fun w =>
    match m w with
    | (Ok a, w') => (Ok a, w')
    | (Throw e, w') => handler e w'
    end.

Definition record (ev : Event) : M unit :=
  fun w =>
    (Ok tt, {| w_agents := w_agents w;
               w_conversations := w_conversations w;
               w_messages := w_messages w;
               w_userOrganizations := w_userOrganizations w;
               w_points := w_points w;
               w_trace := w_trace w ++ [ev] |}).

Definition logInfo (message : jsstring) : M unit :=
  record (Logged Info message None).
Definition logError (message : jsstring) (e : Error) : M unit :=
  record (Logged Err message (Some e)).
Definition emit (room event : jsstring) (payload : Json) : M unit :=
  record (Emitted room event payload).

(** A call that may throw at [site] and otherwise runs [m]. *)
Definition at_site {A} (env : Env) (site : Site) (m : M A) : M A :=
  if fails env site then throw (Failure site) else m.

Definition get : M World := fun w => (Ok w, w).

End Effects.

Import Effects.

Declare Scope monad_scope.
Delimit Scope monad_scope with monad.
Notation "x <- m ;; k" := (bind m (fun x => k))
  (at level 61, m at next level, right associativity) : monad_scope.
Notation "m ;;; k" := (bind m (fun _ => k))
  (at level 61, right associativity) : monad_scope.

Local Open Scope monad_scope.

(** ** database/connection: the prisma calls of the pipeline *)

Module Prisma.

Definition setMessages (w : World) (ms : list Message) : World :=
  {| w_agents := w_agents w;
     w_conversations := w_conversations w;
     w_messages := ms;
     w_userOrganizations := w_userOrganizations w;
     w_points := w_points w;
     w_trace := w_trace w |}.

Definition setConversations (w : World) (cs : list Conversation) : World :=
  {| w_agents := w_agents w;
     w_conversations := cs;
     w_messages := w_messages w;
     w_userOrganizations := w_userOrganizations w;
     w_points := w_points w;
     w_trace := w_trace w |}.

(** The messages of a conversation, in the order of the table. *)
Definition messagesOf (id : jsstring) (ms : list Message) : list Message :=
  filter (fun m => JsString.eqb (msg_conversationId m) id) ms.

(** [orderBy: { createdAt: 'desc' }]: the rows by decreasing [createdAt].
    Among rows of the same [createdAt] the one that is later in the table
    comes first, so that a table kept in creation order is read
    backwards. *)
Fixpoint insertDesc (m : Message) (sorted : list Message) : list Message :=
  match sorted with
  | [] => [m]
  | m' :: rest =>
      if (msg_createdAt m' <=? msg_createdAt m)%N then m :: sorted
      else m' :: insertDesc m rest
  end.

Definition orderByCreatedAtDesc (ms : list Message) : list Message :=
  fold_left (fun sorted m => insertDesc m sorted) ms [].

Section Calls.

Variable env : Env.

(** [prisma.message.create({ data })]; [createdAt] defaults to now. *)
Definition messageCreate (site : Site) (conversationId : jsstring)
           (role : MessageRole) (content : jsstring) (metadata : Json)
  : M Message :=
  at_site env site
    (fun w =>
       let m := {| msg_conversationId := conversationId;
                   msg_role := role;
                   msg_content := content;
                   msg_metadata := metadata;
                   msg_createdAt := now env |} in
       (Ok m, setMessages w (w_messages w ++ [m]))).

(** [prisma.message.findMany({ where: { conversationId } })] *)
Definition messageFindMany (conversationId : jsstring) : M (list Message) :=
  at_site env FindMessages
    (w <- get ;; ret (messagesOf conversationId (w_messages w))).

(** [prisma.conversation.findUnique({ where: { id }, include: { agent } })];
    the foreign key makes the agent of a stored conversation exist. *)
Definition conversationFindUnique (id : jsstring)
  : M (option (Conversation * Agent)) :=
  at_site env FindConversation
    (w <- get ;;
     match find (fun c => JsString.eqb (conv_id c) id) (w_conversations w) with
     | Some c =>
         match find (fun a => JsString.eqb (agent_id a) (conv_agentId c))
                    (w_agents w) with
         | Some a => ret (Some (c, a))
         | None => ret None
         end
     | None => ret None
     end).

(** The same query with
    [messages: { orderBy: { createdAt: 'desc' }, take }] included. *)
Definition conversationFindUniqueWithMessages (id : jsstring) (take : nat)
  : M (option (Conversation * Agent * list Message)) :=
  found <- conversationFindUnique id ;;
  w <- get ;;
  match found with
  | Some (c, a) =>
      ret (Some (c, a,
                 firstn take
                   (orderByCreatedAtDesc (messagesOf id (w_messages w)))))
  | None => ret None
  end.

(** [prisma.conversation.update({ where: { id }, data })]: [data] is
    given as the change it makes to the row; a missing row throws. *)
Definition conversationUpdate (id : jsstring)
           (data : Conversation -> Conversation) : M Conversation :=
  at_site env UpdateConversation
    (fun w =>
       match find (fun c => JsString.eqb (conv_id c) id) (w_conversations w) with
       | Some c =>
           (Ok (data c),
            setConversations w
              (List.map
                 (fun c' => if JsString.eqb (conv_id c') id then data c' else c')
                 (w_conversations w)))
       | None => (Throw (Failure UpdateConversation), w)
       end).

(** [prisma.userOrganization.findFirst({ where: { userId, organizationId } })] *)
Definition userOrganizationFindFirst (userId organizationId : jsstring)
  : M (option UserOrganization) :=
  at_site env FindUserOrganization
    (w <- get ;;
     ret (find (fun uo => JsString.eqb (uo_userId uo) userId
                          && JsString.eqb (uo_organizationId uo) organizationId)
               (w_userOrganizations w))).

End Calls.

End Prisma.

(** ** services/hebrew-nlp: [HebrewNLPService] *)

Module HebrewNLP.

Inductive EntityType := PERSON | LOCATION | ORGANIZATION | DATE | NUMBER | OTHER.

Record Entity := {
  ent_text : jsstring;
  ent_type : EntityType;
  ent_startIndex : nat;
  ent_endIndex : nat;
  ent_confidence : Q
}.

Inductive SentimentLabel := positive | negative | neutral.

Record SentimentResult := {
  sent_score : Q;
  sent_label : SentimentLabel;
  sent_confidence : Q
}.

Record HebrewTextAnalysis := {
  text : jsstring;
  normalizedText : jsstring;
  tokens : list jsstring;
  nikud : option jsstring;
  entities : list Entity;
  sentiment : SentimentResult;
  language : jsstring;
  isHebrew : bool
}.

(** [/\d{2}\/\d{2}\/\d{4}/g] *)
Definition matchDate (s : jsstring) : option nat :=
  match s with
  | d1 :: d2 :: s1 :: m1 :: m2 :: s2 :: y1 :: y2 :: y3 :: y4 :: _ =>
      if isDigit d1 && isDigit d2 && (s1 =? 0x2F)%N
         && isDigit m1 && isDigit m2 && (s2 =? 0x2F)%N
         && isDigit y1 && isDigit y2 && isDigit y3 && isDigit y4
      then Some 10%nat else None
  | _ => None
  end.

(** [[א-ת]] *)
Definition isHebrewLetter (c : char) : bool :=
  ((0x05D0 <=? c) && (c <=? 0x05EA))%N.

(** [/[א-ת]+ [א-ת]+/g]: both runs are greedy, and giving back letters
    of the first run never helps, since a letter is not a space. *)
Definition matchHebrewPair (s : jsstring) : option nat :=
  match spanLength isHebrewLetter s with
  | O => None
  | n =>
      match skipn n s with
      | sp :: rest =>
          if (sp =? SPACE)%N then
            match spanLength isHebrewLetter rest with
            | O => None
            | m => Some (n + 1 + m)%nat
            end
          else None
      | [] => None
      end
  end.

Definition patterns : list ((jsstring -> option nat) * EntityType) :=
  [ (matchDate, DATE); (matchRun isDigit, NUMBER); (matchHebrewPair, PERSON) ].

Definition entitiesOf (s : jsstring) : list Entity :=
  flat_map
    (fun pattern =>
       List.map
         (fun m => {| ent_text := snd m;
                      ent_type := snd pattern;
                      ent_startIndex := fst m;
                      ent_endIndex := fst m + length (snd m);
                      ent_confidence := 8 # 10 |})
         (scanAll (fst pattern) 0 0 s))
    patterns.

Section Service.

Variable env : Env.

Definition tokenize (s : jsstring) : M (list jsstring) :=
  tryCatch
    (at_site env Tokenize
       (let tokens := splitWhiteSpaceRuns false s in
        ret (filter (fun token => (0 <? length token)%nat) tokens)))
    (fun error =>
       logError (lit "Tokenization failed:") error ;;;
       ret (split SPACE s)).

Definition extractEntities (s : jsstring) : M (list Entity) :=
  tryCatch
    (at_site env ExtractEntities (ret (entitiesOf s)))
    (fun error =>
       logError (lit "Entity extraction failed:") error ;;;
       ret []).

Definition analyzeSentiment (s : jsstring) : M SentimentResult :=
  tryCatch
    (at_site env AnalyzeSentiment
       (ret {| sent_score := 0; sent_label := neutral;
               sent_confidence := 5 # 10 |}))
    (fun error =>
       logError (lit "Sentiment analysis failed:") error ;;;
       ret {| sent_score := 0; sent_label := neutral;
              sent_confidence := 0 |}).

Definition addNikud (s : jsstring) : M jsstring :=
  tryCatch
    (at_site env AddNikud (ret s))
    (fun error =>
       logError (lit "Nikud addition failed:") error ;;;
       ret s).

Definition analyzeText (input : jsstring) : M HebrewTextAnalysis :=
  tryCatch
    (hebrew <- at_site env DetectLanguage (ret (isHebrewText input)) ;;
     if negb hebrew then
       ret {| text := input;
              normalizedText := input;
              tokens := split SPACE input;
              nikud := None;
              entities := [];
              sentiment := {| sent_score := 0; sent_label := neutral;
                              sent_confidence := 0 |};
              language := lit "en";
              isHebrew := false |}
     else
       normalized <- at_site env NormalizeText
                       (ret (normalizeHebrewText input)) ;;
       toks <- tokenize normalized ;;
       ents <- extractEntities normalized ;;
       senti <- analyzeSentiment normalized ;;
       nikudText <- (if enableNikud env
                     then n <- addNikud normalized ;; ret (Some n)
                     else ret None) ;;
       ret {| text := input;
              normalizedText := normalized;
              tokens := toks;
              nikud := nikudText;
              entities := ents;
              sentiment := senti;
              language := lit "he";
              isHebrew := true |})
    (fun error =>
       logError (lit "Hebrew NLP analysis failed:") error ;;;
       throw error).

End Service.

End HebrewNLP.

(** ** services/vector-store: [VectorStore] *)

Module VectorStore.

Record SearchResult := {
  res_id : jsstring;
  res_score : Q;
  res_pageContent : jsstring;
  res_metadata : Payload
}.

(** A value of the simple filter object: an array or anything else. *)
Inductive FilterValue :=
| Scalar (value : jsstring)
| Array (values : list jsstring).

(** The loop over [Object.entries(filter)]. *)
Definition buildQdrantFilter (filter : list (jsstring * FilterValue))
  : QdrantFilter :=
  {| must :=
       fold_left
         (fun must entry =>
            match snd entry with
            | Array values =>
                must ++ [{| cond_key := fst entry;
                            cond_match := MatchAny values |}]
            | Scalar value =>
                must ++ [{| cond_key := fst entry;
                            cond_match := MatchValue value |}]
            end)
         filter [] |}.

Section Store.

Variable env : Env.

Definition similaritySearch (query : jsstring) (k : nat)
           (filter : option (list (jsstring * FilterValue)))
  : M (list SearchResult) :=
  tryCatch
    (queryEmbedding <- at_site env EmbedQuery (ret (embedQuery env query)) ;;
     let request :=
       {| sr_vector := queryEmbedding;
          sr_limit := k;
          sr_filter := match filter with
                       | Some f => Some (buildQdrantFilter f)
                       | None => None
                       end;
          sr_with_payload := true |} in
     record (Searched request) ;;;
     w <- get ;;
     response <- at_site env QdrantSearch
                   (ret (qdrantSearch env (w_points w) request)) ;;
     ret (List.map
            (fun hit =>
               {| res_id := pt_id (hit_point hit);
                  res_score := hit_score hit;
                  res_pageContent := pl_content (pt_payload (hit_point hit));
                  res_metadata := pt_payload (hit_point hit) |})
            response))
    (fun error =>
       logError (lit "Vector search failed:") error ;;;
       throw error).

End Store.

End VectorStore.

(** ** services/agent-engine: [AgentEngine] *)

Module AgentEngine.

Import HebrewNLP VectorStore.

Record AgentContext := {
  agent : Agent;
  conversation : Conversation;
  history : list Message;
  userInput : jsstring;
  metadata : Json
}.

Record AgentResponse := {
  content : jsstring;
  confidence : Q;
  suggestedActions : list jsstring;
  resp_metadata : Json
}.

(** The names registered by [initializeModels]. *)
Definition models : list jsstring :=
  [ lit "gpt-4"; lit "gpt-4-turbo-preview"; lit "gpt-3.5-turbo" ].

(** [this.models.get(name) || this.models.get('gpt-4')!] *)
Definition selectModel (name : jsstring) : jsstring :=
  if existsb (JsString.eqb name) models then name else lit "gpt-4".

(** The Hebrew instruction appended to the system prompt: two line feeds,
    then the sentence asking for an answer in correct standard Hebrew. *)
Definition hebrewInstruction : jsstring :=
  [0x000A; 0x000A; 0x05D7; 0x05E9; 0x05D5; 0x05D1; 0x003A; 0x0020; 0x05D4;
   0x05DE; 0x05E9; 0x05EA; 0x05DE; 0x05E9; 0x0020; 0x05DB; 0x05D5; 0x05EA;
   0x05D1; 0x0020; 0x05D1; 0x05E2; 0x05D1; 0x05E8; 0x05D9; 0x05EA; 0x002E;
   0x0020; 0x05D9; 0x05E9; 0x0020; 0x05DC; 0x05D4; 0x05E9; 0x05D9; 0x05D1;
   0x0020; 0x05D1; 0x05E2; 0x05D1; 0x05E8; 0x05D9; 0x05EA; 0x0020; 0x05EA;
   0x05E7; 0x05E0; 0x05D9; 0x05EA; 0x0020; 0x05D5; 0x05D1; 0x05E8; 0x05D5;
   0x05E8; 0x05D4; 0x002E; 0x0020; 0x05E9; 0x05D9; 0x05DD; 0x0020; 0x05DC;
   0x05D1; 0x0020; 0x05DC; 0x05D3; 0x05E7; 0x05D3; 0x05D5; 0x05E7; 0x0020;
   0x05E0; 0x05DB; 0x05D5; 0x05DF; 0x0020; 0x05D5; 0x05DC; 0x05E9; 0x05D9;
   0x05DE; 0x05D5; 0x05E9; 0x0020; 0x05D1; 0x05E1; 0x05D9; 0x05DE; 0x05E0;
   0x05D9; 0x0020; 0x05E4; 0x05D9; 0x05E1; 0x05D5; 0x05E7; 0x0020; 0x05DE;
   0x05EA; 0x05D0; 0x05D9; 0x05DE; 0x05D9; 0x05DD; 0x002E]%N.

(** The heading of the knowledge section: two line feeds, the Hebrew
    heading with its colon, one line feed. *)
Definition knowledgeHeading : jsstring :=
  [0x000A; 0x000A; 0x05DE; 0x05D9; 0x05D3; 0x05E2; 0x0020; 0x05E8; 0x05DC;
   0x05D5; 0x05D5; 0x05E0; 0x05D8; 0x05D9; 0x0020; 0x05DE; 0x05D1; 0x05E1;
   0x05D9; 0x05E1; 0x0020; 0x05D4; 0x05D9; 0x05D3; 0x05E2; 0x003A; 0x000A]%N.

(** The body of the loop over [context.history.slice(-10)]. *)
Definition pushHistory (messages : list LLMMessage) (msg : Message)
  : list LLMMessage :=
  match msg_role msg with
  | USER => messages ++ [HumanMessage (msg_content msg)]
  | ASSISTANT => messages ++ [AIMessage (msg_content msg)]
  | _ => messages
  end.

Definition buildMessages (context : AgentContext)
           (textAnalysis : HebrewTextAnalysis) (relevantDocs : list jsstring)
  : list LLMMessage :=
  let messages : list LLMMessage := [] in
  let systemPrompt := agent_prompt (agent context) in
  let systemPrompt :=
    if isHebrew textAnalysis then systemPrompt ++ hebrewInstruction
    else systemPrompt in
  let systemPrompt :=
    if (0 <? length relevantDocs)%nat
    then systemPrompt ++ knowledgeHeading
         ++ join [NEWLINE; NEWLINE] relevantDocs
    else systemPrompt in
  let messages := messages ++ [SystemMessage systemPrompt] in
  let messages := fold_left pushHistory (sliceLast 10 (history context)) messages in
  messages ++ [HumanMessage (userInput context)].

Definition fixRTLFormatting (s : jsstring) : jsstring :=
  wrapRuns isAsciiLetter false (wrapRuns isDigit false s).

(** The prefixes of the four action patterns; each is followed by
    [(.+?)\?]. *)
Definition actionPrefixes : list jsstring :=
  [ [0x05D4; 0x05D0; 0x05DD; 0x0020; 0x05EA; 0x05E8; 0x05E6; 0x05D4; 0x0020;
     0x05E9]%N;
    [0x05D4; 0x05D0; 0x05DD; 0x0020; 0x05D0; 0x05D5; 0x05DB; 0x05DC; 0x0020;
     0x05DC; 0x05E2; 0x05D6; 0x05D5; 0x05E8; 0x0020; 0x05D1]%N;
    lit "Would you like me to ";
    lit "Can I help you with " ].

Definition matchAction (prefix s : jsstring) : option nat :=
  if startsWith prefix s then
    match skipn (length prefix) s with
    | c :: rest =>
        if isLineTerminator c then None
        else match lazyUntilQuestionMark rest with
             | Some k => Some (length prefix + 1 + k + 1)%nat
             | None => None
             end
    | [] => None
    end
  else None.

Definition extractSuggestedActions (s : jsstring) : list jsstring :=
  flat_map
    (fun prefix =>
       List.map
         (fun m => trim (sliceButLast 1 (skipn (length prefix) (snd m))))
         (scanAll (matchAction prefix) 0 0 s))
    actionPrefixes.

Section Engine.

Variable env : Env.

Definition getRelevantContext (agentId query : jsstring) (limit : nat)
  : M (list jsstring) :=
  tryCatch
    (results <- similaritySearch env query limit
                  (Some [(lit "agentId", Scalar agentId)]) ;;
     ret (List.map res_pageContent results))
    (fun error =>
       logError (lit "Failed to get relevant context:") error ;;;
       ret []).

(** [model.invoke(messages)] followed by [response.content.toString()]. *)
Definition invoke (model : jsstring) (messages : list LLMMessage) : M jsstring :=
  record (Invoked model messages) ;;;
  at_site env ModelInvoke (ret (modelReply env model messages)).

Definition postProcessResponse (reply : jsstring) (hebrew : bool)
  : M AgentResponse :=
  processedContent <-
    (if hebrew then
       let processedContent := fixRTLFormatting reply in
       hebrewAnalysis <- analyzeText env processedContent ;;
       ret (normalizedText hebrewAnalysis)
     else ret reply) ;;
  let actions := extractSuggestedActions processedContent in
  ret {| content := processedContent;
         confidence := 95 # 100;
         suggestedActions := actions;
         resp_metadata :=
           JObj [ (lit "language", JStr (if hebrew then lit "he" else lit "en"));
                  (lit "processedAt", JStr (toISOString env (now env))) ] |}.

Definition saveMessages (context : AgentContext) (assistantContent : jsstring)
  : M unit :=
  tryCatch
    (Prisma.messageCreate env CreateUserMessage
       (conv_id (conversation context)) USER (userInput context)
       (metadata context) ;;;
     Prisma.messageCreate env CreateAssistantMessage
       (conv_id (conversation context)) ASSISTANT assistantContent
       (JObj [ (lit "model", JStr (agent_model (agent context)));
               (lit "agentId", JStr (agent_id (agent context))) ]) ;;;
     ret tt)
    (fun error =>
       logError (lit "Failed to save messages:") error).

Definition processMessage (context : AgentContext) : M AgentResponse :=
  tryCatch
    (textAnalysis <- analyzeText env (userInput context) ;;
     logInfo (lit "Text analysis completed") ;;;
     relevantDocs <- getRelevantContext (agent_id (agent context))
                       (normalizedText textAnalysis) 5 ;;
     let messages := buildMessages context textAnalysis relevantDocs in
     let model := selectModel (agent_model (agent context)) in
     response <- invoke model messages ;;
     processedResponse <- postProcessResponse response (isHebrew textAnalysis) ;;
     saveMessages context (content processedResponse) ;;;
     ret processedResponse)
    (fun error =>
       logError (lit "Agent engine error:") error ;;;
       throw error).

End Engine.

End AgentEngine.

(** ** middleware/permissions *)

Module Permissions.

Inductive Resource := agent_ | conversation_ | integration_ | analytics_ | organization_.
Inductive Action := create | read | update | delete.

Definition crud : list Action := [create; read; update; delete].

Definition action_eqb (a b : Action) : bool :=
  match a, b with
  | create, create | read, read | update, update | delete, delete => true
  | _, _ => false
  end.

(** The table [permissions] of [checkOrgRolePermission]. *)
Definition permissions (role : jsstring) : option (Resource -> list Action) :=
  if JsString.eqb role (lit "OWNER") then
    Some (fun r => match r with
                   | agent_ | conversation_ | integration_ => crud
                   | analytics_ => [read]
                   | organization_ => [read; update; delete]
                   end)
  else if JsString.eqb role (lit "ADMIN") then
    Some (fun r => match r with
                   | agent_ | conversation_ | integration_ => crud
                   | analytics_ => [read]
                   | organization_ => [read; update]
                   end)
  else if JsString.eqb role (lit "MEMBER") then
    Some (fun r => match r with
                   | agent_ | conversation_ => [create; read; update]
                   | integration_ | analytics_ | organization_ => [read]
                   end)
  else if JsString.eqb role (lit "VIEWER") then
    Some (fun _ => [read])
  else None.

Definition checkOrgRolePermission (role : jsstring) (action : Action)
           (resource : Resource) : bool :=
  match permissions role with
  | None => false
  | Some rolePermissions => existsb (action_eqb action) (rolePermissions resource)
  end.

Section Check.

Variable env : Env.

Definition checkPermission (user : User) (action : Action)
           (resource : Resource) (resourceOrgId : jsstring) : M bool :=
  if JsString.eqb (user_role user) (lit "ADMIN") then ret true
  else if (0 <? length resourceOrgId)%nat then
    userOrg <- Prisma.userOrganizationFindFirst env (user_id user) resourceOrgId ;;
    match userOrg with
    | None => throw (AppError (lit "Access denied") 403)
    | Some uo =>
        if negb (checkOrgRolePermission (uo_role uo) action resource)
        then throw (AppError (lit "Insufficient permissions") 403)
        else ret true
    end
  else ret true.

End Check.

End Permissions.

(** ** routes/conversations: sending a message, ending, transferring *)

Module Conversations.

Import AgentEngine Permissions.

(** [req.user], [req.params.id] and the fields of [req.body] the three
    handlers read. *)
Record Request := {
  req_user : User;
  req_id : jsstring;
  req_content : jsstring;
  req_metadata : option Json;
  req_reason : option jsstring
}.

(** What [res.json] sends. *)
Inductive Response :=
| MessageReply (response : AgentResponse)
| ConversationEnded (conversation : Conversation) (duration : Z)
                    (messageCount : nat) (avgResponseTime : Q)
| ConversationTransferred (conversation : Conversation).

Definition isObject (j : option Json) : bool :=
  match j with
  | None | Some (JObj _) => true
  | Some _ => false
  end.

(** The loop of [calculateAvgResponseTime], [prev] being [messages[i - 1]]. *)
Fixpoint responseTimes (prev : Message) (ms : list Message) : list Z :=
  match ms with
  | [] => []
  | m :: t =>
      match msg_role m, msg_role prev with
      | ASSISTANT, USER =>
          (Z.of_N (msg_createdAt m) - Z.of_N (msg_createdAt prev))%Z
          :: responseTimes m t
      | _, _ => responseTimes m t
      end
  end.

Definition calculateAvgResponseTime (messages : list Message) : Q :=
  match messages with
  | [] => 0
  | m :: t =>
      let times := responseTimes m t in
      if (length times =? 0)%nat then 0
      else Qmake (fold_left Z.add times 0%Z) (Pos.of_nat (length times))
  end.

(** The text of the system message of a transfer, before the reason. *)
Definition transferNotice : jsstring :=
  [0x05D4; 0x05E9; 0x05D9; 0x05D7; 0x05D4; 0x0020; 0x05D4; 0x05D5; 0x05E2;
   0x05D1; 0x05E8; 0x05D4; 0x0020; 0x05DC; 0x05E0; 0x05E6; 0x05D9; 0x05D2;
   0x0020; 0x05D0; 0x05E0; 0x05D5; 0x05E9; 0x05D9]%N.

Definition transferContent (reason : option jsstring) : jsstring :=
  transferNotice ++
  match reason with
  | Some r => if (0 <? length r)%nat then lit ": " ++ r else []
  | None => []
  end.

Definition setStatus (st : ConversationStatus) (ended : option N)
           (meta : Json) (c : Conversation) : Conversation :=
  {| conv_id := conv_id c;
     conv_agentId := conv_agentId c;
     conv_userId := conv_userId c;
     conv_channel := conv_channel c;
     conv_status := st;
     conv_metadata := meta;
     conv_startedAt := conv_startedAt c;
     conv_endedAt := ended |}.

Section Handlers.

Variable env : Env.

(** [POST /api/conversations/:id/messages] *)
Definition postMessage (req : Request) : M Response :=
  if negb (isUUID env (req_id req)
           && (0 <? length (req_content req))%nat
           && isObject (req_metadata req))
  then throw (AppError (lit "Validation failed") 400)
  else
    let id := req_id req in
    found <- Prisma.conversationFindUniqueWithMessages env id 20 ;;
    match found with
    | None => throw (AppError (lit "Conversation not found") 404)
    | Some (conv, agt, recent) =>
        if negb (status_eqb (conv_status conv) ACTIVE)
        then throw (AppError (lit "Conversation is not active") 400)
        else
          checkPermission env (req_user req) update conversation_
            (agent_organizationId agt) ;;;
          emit (lit "conversation:" ++ id) (lit "agent:typing")
               (JObj [(lit "conversationId", JStr id)]) ;;;
          tryCatch
            (response <- processMessage env
                           {| agent := agt;
                              conversation := conv;
                              history := rev recent;
                              userInput := req_content req;
                              metadata := match req_metadata req with
                                          | Some j => j
                                          | None => JNull
                                          end |} ;;
             emit (lit "conversation:" ++ id) (lit "message:new")
                  (JObj [ (lit "conversationId", JStr id);
                          (lit "message",
                           JObj [ (lit "role", JStr (lit "ASSISTANT"));
                                  (lit "content", JStr (content response));
                                  (lit "metadata", resp_metadata response);
                                  (lit "createdAt", JDate (now env)) ]) ]) ;;;
             ret (MessageReply response))
            (fun error =>
               logError (lit "Message processing failed:") error ;;;
               emit (lit "conversation:" ++ id) (lit "agent:error")
                    (JObj [ (lit "conversationId", JStr id);
                            (lit "error", JStr (lit "Failed to process message")) ]) ;;;
               throw (AppError (lit "Failed to process message") 500))
    end.

(** [PUT /api/conversations/:id/end] *)
Definition endConversation (req : Request) : M Response :=
  if negb (isUUID env (req_id req))
  then throw (AppError (lit "Invalid conversation ID") 400)
  else
    let id := req_id req in
    found <- Prisma.conversationFindUnique env id ;;
    match found with
    | None => throw (AppError (lit "Conversation not found") 404)
    | Some (conv, agt) =>
        checkPermission env (req_user req) update conversation_
          (agent_organizationId agt) ;;;
        updatedConversation <-
          Prisma.conversationUpdate env id
            (fun c => setStatus ENDED (Some (now env)) (conv_metadata c) c) ;;
        messages <- Prisma.messageFindMany env id ;;
        let duration :=
          (Z.of_N (now env) - Z.of_N (conv_startedAt updatedConversation))%Z in
        let messageCount := length messages in
        let avgResponseTime := calculateAvgResponseTime messages in
        logInfo (lit "Conversation ended: " ++ id) ;;;
        emit (lit "conversation:" ++ id) (lit "conversation:ended")
             (JObj [ (lit "conversationId", JStr id);
                     (lit "duration", JNum duration);
                     (lit "messageCount", JNum (Z.of_nat messageCount)) ]) ;;;
        ret (ConversationEnded updatedConversation duration messageCount
                               avgResponseTime)
    end.

(** [PUT /api/conversations/:id/transfer] *)
Definition transferConversation (req : Request) : M Response :=
  if negb (isUUID env (req_id req))
  then throw (AppError (lit "Invalid conversation ID") 400)
  else
    let id := req_id req in
    let reason := req_reason req in
    found <- Prisma.conversationFindUnique env id ;;
    match found with
    | None => throw (AppError (lit "Conversation not found") 404)
    | Some (conv, agt) =>
        checkPermission env (req_user req) update conversation_
          (agent_organizationId agt) ;;;
        updatedConversation <-
          Prisma.conversationUpdate env id
            (fun c =>
               setStatus TRANSFERRED (conv_endedAt c)
                 (JObj
                    (setOptionalField (lit "transferReason") reason
                       (setField (lit "transferredBy") (JStr (user_id (req_user req)))
                          (setField (lit "transferredAt") (JDate (now env))
                             (spread (conv_metadata conv))))))
                 c) ;;
        Prisma.messageCreate env CreateSystemMessage id SYSTEM
          (transferContent reason)
          (JObj [(lit "transferredBy", JStr (user_email (req_user req)))]) ;;;
        logInfo (lit "Conversation transferred: " ++ id ++ lit " by user: "
                 ++ user_email (req_user req)) ;;;
        emit (lit "org:" ++ agent_organizationId agt)
             (lit "conversation:transferred")
             (JObj (setOptionalField (lit "reason") reason
                      [ (lit "conversationId", JStr id);
                        (lit "agentName", JStr (agent_name agt)) ])) ;;;
        ret (ConversationTransferred updatedConversation)
    end.

End Handlers.

End Conversations.

(** ** Vocabulary of the statements about text *)

Module Shape.

Local Open Scope N_scope.

(** White space is tidy from a position when every white-space unit is a
    single space standing between two other units; [afterSpace] tells
    that the position follows a space or starts the string. *)
Fixpoint tidyFrom (afterSpace : bool) (s : jsstring) : bool :=
  match s with
  | [] => negb afterSpace
  | c :: t =>
      if isWhiteSpace c
      then negb afterSpace && (c =? SPACE) && tidyFrom true t
      else tidyFrom false t
  end.

Definition tidy (s : jsstring) : bool :=
  match s with
  | [] => true
  | _ => tidyFrom true s
  end.

(** A unit and what final-letter correction may leave in its place. *)
Definition finalized (a b : char) : Prop :=
  a = b \/ finalLetterMap a = Some b.

(** Not one of the three Hebrew punctuation marks that are replaced. *)
Definition plain (c : char) : bool :=
  negb (c =? GERSHAYIM) && negb (c =? GERESH) && negb (c =? MAQAF).

Definition spaceFree (w : jsstring) : bool :=
  forallb (fun c => negb (c =? SPACE)) w.

End Shape.

(** ** Vocabulary of the statements about the prompt *)

Module PromptShape.

(** The history entries that are replayed to the model. *)
Definition replayed (m : Message) : bool :=
  match msg_role m with
  | USER | ASSISTANT => true
  | SYSTEM | FUNCTION => false
  end.

Definition asLLMMessage (m : Message) : LLMMessage :=
  match msg_role m with
  | USER => HumanMessage (msg_content m)
  | _ => AIMessage (msg_content m)
  end.

Definition isSystemMessage (m : LLMMessage) : bool :=
  match m with
  | SystemMessage _ => true
  | _ => false
  end.

(** [l1] is [l2] with some entries left out, the others in their order. *)
Inductive Subsequence {A : Type} : list A -> list A -> Prop :=
| sub_nil : Subsequence [] []
| sub_skip a l1 l2 : Subsequence l1 l2 -> Subsequence l1 (a :: l2)
| sub_keep a l1 l2 : Subsequence l1 l2 -> Subsequence (a :: l1) (a :: l2).

End PromptShape.

(** ** Vocabulary of the statements about retrieval *)

Module Retrieval.

(** Qdrant's reading of a [must] condition on a payload. *)
Definition conditionHolds (c : Condition) (p : Payload) : bool :=
  match payloadField p (cond_key c) with
  | Some v =>
      match cond_match c with
      | MatchValue x => JsString.eqb v x
      | MatchAny xs => existsb (JsString.eqb v) xs
      end
  | None => false
  end.

Definition filterHolds (f : option QdrantFilter) (p : Payload) : bool :=
  match f with
  | None => true
  | Some f => forallb (fun c => conditionHolds c p) (must f)
  end.

(** The index answers a request within its contract: every hit is a point
    of the collection whose payload satisfies the filter of the request. *)
Definition honoursFilter (env : Env) (points : list Point)
           (request : SearchRequest) : Prop :=
  Forall (fun hit => In (hit_point hit) points
                     /\ filterHolds (sr_filter request)
                                    (pt_payload (hit_point hit)) = true)
         (qdrantSearch env points request).

(** The point was indexed for this agent. *)
Definition ownedBy (agentId : jsstring) (p : Point) : Prop :=
  payloadField (pt_payload p) (lit "agentId") = Some agentId.

(** The filter that scopes a search to one agent. *)
Definition agentScope (agentId : jsstring) : QdrantFilter :=
  {| must := [ {| cond_key := lit "agentId";
                  cond_match := MatchValue agentId |} ] |}.

(** The request [getRelevantContext] sends for an agent. *)
Definition agentRequest (env : Env) (agentId query : jsstring) (limit : nat)
  : SearchRequest :=
  {| sr_vector := embedQuery env query;
     sr_limit := limit;
     sr_filter := Some (agentScope agentId);
     sr_with_payload := true |}.

End Retrieval.

(** ** Vocabulary of the statements about effects *)

Module Frame.

(** The rows and points of a world, without its trace. *)
Definition tables (w : World) :=
  (w_agents w, w_conversations w, w_messages w, w_userOrganizations w,
   w_points w).

(** A computation whose every run relates the world before to the world
    after by [R]. *)
Definition Respects {A : Type} (R : World -> World -> Prop) (m : M A) : Prop :=
  forall w, R w (snd (m w)).

(** A computation that leaves one component of the world as it was. *)
Definition Preserves {T A : Type} (proj : World -> T) (m : M A) : Prop :=
  Respects (fun w w' => proj w' = proj w) m.

(** A computation that writes to no table: only the trace may grow. *)
Definition Quiet {A : Type} (m : M A) : Prop := Preserves tables m.

(** A row of the conversation table and what a handler may leave in its
    place: the same conversation, its status kept or moved to ENDED or to
    TRANSFERRED. *)
Definition advances (c c' : Conversation) : Prop :=
  conv_id c' = conv_id c
  /\ (conv_status c' = conv_status c
      \/ conv_status c' = ENDED \/ conv_status c' = TRANSFERRED).

Definition lifecycle (w w' : World) : Prop :=
  Forall2 advances (w_conversations w) (w_conversations w').

(** The status of the stored conversation with this id. *)
Definition statusOf (id : jsstring) (w : World) : option ConversationStatus :=
  option_map conv_status
    (find (fun c => JsString.eqb (conv_id c) id) (w_conversations w)).

(** The row that [saveMessages] writes for the user and for the agent. *)
Definition userMessage (env : Env) (context : AgentEngine.AgentContext) : Message :=
  {| msg_conversationId := conv_id (AgentEngine.conversation context);
     msg_role := USER;
     msg_content := AgentEngine.userInput context;
     msg_metadata := AgentEngine.metadata context;
     msg_createdAt := now env |}.

Definition assistantMessage (env : Env) (context : AgentEngine.AgentContext)
           (assistantContent : jsstring) : Message :=
  {| msg_conversationId := conv_id (AgentEngine.conversation context);
     msg_role := ASSISTANT;
     msg_content := assistantContent;
     msg_metadata :=
       JObj [ (lit "model", JStr (agent_model (AgentEngine.agent context)));
              (lit "agentId", JStr (agent_id (AgentEngine.agent context))) ];
     msg_createdAt := now env |}.

(** The row that a transfer writes. *)
Definition transferMessage (env : Env) (req : Conversations.Request) : Message :=
  {| msg_conversationId := Conversations.req_id req;
     msg_role := SYSTEM;
     msg_content := Conversations.transferContent (Conversations.req_reason req);
     msg_metadata :=
       JObj [(lit "transferredBy",
              JStr (user_email (Conversations.req_user req)))];
     msg_createdAt := now env |}.

End Frame.

(** ** Vocabulary of the statements about failures *)

Module Policy.

Import HebrewNLP AgentEngine Frame.

(** The world after the events [evs] were recorded, one after the other. *)
Definition appendTrace (w : World) (evs : list Event) : World :=
  fold_left (fun w' ev => snd (record ev w')) evs w.

Definition failureLog (env : Env) (site : Site) (message : jsstring)
  : list Event :=
  if fails env site then [Logged Err message (Some (Failure site))] else [].

(** The analysis of a text without a Hebrew unit. *)
Definition plainAnalysis (s : jsstring) : HebrewTextAnalysis :=
  {| text := s;
     normalizedText := s;
     tokens := split SPACE s;
     nikud := None;
     entities := [];
     sentiment := {| sent_score := 0; sent_label := neutral;
                     sent_confidence := 0 |};
     language := lit "en";
     isHebrew := false |}.

(** The analysis of a Hebrew text: a failing tokenizer, entity
    recognizer or sentiment step is replaced by its fallback. *)
Definition hebrewAnalysis (env : Env) (s : jsstring) : HebrewTextAnalysis :=
  let normalized := normalizeHebrewText s in
  {| text := s;
     normalizedText := normalized;
     tokens := if fails env Tokenize then split SPACE normalized
               else filter (fun token => (0 <? length token)%nat)
                           (splitWhiteSpaceRuns false normalized);
     nikud := if enableNikud env then Some normalized else None;
     entities := if fails env ExtractEntities then []
                 else entitiesOf normalized;
     sentiment := {| sent_score := 0; sent_label := neutral;
                     sent_confidence :=
                       if fails env AnalyzeSentiment then 0 else 5 # 10 |};
     language := lit "he";
     isHebrew := true |}.

(** What [analyzeText] hands to its caller. *)
Definition analysisOutcome (env : Env) (s : jsstring)
  : Result HebrewTextAnalysis :=
  if fails env DetectLanguage then Throw (Failure DetectLanguage)
  else if negb (isHebrewText s) then Ok (plainAnalysis s)
  else if fails env NormalizeText then Throw (Failure NormalizeText)
  else Ok (hebrewAnalysis env s).

(** What [analyzeText] logs. *)
Definition analysisLog (env : Env) (s : jsstring) : list Event :=
  if fails env DetectLanguage
  then [Logged Err (lit "Hebrew NLP analysis failed:")
               (Some (Failure DetectLanguage))]
  else if negb (isHebrewText s) then []
  else if fails env NormalizeText
  then [Logged Err (lit "Hebrew NLP analysis failed:")
               (Some (Failure NormalizeText))]
  else failureLog env Tokenize (lit "Tokenization failed:")
       ++ failureLog env ExtractEntities (lit "Entity extraction failed:")
       ++ failureLog env AnalyzeSentiment (lit "Sentiment analysis failed:")
       ++ (if enableNikud env
           then failureLog env AddNikud (lit "Nikud addition failed:")
           else []).

(** What [saveMessages] appends to the conversation. *)
Definition persisted (env : Env) (context : AgentContext)
           (assistantContent : jsstring) : list Message :=
  if fails env CreateUserMessage then []
  else if fails env CreateAssistantMessage then [userMessage env context]
  else [userMessage env context;
        assistantMessage env context assistantContent].

(** What [saveMessages] logs. *)
Definition persistenceLog (env : Env) : list Event :=
  if fails env CreateUserMessage
  then [Logged Err (lit "Failed to save messages:")
               (Some (Failure CreateUserMessage))]
  else failureLog env CreateAssistantMessage (lit "Failed to save messages:").

End Policy.

(** ** Sample data: two agents, one conversation, a two-point index *)

Module Samples.

Import Retrieval AgentEngine Conversations.

Definition site_eq_dec (a b : Site) : {a = b} + {a <> b}.
Proof. decide equality. Defined.

(** An index that keeps the points satisfying the filter, in the order
    of the collection, and cuts at the limit. *)
Definition referenceSearch (points : list Point) (request : SearchRequest)
  : list Hit :=
  firstn (sr_limit request)
    (List.map (fun p => {| hit_score := 1; hit_point := p |})
       (filter (fun p => filterHolds (sr_filter request) (pt_payload p)) points)).

(** An environment in which exactly the sites of [failing] throw. *)
Definition sampleEnv (failing : list Site) : Env :=
  {| fails := fun site =>
                existsb (fun s => if site_eq_dec s site then true else false)
                        failing;
     embedQuery := fun _ => [1; 0];
     qdrantSearch := referenceSearch;
     modelReply := fun _ _ => lit "Hello, how can I help?";
     enableNikud := false;
     now := 1000%N;
     toISOString := fun _ => lit "1970-01-01T00:00:01.000Z";
     isUUID := fun s => (length s =? 36)%nat |}.

Definition agentA : Agent :=
  {| agent_id := lit "agent-a";
     agent_name := lit "Support";
     agent_prompt := lit "You are a support agent.";
     agent_model := lit "gpt-4";
     agent_isActive := true;
     agent_organizationId := lit "org-1" |}.

Definition agentB : Agent :=
  {| agent_id := lit "agent-b";
     agent_name := lit "Sales";
     agent_prompt := lit "You are a sales agent.";
     agent_model := lit "gpt-3.5-turbo";
     agent_isActive := true;
     agent_organizationId := lit "org-2" |}.

Definition sampleId : jsstring := lit "11111111-1111-4111-8111-111111111111".

Definition sampleConversation (st : ConversationStatus) : Conversation :=
  {| conv_id := sampleId;
     conv_agentId := lit "agent-a";
     conv_userId := Some (lit "user-1");
     conv_channel := lit "web";
     conv_status := st;
     conv_metadata := JNull;
     conv_startedAt := 0%N;
     conv_endedAt := None |}.

Definition pointA : Point :=
  {| pt_id := lit "doc-a";
     pt_vector := [1; 0];
     pt_payload := {| pl_content := lit "Opening hours are 9 to 17.";
                      pl_metadata := [(lit "agentId", lit "agent-a")] |} |}.

Definition pointB : Point :=
  {| pt_id := lit "doc-b";
     pt_vector := [1; 0];
     pt_payload := {| pl_content := lit "Price list of the sales team.";
                      pl_metadata := [(lit "agentId", lit "agent-b")] |} |}.

(** A world whose only conversation has status [st] and no message yet. *)
Definition sampleWorld (st : ConversationStatus) : World :=
  {| w_agents := [agentA; agentB];
     w_conversations := [sampleConversation st];
     w_messages := [];
     w_userOrganizations :=
       [ {| uo_userId := lit "user-1";
            uo_organizationId := lit "org-1";
            uo_role := lit "MEMBER" |} ];
     w_points := [pointB; pointA];
     w_trace := [] |}.

Definition sampleUser : User :=
  {| user_id := lit "user-1";
     user_email := lit "dana@example.com";
     user_role := lit "USER" |}.

(** The greeting of the end-to-end scenario: shalom, I need help. *)
Definition sampleInput : jsstring :=
  [0x05E9; 0x05DC; 0x05D5; 0x05DD; 0x002C; 0x0020; 0x05D0; 0x05E0; 0x05D9;
   0x0020; 0x05E6; 0x05E8; 0x05D9; 0x05DA; 0x0020; 0x05E2; 0x05D6; 0x05E8;
   0x05D4]%N.

Definition sampleRequest : Request :=
  {| req_user := sampleUser;
     req_id := sampleId;
     req_content := sampleInput;
     req_metadata := None;
     req_reason := None |}.

Definition sampleContext : AgentContext :=
  {| agent := agentA;
     conversation := sampleConversation ACTIVE;
     history := [];
     userInput := sampleInput;
     metadata := JNull |}.

End Samples.


(* ================================================================== *)
(** * Part I, continued: more of the cited services                     *)
(* ================================================================== *)

(** ** services/hebrew-nlp: [summarize] *)

Module HebrewSummary.

(** The body of the [try] block; on a string none of its calls throws. *)
Definition summarize (text : jsstring) (maxLength : nat) : jsstring :=
  let words := split SPACE text in
  if (length words <=? maxLength)%nat then text
  else join [SPACE] (firstn maxLength words) ++ lit "...".

End HebrewSummary.

(** ** routes/conversations: [analyzeConversationSentiment] *)

Module ConversationSentiment.

Import HebrewNLP.

Record SentimentSummary := {
  overall : SentimentLabel;
  score : Q;
  breakdown : list (SentimentResult * N)
}.

(** [Promise.all]: every computation runs, in order; the result is the
    list of their values, or the first error. *)
Fixpoint promiseAll {A : Type} (ms : list (M A)) : M (list A) :=
  match ms with
  | [] => ret []
  | m :: rest =>
      fun w =>
        match m w with
        | (Ok a, w1) =>
            match promiseAll rest w1 with
            | (Ok l, w2) => (Ok (a :: l), w2)
            | (Throw e, w2) => (Throw e, w2)
            end
        | (Throw e, w1) => (Throw e, snd (promiseAll rest w1))
        end
  end.

(** [avgScore > 0.2 ? 'positive' : avgScore < -0.2 ? 'negative' : 'neutral'] *)
Definition labelOf (avgScore : Q) : SentimentLabel :=
  if negb (Qle_bool avgScore (2 # 10)) then positive
  else if negb (Qle_bool (- (2 # 10)) avgScore) then negative
  else neutral.

Section Sentiment.

Variable env : Env.

(** The breakdown keeps the sentiment and the timestamp of each user
    message; rows carry no id in this model. *)
Definition analyzeConversationSentiment (messages : list Message)
  : M SentimentSummary :=
  let userMessages :=
    filter (fun m => match msg_role m with USER => true | _ => false end)
           messages in
  if (length userMessages =? 0)%nat then
    ret {| overall := neutral; score := 0; breakdown := [] |}
  else
    sentiments <-
      promiseAll
        (List.map
           (fun msg =>
              analysis <- analyzeText env (msg_content msg) ;;
              ret (sentiment analysis, msg_createdAt msg))
           userMessages) ;;
    let avgScore :=
      fold_left (fun sum s => sum + sent_score (fst s)) sentiments 0
      / inject_Z (Z.of_nat (length sentiments)) in
    ret {| overall := labelOf avgScore;
           score := avgScore;
           breakdown := sentiments |}.

End Sentiment.

End ConversationSentiment.

(** ** services/vector-store: [addDocuments] *)

Module Ingestion.

(** A langchain [Document]. *)
Record Document := {
  pageContent : jsstring;
  doc_metadata : list (jsstring * jsstring)
}.

(** Writing a key of an object literal, for string-valued objects. *)
Fixpoint setEntry (k v : jsstring) (o : list (jsstring * jsstring))
  : list (jsstring * jsstring) :=
  match o with
  | [] => [(k, v)]
  | (k', v') :: o' =>
      if JsString.eqb k' k then (k, v) :: o' else (k', v') :: setEntry k v o'
  end.

(** [{ ...o, ...entries }] *)
Definition spreadInto (o entries : list (jsstring * jsstring))
  : list (jsstring * jsstring) :=
  fold_left (fun acc kv => setEntry (fst kv) (snd kv) acc) entries o.

(** The object [{ content: doc.pageContent, ...doc.metadata, ...metadata }]
    as a payload: its [content] key and the other keys. *)
Definition payloadOf (doc : Document) (metadata : list (jsstring * jsstring))
  : Payload :=
  let object :=
    spreadInto (spreadInto [(lit "content", pageContent doc)] (doc_metadata doc))
               metadata in
  {| pl_content := match lookup (lit "content") object with
                   | Some c => c
                   | None => pageContent doc
                   end;
     pl_metadata :=
       filter (fun kv => negb (JsString.eqb (fst kv) (lit "content"))) object |}.

(** Qdrant's upsert: a point replaces the stored point of the same id, or
    is added at the end. *)
Fixpoint upsertPoint (p : Point) (points : list Point) : list Point :=
  match points with
  | [] => [p]
  | q :: rest =>
      if JsString.eqb (pt_id q) (pt_id p) then p :: rest
      else q :: upsertPoint p rest
  end.

Definition upsert (batch points : list Point) : list Point :=
  fold_left (fun acc p => upsertPoint p acc) batch points.

(** [`${n}`] for a length. *)
Fixpoint digits (d : Decimal.uint) : jsstring :=
  match d with
  | Decimal.Nil => []
  | Decimal.D0 d => 0x30%N :: digits d
  | Decimal.D1 d => 0x31%N :: digits d
  | Decimal.D2 d => 0x32%N :: digits d
  | Decimal.D3 d => 0x33%N :: digits d
  | Decimal.D4 d => 0x34%N :: digits d
  | Decimal.D5 d => 0x35%N :: digits d
  | Decimal.D6 d => 0x36%N :: digits d
  | Decimal.D7 d => 0x37%N :: digits d
  | Decimal.D8 d => 0x38%N :: digits d
  | Decimal.D9 d => 0x39%N :: digits d
  end.

Definition decimal (n : nat) : jsstring := digits (Nat.to_uint n).

Definition setPoints (w : World) (ps : list Point) : World :=
  {| w_agents := w_agents w;
     w_conversations := w_conversations w;
     w_messages := w_messages w;
     w_userOrganizations := w_userOrganizations w;
     w_points := ps;
     w_trace := w_trace w |}.

Section Store.

Variable env : Env.

(** What [axios.put] rejects with, if it does. *)
Variable putError : option Error.

(** The ids [generateId] draws, by position in the batch. *)
Variable generateId : nat -> jsstring.

(** The loop over [documents]: [points] is the array built so far. *)
Fixpoint buildPoints (documents : list Document)
         (metadata : list (jsstring * jsstring)) (points : list Point)
  : M (list Point) :=
  match documents with
  | [] => ret points
  | doc :: rest =>
      embedding <- at_site env EmbedQuery (ret (embedQuery env (pageContent doc))) ;;
      let id := match lookup (lit "id") (doc_metadata doc) with
                | Some i => if (0 <? length i)%nat then i
                            else generateId (length points)
                | None => generateId (length points)
                end in
      buildPoints rest metadata
        (points ++ [{| pt_id := id;
                       pt_vector := embedding;
                       pt_payload := payloadOf doc metadata |}])
  end.

Definition addDocuments (documents : list Document)
           (metadata : option (list (jsstring * jsstring))) : M unit :=
  tryCatch
    (points <- buildPoints documents
                 (match metadata with Some m => m | None => [] end) [] ;;
     match putError with
     | Some e => throw e
     | None =>
         (fun w => (Ok tt, setPoints w (upsert points (w_points w)))) ;;;
         logInfo (lit "Added " ++ decimal (length documents)
                  ++ lit " documents to vector store")
     end)
    (fun error =>
       logError (lit "Failed to add documents to vector store:") error ;;;
       throw error).

End Store.

End Ingestion.

(** ** workers: [chunkText] and the message-processing worker *)

Module Workers.

Import AgentEngine.

(** [[.!?]] *)
Definition isSentenceEnd (c : char) : bool :=
  ((c =? 0x2E) || (c =? 0x21) || (c =? 0x3F))%N.

(** [s.split(/X+/)] for a character class [X]. *)
Fixpoint splitRuns (p : char -> bool) (inRun : bool) (s : jsstring)
  : list jsstring :=
  match s with
  | [] => [[]]
  | c :: t =>
      if p c
      then if inRun then splitRuns p true t
           else [] :: splitRuns p true t
      else match splitRuns p false t with
           | w :: ws => (c :: w) :: ws
           | [] => [[c]]
           end
  end.

(** The body of the loop of [chunkText] on the pair of [chunks] and
    [currentChunk]. *)
Definition chunkStep (chunkSize : nat) (state : list jsstring * jsstring)
           (sentence : jsstring) : list jsstring * jsstring :=
  let (chunks, currentChunk) := state in
  if (chunkSize <? length currentChunk + length sentence)%nat then
    ((if (0 <? length currentChunk)%nat then chunks ++ [trim currentChunk]
      else chunks),
     sentence)
  else
    (chunks,
     currentChunk
     ++ (if (0 <? length currentChunk)%nat then lit ". " else [])
     ++ sentence).

Definition chunkText (text : jsstring) (chunkSize : nat) : list jsstring :=
  let sentences := splitRuns isSentenceEnd false text in
  let (chunks, currentChunk) :=
    fold_left (chunkStep chunkSize) sentences ([], []) in
  if (0 <? length currentChunk)%nat then chunks ++ [trim currentChunk]
  else chunks.

(** [job.data] of the message-processing queue. *)
Record MessageJob := {
  job_conversationId : jsstring;
  job_messageContent : jsstring;
  job_userId : jsstring
}.

Record MessageJobResult := {
  success : bool;
  responseLength : nat
}.

Section Queues.

Variable env : Env.

(** The processor of [queues.messageProcessing]. *)
Definition messageProcessing (job : MessageJob) : M MessageJobResult :=
  let conversationId := job_conversationId job in
  let messageContent := job_messageContent job in
  logInfo (lit "Processing message for conversation " ++ conversationId) ;;;
  tryCatch
    (found <- Prisma.conversationFindUniqueWithMessages env conversationId 10 ;;
     match found with
     | None => throw (PlainError (lit "Conversation not found"))
     | Some (conv, agt, recent) =>
         response <- processMessage env
                       {| agent := agt;
                          conversation := conv;
                          history := rev recent;
                          userInput := messageContent;
                          metadata :=
                            JObj [(lit "processedByWorker", JBool true)] |} ;;
         logInfo (lit "Message processed for conversation "
                  ++ conversationId) ;;;
         ret {| success := true;
                responseLength := length (content response) |}
     end)
    (fun error =>
       logError (lit "Failed to process message for conversation "
                 ++ conversationId ++ lit ":") error ;;;
       throw error).

End Queues.

End Workers.

(** ** Vocabulary of the further statements *)

Module MoreShape.

Local Open Scope N_scope.

(** The units of a string other than the two direction marks. *)
Definition stripMarks (s : jsstring) : jsstring :=
  filter (fun c => negb ((c =? LRO) || (c =? PDF))) s.

(** [s] begins with [p]. *)
Definition Prefix (p s : jsstring) : Prop := exists rest, s = p ++ rest.

(** [object[key]] on a JSON object. *)
Fixpoint getField (k : jsstring) (o : list (jsstring * Json)) : option Json :=
  match o with
  | [] => None
  | (k', v) :: o' => if JsString.eqb k' k then Some v else getField k o'
  end.

(** The models invoked in a trace, in order. *)
Definition invokedModels (evs : list Event) : list jsstring :=
  flat_map (fun ev => match ev with
                      | Invoked model _ => [model]
                      | _ => []
                      end) evs.

(** From [w] to [w'] the trace has grown, by events that invoke no model. *)
Definition NoInvocation (w w' : World) : Prop :=
  exists new, w_trace w' = w_trace w ++ new /\ invokedModels new = [].

(** The sites of the two creates of [saveMessages] and of the model call
    do not fail, nor do language detection and normalization. *)
Definition turnSucceeds (env : Env) : bool :=
  negb (fails env DetectLanguage) && negb (fails env NormalizeText)
  && negb (fails env ModelInvoke)
  && negb (fails env CreateUserMessage)
  && negb (fails env CreateAssistantMessage).

End MoreShape.

Module EntityShape.

Import HebrewNLP.

Definition entityType_eqb (a b : EntityType) : bool :=
  match a, b with
  | PERSON, PERSON | LOCATION, LOCATION | ORGANIZATION, ORGANIZATION
  | DATE, DATE | NUMBER, NUMBER | OTHER, OTHER => true
  | _, _ => false
  end.

(** The entity [e1] ends where [e2] starts, or earlier. *)
Definition precedes (e1 e2 : Entity) : Prop :=
  (ent_endIndex e1 <= ent_startIndex e2)%nat.

(** [s.substring(from, to)] for [from <= to]. *)
Definition substring (s : jsstring) (from to : nat) : jsstring :=
  firstn (to - from) (skipn from s).

(** The entities that one pattern of [extractEntities] contributes. *)
Definition entitiesWith (matchAt : jsstring -> option nat) (ty : EntityType)
           (s : jsstring) : list Entity :=
  List.map (fun m => {| ent_text := snd m;
                        ent_type := ty;
                        ent_startIndex := fst m;
                        ent_endIndex := fst m + length (snd m);
                        ent_confidence := 8 # 10 |})
           (scanAll matchAt 0 0 s).

End EntityShape.

(** ** More sample data: a member who may only view *)

Module MoreSamples.

Import Samples.


(** A job of the message-processing queue for the sample conversation. *)
Definition sampleJob : Workers.MessageJob :=
  {| Workers.job_conversationId := sampleId;
     Workers.job_messageContent := sampleInput;
     Workers.job_userId := lit "user-1" |}.

(** A conversation of three rows, the last two a user turn and its
    reply, with increasing timestamps. *)
Definition sampleRows : list Message :=
  [ {| msg_conversationId := sampleId; msg_role := SYSTEM;
       msg_content := lit "Conversation opened"; msg_metadata := JNull;
       msg_createdAt := 10%N |};
    {| msg_conversationId := sampleId; msg_role := USER;
       msg_content := lit "What are your opening hours?"; msg_metadata := JNull;
       msg_createdAt := 20%N |};
    {| msg_conversationId := sampleId; msg_role := ASSISTANT;
       msg_content := lit "We are open 9 to 17."; msg_metadata := JNull;
       msg_createdAt := 50%N |} ].

End MoreSamples.

(** ** Vocabulary of the statements about the routes *)

Module RouteShape.

Import AgentEngine Conversations.

(** The context that [POST /:id/messages] hands to the engine. *)
Definition turnContext (agt : Agent) (conv : Conversation) (w : World)
           (req : Request) : AgentContext :=
  {| agent := agt;
     conversation := conv;
     history := rev (firstn 20
                       (Prisma.orderByCreatedAtDesc
                          (Prisma.messagesOf (req_id req) (w_messages w))));
     userInput := req_content req;
     metadata := match req_metadata req with
                 | Some j => j
                 | None => JNull
                 end |}.

(** The context that the message-processing worker hands to the engine. *)
Definition jobContext (agt : Agent) (conv : Conversation) (w : World)
           (job : Workers.MessageJob) : AgentContext :=
  {| agent := agt;
     conversation := conv;
     history := rev (firstn 10
                       (Prisma.orderByCreatedAtDesc
                          (Prisma.messagesOf (Workers.job_conversationId job)
                                             (w_messages w))));
     userInput := Workers.job_messageContent job;
     metadata := JObj [(lit "processedByWorker", JBool true)] |}.

(** The request passes the validators of [POST /:id/messages]. *)
Definition validMessageRequest (env : Env) (req : Request) : bool :=
  isUUID env (req_id req)
  && (0 <? length (req_content req))%nat
  && isObject (req_metadata req).

(** The row is stored under this id, with its agent. *)
Definition stored (w : World) (id : jsstring) (conv : Conversation)
           (agt : Agent) : Prop :=
  find (fun c => JsString.eqb (conv_id c) id) (w_conversations w) = Some conv
  /\ find (fun a => JsString.eqb (agent_id a) (conv_agentId conv)) (w_agents w)
     = Some agt.

(** The user may update conversations of the agent's organization. *)
Definition mayUpdate (env : Env) (req : Request) (agt : Agent) (w : World)
  : Prop :=
  fst (Permissions.checkPermission env (req_user req) Permissions.update
         Permissions.conversation_ (agent_organizationId agt) w) = Ok true.

End RouteShape.

(* ================================================================== *)
(** * Part II: properties                                               *)
(* ================================================================== *)

(** ** The string built-ins *)

Module JsStringFacts.

Local Open Scope N_scope.

Lemma eqb_eq (s t : jsstring) : JsString.eqb s t = true <-> s = t.
Proof.
  revert t; induction s as [|a s IH]; intros [|b t]; simpl; split;
    try congruence; try reflexivity.
  - intros H. apply andb_true_iff in H as [Hab Hst].
    apply N.eqb_eq in Hab. apply IH in Hst. congruence.
  - intros H. injection H as -> ->. apply andb_true_iff; split.
    + apply N.eqb_refl.
    + now apply IH.
Qed.

Lemma eqb_refl (s : jsstring) : JsString.eqb s s = true.
Proof. now apply eqb_eq. Qed.

Lemma eqb_neq (s t : jsstring) : JsString.eqb s t = false <-> s <> t.
Proof.
  split.
  - intros H E. apply eqb_eq in E. congruence.
  - intros H. destruct (JsString.eqb s t) eqn:E; [|reflexivity].
    apply eqb_eq in E. contradiction.
Qed.

Lemma split_not_nil (sep : char) (s : jsstring) : split sep s <> [].
Proof.
  destruct s as [|c t]; simpl; [discriminate|].
  destruct (c =? sep); [discriminate|].
  destruct (split sep t); discriminate.
Qed.

Lemma join_cons (sep w : jsstring) (ws : list jsstring) :
  ws <> [] -> join sep (w :: ws) = w ++ sep ++ join sep ws.
Proof. destruct ws; [congruence | reflexivity]. Qed.

Lemma join_split (sep : char) (s : jsstring) : join [sep] (split sep s) = s.
Proof.
  induction s as [|c t IH]; [reflexivity|].
  simpl split. destruct (c =? sep) eqn:E.
  - apply N.eqb_eq in E; subst c.
    rewrite join_cons by apply split_not_nil.
    simpl. now rewrite IH.
  - pose proof (split_not_nil sep t) as Hne.
    destruct (split sep t) as [|w ws]; [congruence|].
    destruct ws as [|w' ws'].
    + simpl in *. now rewrite IH.
    + rewrite join_cons by discriminate.
      rewrite join_cons in IH by discriminate.
      rewrite <- IH. reflexivity.
Qed.

Lemma split_spaceFree (s : jsstring) :
  Forall (fun w => Shape.spaceFree w = true) (split SPACE s).
Proof.
  induction s as [|c t IH]; simpl.
  - constructor; [reflexivity | constructor].
  - destruct (c =? SPACE) eqn:E.
    + constructor; [reflexivity | exact IH].
    + destruct (split SPACE t) as [|w ws].
      * constructor; [simpl; rewrite E; reflexivity | constructor].
      * inversion IH; subst.
        constructor; [simpl; rewrite E; assumption | assumption].
Qed.

Lemma split_app_spaceFree (w rest : jsstring) :
  Shape.spaceFree w = true ->
  split SPACE (w ++ [SPACE] ++ rest) = w :: split SPACE rest.
Proof.
  induction w as [|c w IH]; intros H.
  - reflexivity.
  - simpl in H. apply andb_true_iff in H as [Hc Hw].
    apply negb_true_iff in Hc.
    change ((c :: w) ++ [SPACE] ++ rest) with (c :: (w ++ [SPACE] ++ rest)).
    cbn [split]. rewrite Hc, (IH Hw). reflexivity.
Qed.

Lemma split_spaceFree_word (w : jsstring) :
  Shape.spaceFree w = true -> split SPACE w = [w].
Proof.
  induction w as [|c w IH]; simpl; intros H; [reflexivity|].
  apply andb_true_iff in H as [Hc Hw].
  apply negb_true_iff in Hc. rewrite Hc, (IH Hw). reflexivity.
Qed.

Lemma split_join (ws : list jsstring) :
  ws <> [] ->
  Forall (fun w => Shape.spaceFree w = true) ws ->
  split SPACE (join [SPACE] ws) = ws.
Proof.
  induction ws as [|w ws IH]; [congruence|].
  intros _ H. inversion H as [|? ? Hw Hws]; subst.
  destruct ws as [|w' ws'].
  - simpl. now apply split_spaceFree_word.
  - rewrite join_cons by discriminate.
    rewrite split_app_spaceFree by assumption.
    rewrite IH; [reflexivity | discriminate | assumption].
Qed.

Lemma Forall2_join {R : char -> char -> Prop} (ws ws' : list jsstring) :
  R SPACE SPACE ->
  Forall2 (Forall2 R) ws ws' ->
  Forall2 R (join [SPACE] ws) (join [SPACE] ws').
Proof.
  intros Hsp H. induction H as [|w w' ws ws' Hw Hws IH]; [constructor|].
  destruct Hws as [|v v' vs vs' Hv Hvs].
  - exact Hw.
  - rewrite !join_cons by discriminate.
    apply Forall2_app; [exact Hw|].
    simpl. constructor; [exact Hsp | exact IH].
Qed.

Lemma Forall2_map_r {A : Type} (R : A -> A -> Prop) (f : A -> A) (l : list A) :
  (forall a, R a (f a)) -> Forall2 R l (List.map f l).
Proof. intros H. induction l; simpl; constructor; auto. Qed.

End JsStringFacts.

(** ** The Hebrew normalizer *)

Module NormalizerFacts.

Import Shape JsStringFacts.
Local Open Scope N_scope.

(** *** Final-letter correction of one word *)

Lemma finalLetterMap_Some (a f : char) :
  finalLetterMap a = Some f ->
  finalLetterMap f = None /\ isWhiteSpace a = false /\ isWhiteSpace f = false
  /\ plain f = true /\ (f =? SPACE) = false.
Proof.
  unfold finalLetterMap.
  repeat match goal with
         | |- context [if ?x =? ?k then _ else _] =>
             let E := fresh "E" in
             destruct (x =? k) eqn:E;
             [apply N.eqb_eq in E; subst x; intros [= <-]; vm_compute; tauto|]
         end.
  discriminate.
Qed.

Lemma length_ge_2_snoc (w : jsstring) :
  (1 < length w)%nat -> exists pre a b, w = pre ++ [a; b].
Proof.
  intros H.
  destruct (exists_last (l := w)) as [w1 [b ->]].
  { destruct w; [simpl in H; lia | discriminate]. }
  rewrite length_app in H; simpl in H.
  destruct (exists_last (l := w1)) as [pre [a ->]].
  { destruct w1; [simpl in H; lia | discriminate]. }
  exists pre, a, b. now rewrite <- app_assoc.
Qed.

Lemma fixWord_short (w : jsstring) : (length w <= 1)%nat -> fixWord w = w.
Proof.
  intros H. unfold fixWord.
  destruct (1 <? length w)%nat eqn:E; [|reflexivity].
  apply Nat.ltb_lt in E. lia.
Qed.

Lemma fixWord_snoc2 (pre : jsstring) (a b : char) :
  fixWord (pre ++ [a; b]) =
  match finalLetterMap a with
  | Some final => if negb (isHebrewChar b) then pre ++ [final; b]
                  else pre ++ [a; b]
  | None => pre ++ [a; b]
  end.
Proof.
  unfold fixWord, sliceButLast.
  rewrite length_app. simpl length.
  replace (1 <? length pre + 2)%nat with true
    by (symmetry; apply Nat.ltb_lt; lia).
  replace (length pre + 2 - 1)%nat with (length pre + 1)%nat by lia.
  replace (length pre + 2 - 2)%nat with (length pre + 0)%nat by lia.
  rewrite !nth_error_app2 by lia.
  replace (length pre + 1 - length pre)%nat with 1%nat by lia.
  replace (length pre + 0 - length pre)%nat with 0%nat by lia.
  simpl nth_error.
  rewrite Nat.add_0_r, firstn_app, firstn_all, Nat.sub_diag.
  simpl. now rewrite app_nil_r.
Qed.

Lemma fixWord_idempotent (w : jsstring) : fixWord (fixWord w) = fixWord w.
Proof.
  destruct (Nat.le_gt_cases (length w) 1) as [Hs | Hl].
  - rewrite (fixWord_short w Hs). now apply fixWord_short.
  - destruct (length_ge_2_snoc w Hl) as (pre & a & b & ->).
    rewrite fixWord_snoc2.
    destruct (finalLetterMap a) as [f|] eqn:Ea.
    + destruct (negb (isHebrewChar b)) eqn:Eb.
      * rewrite fixWord_snoc2.
        destruct (finalLetterMap_Some a Ea) as (-> & _). reflexivity.
      * rewrite fixWord_snoc2, Ea, Eb. reflexivity.
    + rewrite fixWord_snoc2, Ea. reflexivity.
Qed.

Lemma Forall2_finalized_refl (w : jsstring) : Forall2 finalized w w.
Proof. induction w; constructor; [now left | assumption]. Qed.

Lemma fixWord_finalized (w : jsstring) : Forall2 finalized w (fixWord w).
Proof.
  destruct (Nat.le_gt_cases (length w) 1) as [Hs | Hl].
  - rewrite fixWord_short by assumption. apply Forall2_finalized_refl.
  - destruct (length_ge_2_snoc w Hl) as (pre & a & b & ->).
    rewrite fixWord_snoc2.
    destruct (finalLetterMap a) as [f|] eqn:Ea;
      [destruct (negb (isHebrewChar b))|]; try apply Forall2_finalized_refl.
    apply Forall2_app; [apply Forall2_finalized_refl|].
    constructor; [now right|]. apply Forall2_finalized_refl.
Qed.

Lemma fixFinalLetters_finalized (s : jsstring) :
  Forall2 finalized s (fixFinalLetters s).
Proof.
  unfold fixFinalLetters.
  rewrite <- (join_split SPACE s) at 1.
  apply Forall2_join; [now left|].
  apply Forall2_map_r. apply fixWord_finalized.
Qed.

Lemma finalized_spaceFree (w w' : jsstring) :
  Forall2 finalized w w' -> spaceFree w = true -> spaceFree w' = true.
Proof.
  induction 1 as [|a b w w' Hab _ IH]; [trivial|].
  simpl. intros H. apply andb_true_iff in H as [Ha Hw].
  rewrite (IH Hw), andb_true_r.
  destruct Hab as [<- | Hf]; [assumption|].
  destruct (finalLetterMap_Some a Hf) as (_ & _ & _ & _ & ->). reflexivity.
Qed.

Lemma finalized_plain (s s' : jsstring) :
  Forall2 finalized s s' -> forallb plain s = true -> forallb plain s' = true.
Proof.
  induction 1 as [|a b w w' Hab _ IH]; [trivial|].
  simpl. intros H. apply andb_true_iff in H as [Ha Hw].
  rewrite (IH Hw), andb_true_r.
  destruct Hab as [<- | Hf]; [assumption|].
  now destruct (finalLetterMap_Some a Hf) as (_ & _ & _ & -> & _).
Qed.

Lemma finalized_tidyFrom (s s' : jsstring) :
  Forall2 finalized s s' -> forall b, tidyFrom b s' = tidyFrom b s.
Proof.
  induction 1 as [|a c w w' Hac _ IH]; intros b; [reflexivity|].
  simpl. destruct Hac as [<- | Hf].
  - now rewrite !IH.
  - destruct (finalLetterMap_Some a Hf) as (_ & -> & -> & _). apply IH.
Qed.

Lemma fixFinalLetters_idempotent (s : jsstring) :
  fixFinalLetters (fixFinalLetters s) = fixFinalLetters s.
Proof.
  unfold fixFinalLetters.
  rewrite split_join.
  - rewrite map_map. f_equal. apply map_ext. apply fixWord_idempotent.
  - pose proof (split_not_nil SPACE s).
    destruct (split SPACE s); [congruence | discriminate].
  - apply Forall_forall. intros w' Hin.
    apply in_map_iff in Hin as (w & <- & Hin).
    apply finalized_spaceFree with (w := w); [apply fixWord_finalized|].
    pose proof (split_spaceFree s) as Hall.
    rewrite Forall_forall in Hall. now apply Hall.
Qed.

(** *** White space *)

Lemma trimStart_in_run (s : jsstring) :
  trimStart (replaceWhiteSpaceRuns true s) = replaceWhiteSpaceRuns true s.
Proof.
  induction s as [|c t IH]; [reflexivity|].
  simpl. destruct (isWhiteSpace c) eqn:E; [exact IH|].
  simpl. now rewrite E.
Qed.

Lemma trimStart_replaceWhiteSpaceRuns (s : jsstring) :
  trimStart (replaceWhiteSpaceRuns false s) = replaceWhiteSpaceRuns true s.
Proof.
  destruct s as [|c t]; [reflexivity|].
  simpl. destruct (isWhiteSpace c) eqn:E.
  - simpl. apply trimStart_in_run.
  - simpl. now rewrite E.
Qed.

Lemma trimEnd_replaceWhiteSpaceRuns_tidy (s : jsstring) (b : bool) :
  trimEnd (replaceWhiteSpaceRuns b s) = []
  \/ tidyFrom b (trimEnd (replaceWhiteSpaceRuns b s)) = true.
Proof.
  revert b. induction s as [|c t IH]; intros b; [now left|].
  simpl replaceWhiteSpaceRuns. destruct (isWhiteSpace c) eqn:E.
  - destruct b; [apply IH|].
    simpl trimEnd.
    destruct (IH true) as [-> | Ht]; [now left|].
    destruct (trimEnd (replaceWhiteSpaceRuns true t)) as [|d u] eqn:Eu;
      [now left|].
    right. change (tidyFrom false (SPACE :: d :: u))
      with (tidyFrom true (d :: u)). exact Ht.
  - simpl trimEnd.
    destruct (trimEnd (replaceWhiteSpaceRuns false t)) as [|d u] eqn:Eu.
    + right. rewrite E. simpl. now rewrite E.
    + right. destruct (IH false) as [Hnil | Ht]; [rewrite Eu in Hnil; discriminate|].
      rewrite Eu in Ht. cbn [tidyFrom]. now rewrite E.
Qed.

Lemma normalized_white_space_tidy (s : jsstring) :
  tidy (trim (replaceWhiteSpaceRuns false s)) = true.
Proof.
  unfold trim. rewrite trimStart_replaceWhiteSpaceRuns.
  destruct (trimEnd_replaceWhiteSpaceRuns_tidy s true) as [-> | H];
    [reflexivity|].
  destruct (trimEnd (replaceWhiteSpaceRuns true s)); [reflexivity | exact H].
Qed.

Lemma replaceWhiteSpaceRuns_tidyFrom (s : jsstring) (b : bool) :
  tidyFrom b s = true -> replaceWhiteSpaceRuns b s = s.
Proof.
  revert b. induction s as [|c t IH]; intros b H; [reflexivity|].
  simpl in *. destruct (isWhiteSpace c) eqn:E.
  - apply andb_true_iff in H as [H Ht]. apply andb_true_iff in H as [Hb Hc].
    apply negb_true_iff in Hb. subst b.
    apply N.eqb_eq in Hc. subst c. now rewrite (IH true Ht).
  - now rewrite (IH false H).
Qed.

Lemma tidyFrom_true_head (c : char) (t : jsstring) :
  tidyFrom true (c :: t) = true ->
  isWhiteSpace c = false /\ tidyFrom false t = true.
Proof.
  simpl. destruct (isWhiteSpace c); [discriminate | auto].
Qed.

Lemma replaceWhiteSpaceRuns_tidy (s : jsstring) :
  tidy s = true -> replaceWhiteSpaceRuns false s = s.
Proof.
  destruct s as [|c t]; [reflexivity|].
  intros H. apply tidyFrom_true_head in H as [Hc Ht].
  simpl. rewrite Hc. now rewrite (replaceWhiteSpaceRuns_tidyFrom t false Ht).
Qed.

Lemma trimEnd_tidyFrom (s : jsstring) (b : bool) :
  tidyFrom b s = true -> trimEnd s = s.
Proof.
  revert b. induction s as [|c t IH]; intros b H; [reflexivity|].
  simpl in *. destruct (isWhiteSpace c) eqn:E.
  - apply andb_true_iff in H as [_ Ht].
    rewrite (IH true Ht). destruct t; [discriminate | reflexivity].
  - rewrite (IH false H). destruct t; reflexivity.
Qed.

Lemma trim_tidy (s : jsstring) : tidy s = true -> trim s = s.
Proof.
  destruct s as [|c t]; [reflexivity|].
  intros H. unfold trim.
  destruct (tidyFrom_true_head c t H) as [Hc _].
  replace (trimStart (c :: t)) with (c :: t) by (simpl; now rewrite Hc).
  exact (trimEnd_tidyFrom (c :: t) true H).
Qed.

Lemma finalized_tidy (s s' : jsstring) :
  Forall2 finalized s s' -> tidy s' = tidy s.
Proof.
  intros H. destruct H as [|a b w w' Hab Hw]; [reflexivity|].
  unfold tidy. apply finalized_tidyFrom. now constructor.
Qed.

(** *** Punctuation *)

Lemma replaceChar_tidyFrom (x y : char) (s : jsstring) :
  isWhiteSpace x = false -> isWhiteSpace y = false ->
  forall b, tidyFrom b (replaceChar x y s) = tidyFrom b s.
Proof.
  intros Hx Hy. induction s as [|c t IH]; intros b; [reflexivity|].
  simpl. destruct (c =? x) eqn:E.
  - apply N.eqb_eq in E. subst c. rewrite Hx, Hy. apply IH.
  - now rewrite !IH.
Qed.

Lemma replaceChar_tidy (x y : char) (s : jsstring) :
  isWhiteSpace x = false -> isWhiteSpace y = false ->
  tidy (replaceChar x y s) = tidy s.
Proof.
  intros Hx Hy. destruct s as [|c t]; [reflexivity|].
  now apply replaceChar_tidyFrom.
Qed.

Lemma replaceHebrewPunctuation_tidy (s : jsstring) :
  tidy (replaceHebrewPunctuation s) = tidy s.
Proof.
  unfold replaceHebrewPunctuation.
  now rewrite !replaceChar_tidy by reflexivity.
Qed.

Lemma replaceHebrewPunctuation_plain (s : jsstring) :
  forallb plain (replaceHebrewPunctuation s) = true.
Proof.
  unfold replaceHebrewPunctuation, replaceChar.
  rewrite !map_map. induction s as [|c t IH]; [reflexivity|].
  simpl. rewrite IH, andb_true_r. unfold plain.
  destruct (c =? GERSHAYIM) eqn:E1; [reflexivity|].
  destruct (c =? GERESH) eqn:E2; [reflexivity|].
  destruct (c =? MAQAF) eqn:E3; [reflexivity|].
  now rewrite E1, E2, E3.
Qed.

Lemma replaceHebrewPunctuation_of_plain (s : jsstring) :
  forallb plain s = true -> replaceHebrewPunctuation s = s.
Proof.
  unfold replaceHebrewPunctuation, replaceChar.
  rewrite !map_map. induction s as [|c t IH]; [reflexivity|].
  simpl. intros H. apply andb_true_iff in H as [Hc Ht].
  rewrite (IH Ht). f_equal.
  unfold plain in Hc.
  apply andb_true_iff in Hc as [Hc H3]. apply andb_true_iff in Hc as [H1 H2].
  apply negb_true_iff in H1, H2, H3. now rewrite H1, H2, H3.
Qed.

(** *** The normalizer reaches a fixed point in one step *)

Lemma normalizeHebrewText_fixed (s : jsstring) :
  tidy s = true -> forallb plain s = true -> fixFinalLetters s = s ->
  normalizeHebrewText s = s.
Proof.
  intros Ht Hp Hf. unfold normalizeHebrewText.
  rewrite (replaceWhiteSpaceRuns_tidy s Ht), (trim_tidy s Ht).
  now rewrite (replaceHebrewPunctuation_of_plain s Hp).
Qed.

End NormalizerFacts.

Module NormalizerTheorems.

Import Shape JsStringFacts NormalizerFacts.
Local Open Scope N_scope.

Lemma normalizeHebrewText_normal_form (x : jsstring) :
  tidy (normalizeHebrewText x) = true
  /\ forallb plain (normalizeHebrewText x) = true
  /\ fixFinalLetters (normalizeHebrewText x) = normalizeHebrewText x.
Proof.
  unfold normalizeHebrewText. split; [|split].
  - rewrite (finalized_tidy (fixFinalLetters_finalized _)).
    rewrite replaceHebrewPunctuation_tidy.
    apply normalized_white_space_tidy.
  - apply finalized_plain with (1 := fixFinalLetters_finalized _).
    apply replaceHebrewPunctuation_plain.
  - apply fixFinalLetters_idempotent.
Qed.

(** C7. Hebrew normalization is idempotent: for every string [x],
    normalizing the normalized text gives it back unchanged.  White-space
    collapse and trim, punctuation replacement and final-letter correction
    together reach a fixed point in one pass.  The same holds of the
    normalized text that the analyzer reports, which is the input itself
    when it has no Hebrew unit. *)
Theorem normalizeHebrewText_idempotent (x : jsstring) :
  normalizeHebrewText (normalizeHebrewText x) = normalizeHebrewText x
  /\ (let Normalize s := if isHebrewText s then normalizeHebrewText s else s in
      Normalize (Normalize x) = Normalize x).
Proof.
  assert (Hfix : normalizeHebrewText (normalizeHebrewText x)
                 = normalizeHebrewText x).
  { destruct (normalizeHebrewText_normal_form x) as (Ht & Hp & Hf).
    now apply normalizeHebrewText_fixed. }
  split; [exact Hfix|].
  cbv beta zeta. destruct (isHebrewText x) eqn:Hx.
  - destruct (isHebrewText (normalizeHebrewText x)); [exact Hfix | reflexivity].
  - now rewrite Hx.
Qed.

(** Final-letter correction leaves alone every word that ends in a unit
    of the Hebrew block, a final-form letter in particular. *)
Lemma fixWord_hebrew_ending (pre : jsstring) (c : char) :
  isHebrewChar c = true -> fixWord (pre ++ [c]) = pre ++ [c].
Proof.
  intros Hc.
  destruct pre as [|a pre'] using rev_ind; [reflexivity|].
  rewrite <- app_assoc. simpl app. rewrite fixWord_snoc2, Hc. simpl.
  now destruct (finalLetterMap a).
Qed.

(** C6. The test vector of the documentation on the code: the word
    mem-yod-mem, which ends in a medial mem, comes back unchanged and is
    not turned into mem-yod-final mem.  The correction looks at the unit
    before the last one, so a word that ends in the medial letter itself
    is never repaired. *)
Theorem fixFinalLetters_medial_mem_not_repaired :
  fixFinalLetters [0x05DE; 0x05D9; 0x05DE] = [0x05DE; 0x05D9; 0x05DE]
  /\ fixFinalLetters [0x05DE; 0x05D9; 0x05DE] <> [0x05DE; 0x05D9; 0x05DD]
  /\ normalizeHebrewText [0x05DE; 0x05D9; 0x05DE] = [0x05DE; 0x05D9; 0x05DE].
Proof.
  repeat split; try reflexivity.
  vm_compute. discriminate.
Qed.

End NormalizerTheorems.

(** ** Prompt assembly *)

Module PromptTheorems.

Import HebrewNLP AgentEngine PromptShape.
Local Open Scope nat_scope.

Lemma Subsequence_refl {A : Type} (l : list A) : Subsequence l l.
Proof. induction l; constructor; assumption. Qed.

Lemma Subsequence_filter {A : Type} (p : A -> bool) (l : list A) :
  Subsequence (filter p l) l.
Proof.
  induction l as [|a l IH]; simpl; [constructor|].
  destruct (p a); constructor; assumption.
Qed.

Lemma Subsequence_filter_skipn {A : Type} (p : A -> bool) (n : nat) (l : list A) :
  Subsequence (filter p (skipn n l)) l.
Proof.
  revert n. induction l as [|a l IH]; intros [|n].
  - constructor.
  - constructor.
  - apply Subsequence_filter.
  - simpl. constructor. apply IH.
Qed.

Lemma fold_pushHistory (l : list Message) (acc : list LLMMessage) :
  fold_left pushHistory l acc
  = acc ++ List.map asLLMMessage (filter replayed l).
Proof.
  revert acc. induction l as [|m l IH]; intros acc; simpl.
  - now rewrite app_nil_r.
  - rewrite IH. unfold pushHistory, replayed, asLLMMessage.
    destruct (msg_role m) eqn:E; simpl; rewrite ?E, <- ?app_assoc; reflexivity.
Qed.

Lemma length_sliceLast {A : Type} (n : nat) (l : list A) :
  length (sliceLast n l) <= n.
Proof. unfold sliceLast. rewrite length_skipn. lia. Qed.

Lemma filter_length_le {A : Type} (p : A -> bool) (l : list A) :
  length (filter p l) <= length l.
Proof.
  induction l as [|a l IH]; simpl; [lia|]. destruct (p a); simpl; lia.
Qed.

Lemma replayed_never_system (l : list Message) :
  forallb (fun m => negb (isSystemMessage m))
          (List.map asLLMMessage (filter replayed l)) = true.
Proof.
  induction l as [|m l IH]; simpl; [reflexivity|].
  unfold replayed at 1. destruct (msg_role m) eqn:E; simpl; try exact IH;
    unfold asLLMMessage; rewrite E; simpl; exact IH.
Qed.

(** C5. For every agent, analysis, context chunks, history and input,
    [buildMessages] yields one SYSTEM message first, then the replay of at
    most ten history entries, then one USER message carrying the raw
    input.  The replayed entries are the USER and ASSISTANT entries among
    the last ten of the history, in the order of the history (oldest
    first); entries of role SYSTEM are not replayed, and the SYSTEM
    message at the head is the only one of the list. *)
Theorem buildMessages_shape (context : AgentContext)
        (textAnalysis : HebrewTextAnalysis) (relevantDocs : list jsstring) :
  exists (systemPrompt : jsstring) (entries : list Message),
    buildMessages context textAnalysis relevantDocs
    = SystemMessage systemPrompt
        :: List.map asLLMMessage entries
        ++ [HumanMessage (userInput context)]
    /\ entries = filter replayed (sliceLast 10 (history context))
    /\ length entries <= 10
    /\ Subsequence entries (history context)
    /\ Forall (fun m => msg_role m <> SYSTEM) entries
    /\ length (filter isSystemMessage
                 (buildMessages context textAnalysis relevantDocs)) = 1.
Proof.
  unfold buildMessages. rewrite fold_pushHistory.
  eexists. exists (filter replayed (sliceLast 10 (history context))).
  split; [simpl; reflexivity|].
  split; [reflexivity|].
  split.
  { etransitivity; [apply filter_length_le | apply length_sliceLast]. }
  split; [apply Subsequence_filter_skipn|].
  split.
  { apply Forall_forall. intros m Hin. apply filter_In in Hin as [_ Hm].
    unfold replayed in Hm. intros E. rewrite E in Hm. discriminate. }
  simpl. rewrite !filter_app. simpl. rewrite !length_app. simpl.
  pose proof (replayed_never_system (sliceLast 10 (history context))) as H.
  assert (Hnone : forall l, forallb (fun m => negb (isSystemMessage m)) l = true ->
                            filter isSystemMessage l = []).
  { induction l as [|m l IH]; simpl; [reflexivity|].
    intros Hl. apply andb_true_iff in Hl as [Hm Hl].
    apply negb_true_iff in Hm. rewrite Hm. now apply IH. }
  rewrite (Hnone _ H). reflexivity.
Qed.

End PromptTheorems.

(** ** Retrieval *)

Module RetrievalTheorems.

Import VectorStore AgentEngine Retrieval Frame JsStringFacts.
Local Open Scope nat_scope.

Lemma buildQdrantFilter_agentId (agentId : jsstring) :
  buildQdrantFilter [(lit "agentId", Scalar agentId)] = agentScope agentId.
Proof. reflexivity. Qed.

Lemma agentScope_ownedBy (agentId : jsstring) (p : Point) :
  filterHolds (Some (agentScope agentId)) (pt_payload p) = true ->
  ownedBy agentId p.
Proof.
  unfold filterHolds, agentScope, conditionHolds, ownedBy. simpl.
  destruct (payloadField (pt_payload p) (lit "agentId")) as [v|];
    [|discriminate].
  rewrite andb_true_r. intros H. apply eqb_eq in H. now subst.
Qed.

Lemma ownedBy_functional (a b : jsstring) (p : Point) :
  ownedBy a p -> ownedBy b p -> a = b.
Proof. unfold ownedBy. congruence. Qed.

(** C4. Retrieval is agent-scoped.  Every search request that
    [getRelevantContext] sends for agent [agentId] carries the filter
    [must: agentId = agentId]; the call never fails; and when the index
    answers the request within its filter, the chunks returned are the
    contents of points of the collection that are all indexed for
    [agentId], so none of them comes from a point of another agent. *)
Theorem getRelevantContext_agent_scoped
        (env : Env) (agentId query : jsstring) (limit : nat) (w : World) :
  honoursFilter env (w_points w) (agentRequest env agentId query limit) ->
  exists (sources : list Point) (w' : World),
    getRelevantContext env agentId query limit w
    = (Ok (List.map (fun p => pl_content (pt_payload p)) sources), w')
    /\ Forall (fun p => In p (w_points w) /\ ownedBy agentId p) sources
    /\ (forall other, other <> agentId ->
                      Forall (fun p => ~ ownedBy other p) sources)
    /\ (forall request,
           In (Searched request) (w_trace w') ->
           In (Searched request) (w_trace w)
           \/ request = agentRequest env agentId query limit)
    /\ tables w' = tables w.
Proof.
  intros Hidx.
  unfold getRelevantContext, similaritySearch, tryCatch, bind, at_site,
    logError, record, get, ret, throw.
  rewrite buildQdrantFilter_agentId.
  fold (agentRequest env agentId query limit).
  destruct (fails env EmbedQuery) eqn:Eembed.
  - exists []. eexists. simpl. split; [reflexivity|].
    split; [constructor|]. split; [intros; constructor|].
    split; [|reflexivity].
    simpl. intros request Hin. left.
    apply in_app_or in Hin as [Hin | [Hin | []]]; [|discriminate].
    apply in_app_or in Hin as [Hin | [Hin | []]]; [assumption | discriminate].
  - simpl. destruct (fails env QdrantSearch) eqn:Esearch.
    + exists []. eexists. simpl. split; [reflexivity|].
      split; [constructor|]. split; [intros; constructor|].
      split; [|reflexivity].
      simpl. intros request Hin.
      apply in_app_or in Hin as [Hin | [Hin | []]]; [|discriminate].
      apply in_app_or in Hin as [Hin | [Hin | []]]; [|discriminate].
      apply in_app_or in Hin as [Hin | [Hin | []]]; [now left|].
      right. now injection Hin as <-.
    + exists (List.map hit_point
                (qdrantSearch env (w_points w)
                   (agentRequest env agentId query limit))).
      eexists. simpl. rewrite !map_map. simpl.
      split; [reflexivity|].
      assert (Hsrc : Forall (fun p => In p (w_points w) /\ ownedBy agentId p)
                       (List.map hit_point
                          (qdrantSearch env (w_points w)
                             (agentRequest env agentId query limit)))).
      { unfold honoursFilter in Hidx. rewrite Forall_forall in *.
        intros p Hin. apply in_map_iff in Hin as (hit & <- & Hin).
        destruct (Hidx hit Hin) as [Hp Hf]. split; [exact Hp|].
        now apply agentScope_ownedBy. }
      split; [exact Hsrc|].
      split.
      { intros other Hother. rewrite Forall_forall in *.
        intros p Hin Hown. destruct (Hsrc p Hin) as [_ Hmine].
        apply Hother. exact (ownedBy_functional Hown Hmine). }
      split; [|reflexivity].
      intros request Hin.
      apply in_app_or in Hin as [Hin | [Hin | []]]; [now left|].
      right. now injection Hin as <-.
Qed.

Lemma getRelevantContext_agent_scoped_witness :
  honoursFilter (Samples.sampleEnv []) (w_points (Samples.sampleWorld ACTIVE))
    (agentRequest (Samples.sampleEnv []) (lit "agent-a") (lit "opening hours") 5)
  /\ exists (sources : list Point) (w' : World),
      getRelevantContext (Samples.sampleEnv []) (lit "agent-a")
        (lit "opening hours") 5 (Samples.sampleWorld ACTIVE)
      = (Ok (List.map (fun p => pl_content (pt_payload p)) sources), w')
      /\ Forall (fun p => In p (w_points (Samples.sampleWorld ACTIVE))
                          /\ ownedBy (lit "agent-a") p) sources
      /\ (forall other, other <> lit "agent-a" ->
                        Forall (fun p => ~ ownedBy other p) sources)
      /\ (forall request,
             In (Searched request) (w_trace w') ->
             In (Searched request) (w_trace (Samples.sampleWorld ACTIVE))
             \/ request = agentRequest (Samples.sampleEnv []) (lit "agent-a")
                            (lit "opening hours") 5)
      /\ tables w' = tables (Samples.sampleWorld ACTIVE).
Proof.
  assert (H : honoursFilter (Samples.sampleEnv [])
                (w_points (Samples.sampleWorld ACTIVE))
                (agentRequest (Samples.sampleEnv []) (lit "agent-a")
                   (lit "opening hours") 5)).
  { unfold honoursFilter. simpl.
    constructor; [|constructor].
    split; [right; left; reflexivity | reflexivity]. }
  split; [exact H|].
  exact (@getRelevantContext_agent_scoped (Samples.sampleEnv []) (lit "agent-a")
           (lit "opening hours") 5 (Samples.sampleWorld ACTIVE) H).
Defined.

End RetrievalTheorems.

(** ** The effect monad: running and framing *)

Module EffectFacts.

Import Frame.

Lemma bind_ok {A B} (m : M A) (k : A -> M B) (w w' : World) (a : A) :
  m w = (Ok a, w') -> bind m k w = k a w'.
Proof. unfold bind. now intros ->. Qed.

Lemma bind_throw {A B} (m : M A) (k : A -> M B) (w w' : World) (e : Error) :
  m w = (Throw e, w') -> bind m k w = (Throw e, w').
Proof. unfold bind. now intros ->. Qed.

Lemma tryCatch_ok {A} (m : M A) (h : Error -> M A) (w w' : World) (a : A) :
  m w = (Ok a, w') -> tryCatch m h w = (Ok a, w').
Proof. unfold tryCatch. now intros ->. Qed.

Lemma tryCatch_throw {A} (m : M A) (h : Error -> M A) (w w' : World) (e : Error) :
  m w = (Throw e, w') -> tryCatch m h w = h e w'.
Proof. unfold tryCatch. now intros ->. Qed.

Section Combinators.

Variable R : World -> World -> Prop.
Hypothesis R_refl : forall w, R w w.
Hypothesis R_trans : forall w1 w2 w3, R w1 w2 -> R w2 w3 -> R w1 w3.

Lemma respects_ret {A} (a : A) : Respects R (ret a).
Proof. intros w. apply R_refl. Qed.

Lemma respects_throw {A} (e : Error) : Respects R (@throw A e).
Proof. intros w. apply R_refl. Qed.

Lemma respects_get : Respects R get.
Proof. intros w. apply R_refl. Qed.

Lemma respects_bind {A B} (m : M A) (k : A -> M B) :
  Respects R m -> (forall a, Respects R (k a)) -> Respects R (bind m k).
Proof.
  intros Hm Hk w. unfold bind. specialize (Hm w).
  destruct (m w) as [[a | e] w1]; simpl in *.
  - eapply R_trans; [exact Hm | apply Hk].
  - exact Hm.
Qed.

Lemma respects_tryCatch {A} (m : M A) (h : Error -> M A) :
  Respects R m -> (forall e, Respects R (h e)) -> Respects R (tryCatch m h).
Proof.
  intros Hm Hh w. unfold tryCatch. specialize (Hm w).
  destruct (m w) as [[a | e] w1]; simpl in *.
  - exact Hm.
  - eapply R_trans; [exact Hm | apply Hh].
Qed.

Lemma respects_at_site {A} (env : Env) (site : Site) (m : M A) :
  Respects R m -> Respects R (at_site env site m).
Proof.
  intros Hm. unfold at_site. destruct (fails env site);
    [apply respects_throw | exact Hm].
Qed.

End Combinators.

Section Preserving.

Context {T : Type} (proj : World -> T).

Let same (w w' : World) : Prop := proj w' = proj w.

Lemma same_refl w : same w w.
Proof. reflexivity. Qed.

Lemma same_trans w1 w2 w3 : same w1 w2 -> same w2 w3 -> same w1 w3.
Proof. unfold same. congruence. Qed.

Lemma preserves_ret {A} (a : A) : Preserves proj (ret a).
Proof. apply (@respects_ret same same_refl). Qed.

Lemma preserves_throw {A} (e : Error) : Preserves proj (@throw A e).
Proof. apply (@respects_throw same same_refl). Qed.

Lemma preserves_get : Preserves proj get.
Proof. apply (@respects_get same same_refl). Qed.

Lemma preserves_bind {A B} (m : M A) (k : A -> M B) :
  Preserves proj m -> (forall a, Preserves proj (k a)) ->
  Preserves proj (bind m k).
Proof. apply (@respects_bind same same_trans). Qed.

Lemma preserves_tryCatch {A} (m : M A) (h : Error -> M A) :
  Preserves proj m -> (forall e, Preserves proj (h e)) ->
  Preserves proj (tryCatch m h).
Proof. apply (@respects_tryCatch same same_trans). Qed.

Lemma preserves_at_site {A} (env : Env) (site : Site) (m : M A) :
  Preserves proj m -> Preserves proj (at_site env site m).
Proof. apply (@respects_at_site same same_refl). Qed.

End Preserving.

Lemma quiet_record (ev : Event) : Quiet (record ev).
Proof. intros w. reflexivity. Qed.

Lemma quiet_conversations {A} (m : M A) : Quiet m -> Preserves w_conversations m.
Proof. intros H w. specialize (H w). unfold tables in H. congruence. Qed.

Lemma quiet_messages {A} (m : M A) : Quiet m -> Preserves w_messages m.
Proof. intros H w. specialize (H w). unfold tables in H. congruence. Qed.

Create HintDb frame.

(** Splits a goal [Preserves proj m] along the structure of [m]; what is
    left are the calls it does not know. *)
Ltac frame :=
  repeat first
    [ apply preserves_ret | apply preserves_throw | apply preserves_get
    | apply quiet_record
    | apply preserves_at_site | apply preserves_bind | apply preserves_tryCatch
    | progress intros
    | match goal with
      | |- Preserves _ (if ?b then _ else _) => destruct b
      | |- Preserves _ (match ?x with _ => _ end) => destruct x
      | |- Quiet (if ?b then _ else _) => destruct b
      | |- Quiet (match ?x with _ => _ end) => destruct x
      | |- Quiet ?m => change (Preserves tables m)
      end
    | solve [eauto with frame] ].

Lemma quiet_logInfo (s : jsstring) : Quiet (logInfo s).
Proof. apply quiet_record. Qed.

Lemma quiet_logError (s : jsstring) (e : Error) : Quiet (logError s e).
Proof. apply quiet_record. Qed.

Lemma quiet_emit (room event : jsstring) (payload : Json) :
  Quiet (emit room event payload).
Proof. apply quiet_record. Qed.

#[export] Hint Resolve quiet_logInfo quiet_logError quiet_emit quiet_record : frame.

Section Services.

Variable env : Env.

Lemma quiet_tokenize s : Quiet (HebrewNLP.tokenize env s).
Proof. unfold HebrewNLP.tokenize. frame. Qed.

Lemma quiet_extractEntities s : Quiet (HebrewNLP.extractEntities env s).
Proof. unfold HebrewNLP.extractEntities. frame. Qed.

Lemma quiet_analyzeSentiment s : Quiet (HebrewNLP.analyzeSentiment env s).
Proof. unfold HebrewNLP.analyzeSentiment. frame. Qed.

Lemma quiet_addNikud s : Quiet (HebrewNLP.addNikud env s).
Proof. unfold HebrewNLP.addNikud. frame. Qed.

Hint Resolve quiet_tokenize quiet_extractEntities quiet_analyzeSentiment
     quiet_addNikud : frame.

Lemma quiet_analyzeText s : Quiet (HebrewNLP.analyzeText env s).
Proof. unfold HebrewNLP.analyzeText. frame. Qed.

Lemma quiet_similaritySearch query k filter :
  Quiet (VectorStore.similaritySearch env query k filter).
Proof. unfold VectorStore.similaritySearch. frame. Qed.

Hint Resolve quiet_analyzeText quiet_similaritySearch : frame.

Lemma quiet_getRelevantContext agentId query limit :
  Quiet (AgentEngine.getRelevantContext env agentId query limit).
Proof. unfold AgentEngine.getRelevantContext. frame. Qed.

Lemma quiet_invoke model messages : Quiet (AgentEngine.invoke env model messages).
Proof. unfold AgentEngine.invoke. frame. Qed.

Lemma quiet_postProcessResponse reply hebrew :
  Quiet (AgentEngine.postProcessResponse env reply hebrew).
Proof. unfold AgentEngine.postProcessResponse. frame. Qed.

Lemma quiet_conversationFindUnique id :
  Quiet (Prisma.conversationFindUnique env id).
Proof. unfold Prisma.conversationFindUnique. frame. Qed.

Hint Resolve quiet_conversationFindUnique : frame.

Lemma quiet_conversationFindUniqueWithMessages id take :
  Quiet (Prisma.conversationFindUniqueWithMessages env id take).
Proof. unfold Prisma.conversationFindUniqueWithMessages. frame. Qed.

Lemma quiet_messageFindMany id : Quiet (Prisma.messageFindMany env id).
Proof. unfold Prisma.messageFindMany. frame. Qed.

Lemma quiet_userOrganizationFindFirst userId organizationId :
  Quiet (Prisma.userOrganizationFindFirst env userId organizationId).
Proof. unfold Prisma.userOrganizationFindFirst. frame. Qed.

Hint Resolve quiet_userOrganizationFindFirst : frame.

Lemma quiet_checkPermission user action resource org :
  Quiet (Permissions.checkPermission env user action resource org).
Proof. unfold Permissions.checkPermission. frame. Qed.

Lemma conversations_messageCreate site id role content meta :
  Preserves w_conversations (Prisma.messageCreate env site id role content meta).
Proof.
  unfold Prisma.messageCreate. apply preserves_at_site. intros w. reflexivity.
Qed.

End Services.

#[export] Hint Resolve quiet_tokenize quiet_extractEntities
  quiet_analyzeSentiment quiet_addNikud quiet_analyzeText
  quiet_similaritySearch quiet_getRelevantContext quiet_invoke
  quiet_postProcessResponse quiet_conversationFindUnique
  quiet_conversationFindUniqueWithMessages quiet_messageFindMany
  quiet_userOrganizationFindFirst quiet_checkPermission
  conversations_messageCreate : frame.

End EffectFacts.

(** ** The analyzer and the engine, step by step *)

Module EngineFacts.

Import HebrewNLP VectorStore AgentEngine Frame Policy EffectFacts.

Lemma appendTrace_trace (w : World) (evs : list Event) :
  w_trace (appendTrace w evs) = w_trace w ++ evs.
Proof.
  revert w. induction evs as [|ev evs IH]; intros w; simpl.
  - now rewrite app_nil_r.
  - unfold appendTrace in *. simpl. rewrite IH. simpl.
    now rewrite <- app_assoc.
Qed.

Lemma appendTrace_tables (w : World) (evs : list Event) :
  tables (appendTrace w evs) = tables w.
Proof.
  revert w. induction evs as [|ev evs IH]; intros w; [reflexivity|].
  unfold appendTrace in *. simpl. now rewrite IH.
Qed.

Lemma appendTrace_app (w : World) (evs evs' : list Event) :
  appendTrace (appendTrace w evs) evs' = appendTrace w (evs ++ evs').
Proof. unfold appendTrace. now rewrite fold_left_app. Qed.

Section Run.

Variable env : Env.

(** [analyzeText] as a function of the failing sites. *)
Lemma analyzeText_run (s : jsstring) (w : World) :
  analyzeText env s w
  = (analysisOutcome env s, appendTrace w (analysisLog env s)).
Proof.
  unfold analyzeText, tokenize, extractEntities, analyzeSentiment, addNikud,
    analysisOutcome, analysisLog, hebrewAnalysis, plainAnalysis, failureLog,
    tryCatch, bind, at_site, logError, record, ret, throw, appendTrace.
  destruct (fails env DetectLanguage); [reflexivity|].
  simpl. destruct (isHebrewText s); simpl; [|reflexivity].
  destruct (fails env NormalizeText); [reflexivity|].
  simpl.
  destruct (fails env Tokenize), (fails env ExtractEntities),
    (fails env AnalyzeSentiment), (enableNikud env);
    simpl; try reflexivity; destruct (fails env AddNikud); reflexivity.
Qed.

Lemma analysisOutcome_ok (s : jsstring) :
  fails env DetectLanguage = false -> fails env NormalizeText = false ->
  exists analysis,
    analysisOutcome env s = Ok analysis
    /\ isHebrew analysis = isHebrewText s.
Proof.
  intros Hd Hn. unfold analysisOutcome. rewrite Hd, Hn.
  destruct (isHebrewText s); simpl; eexists; split; reflexivity.
Qed.

(** Retrieval never throws. *)
Lemma getRelevantContext_total agentId query limit (w : World) :
  exists docs w',
    getRelevantContext env agentId query limit w = (Ok docs, w')
    /\ tables w' = tables w.
Proof.
  pose proof (quiet_getRelevantContext env agentId query limit w) as Hq.
  revert Hq.
  unfold getRelevantContext, similaritySearch, tryCatch, bind, at_site,
    logError, record, get, ret, throw.
  destruct (fails env EmbedQuery); simpl.
  - intros Hq. eexists. eexists. split; [reflexivity | exact Hq].
  - destruct (fails env QdrantSearch); simpl;
      intros Hq; eexists; eexists; (split; [reflexivity | exact Hq]).
Qed.

Lemma invoke_run model messages (w : World) :
  fails env ModelInvoke = false ->
  invoke env model messages w
  = (Ok (modelReply env model messages),
     appendTrace w [Invoked model messages]).
Proof.
  intros H. unfold invoke, bind, at_site, record, ret. simpl.
  now rewrite H.
Qed.

Lemma postProcessResponse_total reply hebrew (w : World) :
  fails env DetectLanguage = false -> fails env NormalizeText = false ->
  exists response w',
    postProcessResponse env reply hebrew w = (Ok response, w')
    /\ tables w' = tables w.
Proof.
  intros Hd Hn.
  pose proof (quiet_postProcessResponse env reply hebrew w) as Hq.
  revert Hq. unfold postProcessResponse.
  destruct hebrew.
  - destruct (analysisOutcome_ok (fixRTLFormatting reply) Hd Hn)
      as (analysis & Ha & _).
    assert (Hrun : analyzeText env (fixRTLFormatting reply) w
                   = (Ok analysis,
                      appendTrace w (analysisLog env (fixRTLFormatting reply))))
      by (now rewrite analyzeText_run, Ha).
    erewrite bind_ok; [|erewrite bind_ok; [reflexivity | exact Hrun]].
    intros Hq. eexists. eexists. split; [reflexivity | exact Hq].
  - simpl. intros Hq. eexists. eexists. split; [reflexivity | exact Hq].
Qed.

(** [saveMessages] never throws; what it appends and logs depends on
    the two creates alone. *)
Lemma saveMessages_run context assistantContent (w : World) :
  exists w',
    saveMessages env context assistantContent w = (Ok tt, w')
    /\ w_messages w' = w_messages w ++ persisted env context assistantContent
    /\ w_trace w' = w_trace w ++ persistenceLog env
    /\ w_conversations w' = w_conversations w.
Proof.
  unfold saveMessages, Prisma.messageCreate, persisted, persistenceLog,
    failureLog, userMessage, assistantMessage,
    tryCatch, bind, at_site, logError, record, ret, throw.
  destruct (fails env CreateUserMessage); simpl.
  - eexists. split; [reflexivity|]. simpl. now rewrite app_nil_r.
  - destruct (fails env CreateAssistantMessage); simpl.
    + eexists. split; [reflexivity|]. simpl. auto.
    + eexists. split; [reflexivity|]. simpl.
      now rewrite <- app_assoc, app_nil_r.
Qed.

End Run.

End EngineFacts.

(** ** The turn: analysis failures and persistence *)

Module TurnTheorems.

Import HebrewNLP VectorStore AgentEngine Conversations.
Import Frame Policy Samples EffectFacts EngineFacts.

Lemma tables_messages (w w' : World) :
  tables w' = tables w -> w_messages w' = w_messages w.
Proof. unfold tables. congruence. Qed.

Lemma tables_conversations (w w' : World) :
  tables w' = tables w -> w_conversations w' = w_conversations w.
Proof. unfold tables. congruence. Qed.

(** When the analysis of the input throws, so does the turn, after the
    engine has logged the error as well. *)
Lemma processMessage_analysis_throw env context (w : World) (e : Error) :
  analysisOutcome env (userInput context) = Throw e ->
  processMessage env context w
  = (Throw e,
     appendTrace w (analysisLog env (userInput context)
                    ++ [Logged Err (lit "Agent engine error:") (Some e)])).
Proof.
  intros H. unfold processMessage.
  erewrite tryCatch_throw.
  2:{ apply bind_throw. rewrite analyzeText_run, H. reflexivity. }
  rewrite <- appendTrace_app. reflexivity.
Qed.

(** The analyzer and the engine on a failing analysis.  Failures inside
    tokenization, entity extraction, sentiment analysis and vocalization
    are absorbed by the analyzer: each is logged and replaced by its
    fallback, and [analyzeText] returns an analysis.  A failure of language
    detection or of normalization is logged by [analyzeText] and thrown
    again, and [processMessage] logs it once more and throws it to its
    caller. *)
Lemma processMessage_analysis_outcomes env context (w : World) :
  let input := userInput context in
  analyzeText env input w
  = (analysisOutcome env input, appendTrace w (analysisLog env input))
  /\ (if fails env DetectLanguage then
        processMessage env context w
        = (Throw (Failure DetectLanguage),
           appendTrace w
             [ Logged Err (lit "Hebrew NLP analysis failed:")
                      (Some (Failure DetectLanguage));
               Logged Err (lit "Agent engine error:")
                      (Some (Failure DetectLanguage)) ])
      else if isHebrewText input && fails env NormalizeText then
        processMessage env context w
        = (Throw (Failure NormalizeText),
           appendTrace w
             [ Logged Err (lit "Hebrew NLP analysis failed:")
                      (Some (Failure NormalizeText));
               Logged Err (lit "Agent engine error:")
                      (Some (Failure NormalizeText)) ])
      else
        analysisOutcome env input
        = Ok (if isHebrewText input then hebrewAnalysis env input
              else plainAnalysis input)).
Proof.
  intros input. split; [apply analyzeText_run|].
  destruct (fails env DetectLanguage) eqn:Hd.
  - rewrite processMessage_analysis_throw with (e := Failure DetectLanguage).
    + unfold analysisLog. fold input. now rewrite Hd.
    + unfold analysisOutcome. now rewrite Hd.
  - destruct (isHebrewText input) eqn:Hh; simpl.
    + destruct (fails env NormalizeText) eqn:Hn.
      * rewrite processMessage_analysis_throw with (e := Failure NormalizeText).
        -- unfold analysisLog. fold input. now rewrite Hd, Hh, Hn.
        -- unfold analysisOutcome. fold input. now rewrite Hd, Hh, Hn.
      * unfold analysisOutcome. fold input. now rewrite Hd, Hh, Hn.
    + unfold analysisOutcome. fold input. now rewrite Hd, Hh.
Qed.

(** C3 fails as stated: when normalization throws on the Hebrew greeting,
    the error reaches the caller of [processMessage], and the route
    answers with the error [Failed to process message], status 500. *)
Lemma analysis_failure_reaches_caller :
  fst (processMessage (sampleEnv [NormalizeText]) sampleContext
         (sampleWorld ACTIVE))
  = Throw (Failure NormalizeText)
  /\ fst (postMessage (sampleEnv [NormalizeText]) sampleRequest
            (sampleWorld ACTIVE))
     = Throw (AppError (lit "Failed to process message") 500).
Proof. split; vm_compute; reflexivity. Qed.

(** C1, as the code has it.  When analysis and model invocation succeed,
    [processMessage] returns the reply to its caller whatever happens to
    persistence.  [saveMessages] creates the USER row and then the
    ASSISTANT row, and absorbs a failure of either by logging it: nothing
    is appended when the first create fails, the USER row alone when only
    the second fails, both rows in order when neither fails. *)
Theorem processMessage_persistence env context (w : World) :
  fails env DetectLanguage = false ->
  fails env NormalizeText = false ->
  fails env ModelInvoke = false ->
  exists (response : AgentResponse) (earlier : list Event) (w' : World),
    processMessage env context w = (Ok response, w')
    /\ w_messages w'
       = w_messages w ++ persisted env context (content response)
    /\ w_trace w' = earlier ++ persistenceLog env
    /\ w_conversations w' = w_conversations w.
Proof.
  intros Hd Hn Hi.
  destruct (analysisOutcome_ok env (userInput context) Hd Hn)
    as (ta & Hta & _).
  set (w1 := appendTrace w (analysisLog env (userInput context))).
  set (w2 := snd (logInfo (lit "Text analysis completed") w1)).
  destruct (getRelevantContext_total env (agent_id (agent context))
              (normalizedText ta) 5 w2) as (docs & w3 & Hdocs & Ht3).
  set (messages := buildMessages context ta docs).
  set (model := selectModel (agent_model (agent context))).
  set (w4 := appendTrace w3 [Invoked model messages]).
  destruct (postProcessResponse_total env (modelReply env model messages)
              (isHebrew ta) w4 Hd Hn) as (pr & w5 & Hpp & Ht5).
  destruct (saveMessages_run env context (content pr) w5)
    as (w6 & Hsave & Hmsgs & Htrace & Hconv).
  assert (Ht : tables w5 = tables w).
  { rewrite Ht5. unfold w4. rewrite appendTrace_tables, Ht3.
    unfold w2, w1. simpl. apply (appendTrace_tables w). }
  exists pr, (w_trace w5), w6.
  split.
  { unfold processMessage. apply tryCatch_ok.
    erewrite bind_ok by (rewrite analyzeText_run, Hta; reflexivity).
    erewrite bind_ok by reflexivity.
    erewrite bind_ok by exact Hdocs.
    erewrite bind_ok by (apply invoke_run; exact Hi).
    erewrite bind_ok by exact Hpp.
    erewrite bind_ok by exact Hsave.
    reflexivity. }
  split; [now rewrite Hmsgs, (tables_messages Ht)|].
  split; [exact Htrace|].
  now rewrite Hconv, (tables_conversations Ht).
Qed.

Lemma processMessage_persistence_witness :
  exists (response : AgentResponse) (earlier : list Event) (w' : World),
    processMessage (sampleEnv [CreateUserMessage]) sampleContext
      (sampleWorld ACTIVE) = (Ok response, w')
    /\ w_messages w'
       = w_messages (sampleWorld ACTIVE)
         ++ persisted (sampleEnv [CreateUserMessage]) sampleContext
              (content response)
    /\ w_trace w' = earlier ++ persistenceLog (sampleEnv [CreateUserMessage])
    /\ w_conversations w' = w_conversations (sampleWorld ACTIVE).
Proof.
  exact (@processMessage_persistence (sampleEnv [CreateUserMessage])
           sampleContext (sampleWorld ACTIVE) eq_refl eq_refl eq_refl).
Defined.

(** C1 fails as stated: when the create of the ASSISTANT row fails after
    the USER row was written, the conversation is left with the USER
    message alone, and both [processMessage] and the route report
    success to their callers. *)
Lemma failed_reply_leaves_user_message_alone :
  let env := sampleEnv [CreateAssistantMessage] in
  (exists response w',
      processMessage env sampleContext (sampleWorld ACTIVE) = (Ok response, w')
      /\ List.map msg_role (Prisma.messagesOf sampleId (w_messages w'))
         = [USER])
  /\ (exists response,
         fst (postMessage env sampleRequest (sampleWorld ACTIVE))
         = Ok (MessageReply response)).
Proof.
  split.
  - eexists. eexists. split; [vm_compute; reflexivity|]. vm_compute. reflexivity.
  - eexists. vm_compute. reflexivity.
Qed.

End TurnTheorems.

(** ** The conversation routes *)

Module RouteFacts.

Import AgentEngine Conversations Permissions.
Import Frame Policy EffectFacts EngineFacts JsStringFacts.

#[export] Hint Resolve quiet_conversations quiet_messages : frame.

Lemma conversations_saveMessages env context assistantContent :
  Preserves w_conversations (saveMessages env context assistantContent).
Proof. unfold saveMessages. frame. Qed.

#[export] Hint Resolve conversations_saveMessages : frame.

Lemma conversations_processMessage env context :
  Preserves w_conversations (processMessage env context).
Proof. unfold processMessage. frame. Qed.

#[export] Hint Resolve conversations_processMessage : frame.

Lemma conversations_postMessage env req :
  Preserves w_conversations (postMessage env req).
Proof. unfold postMessage. frame. Qed.

(** *** The status of a conversation only advances *)

Lemma advances_refl (c : Conversation) : advances c c.
Proof. split; auto. Qed.

Lemma advances_trans (c1 c2 c3 : Conversation) :
  advances c1 c2 -> advances c2 c3 -> advances c1 c3.
Proof.
  intros [Hid1 Hst1] [Hid2 Hst2]. split; [congruence|].
  destruct Hst2 as [-> | [-> | ->]]; auto.
Qed.

Lemma lifecycle_refl (w : World) : lifecycle w w.
Proof.
  unfold lifecycle. induction (w_conversations w); constructor;
    [apply advances_refl | assumption].
Qed.

Lemma Forall2_trans {A : Type} (R : A -> A -> Prop) :
  (forall a b c, R a b -> R b c -> R a c) ->
  forall l1 l2 l3, Forall2 R l1 l2 -> Forall2 R l2 l3 -> Forall2 R l1 l3.
Proof.
  intros HR l1 l2 l3 H12. revert l3.
  induction H12 as [|a b l1 l2 Hab _ IH]; intros l3 H23;
    inversion H23; subst; constructor; eauto.
Qed.

Lemma lifecycle_trans (w1 w2 w3 : World) :
  lifecycle w1 w2 -> lifecycle w2 w3 -> lifecycle w1 w3.
Proof. unfold lifecycle. apply Forall2_trans. apply advances_trans. Qed.

Lemma lifecycle_of_preserves {A} (m : M A) :
  Preserves w_conversations m -> Respects lifecycle m.
Proof.
  intros H w. unfold lifecycle. rewrite (H w). apply (lifecycle_refl w).
Qed.

Lemma lifecycle_conversationUpdate env id (data : Conversation -> Conversation) :
  (forall c, advances c (data c)) ->
  Respects lifecycle (Prisma.conversationUpdate env id data).
Proof.
  intros Hdata. unfold Prisma.conversationUpdate.
  apply (@respects_at_site lifecycle lifecycle_refl).
  intros w.
  destruct (find (fun c => JsString.eqb (conv_id c) id) (w_conversations w));
    [|apply lifecycle_refl].
  unfold lifecycle. simpl.
  induction (w_conversations w) as [|c0 cs IH]; simpl; constructor;
    [|exact IH].
  destruct (JsString.eqb (conv_id c0) id); [apply Hdata | apply advances_refl].
Qed.

Lemma advances_setStatus_ENDED ended meta c :
  advances c (setStatus ENDED ended meta c).
Proof. split; simpl; auto. Qed.

Lemma advances_setStatus_TRANSFERRED ended meta c :
  advances c (setStatus TRANSFERRED ended meta c).
Proof. split; simpl; auto. Qed.

(** Splits a goal [Respects lifecycle m] along the structure of [m]. *)
Ltac lifecycle_frame :=
  repeat first
    [ apply lifecycle_conversationUpdate;
      intros; first [apply advances_setStatus_ENDED
                    | apply advances_setStatus_TRANSFERRED]
    | apply (@respects_ret lifecycle lifecycle_refl)
    | apply (@respects_throw lifecycle lifecycle_refl)
    | apply (@respects_bind lifecycle lifecycle_trans)
    | progress intros
    | match goal with
      | |- Respects lifecycle (if ?b then _ else _) => destruct b
      | |- Respects lifecycle (match ?x with _ => _ end) => destruct x
      end
    | apply lifecycle_of_preserves; solve [eauto with frame] ].

Lemma lifecycle_endConversation env req :
  Respects lifecycle (endConversation env req).
Proof. unfold endConversation. lifecycle_frame. Qed.

Lemma lifecycle_transferConversation env req :
  Respects lifecycle (transferConversation env req).
Proof. unfold transferConversation. lifecycle_frame. Qed.

Lemma lifecycle_postMessage env req :
  Respects lifecycle (postMessage env req).
Proof. apply lifecycle_of_preserves. apply conversations_postMessage. Qed.

Lemma lifecycle_statusOf (id : jsstring) (w w' : World) :
  lifecycle w w' ->
  statusOf id w' = statusOf id w
  \/ statusOf id w' = Some ENDED \/ statusOf id w' = Some TRANSFERRED.
Proof.
  unfold lifecycle, statusOf.
  induction 1 as [|c c' cs cs' [Hid Hst] _ IH]; [now left|].
  simpl. rewrite Hid.
  destruct (JsString.eqb (conv_id c) id); [|exact IH].
  simpl. destruct Hst as [-> | [-> | ->]]; auto.
Qed.

End RouteFacts.

Module RouteTheorems.

Import AgentEngine Conversations Permissions.
Import Frame Policy Samples EffectFacts EngineFacts RouteFacts JsStringFacts.
Local Open Scope nat_scope.

Section Lookup.

Variables (env : Env) (id : jsstring) (w : World)
          (conv : Conversation) (agt : Agent).

Hypothesis read_ok : fails env FindConversation = false.
Hypothesis conv_found :
  find (fun c => JsString.eqb (conv_id c) id) (w_conversations w) = Some conv.
Hypothesis agent_found :
  find (fun a => JsString.eqb (agent_id a) (conv_agentId conv)) (w_agents w)
  = Some agt.

Lemma conversationFindUnique_found :
  Prisma.conversationFindUnique env id w = (Ok (Some (conv, agt)), w).
Proof.
  unfold Prisma.conversationFindUnique, at_site, bind, get, ret.
  now rewrite read_ok, conv_found, agent_found.
Qed.

Lemma conversationFindUniqueWithMessages_found (take : nat) :
  Prisma.conversationFindUniqueWithMessages env id take w
  = (Ok (Some (conv, agt,
               firstn take
                 (Prisma.orderByCreatedAtDesc
                    (Prisma.messagesOf id (w_messages w))))), w).
Proof.
  unfold Prisma.conversationFindUniqueWithMessages.
  erewrite bind_ok by apply conversationFindUnique_found.
  reflexivity.
Qed.

End Lookup.

Lemma checkPermission_world env user action resource org (w : World) :
  snd (checkPermission env user action resource org w) = w.
Proof.
  unfold checkPermission, Prisma.userOrganizationFindFirst,
    at_site, bind, get, ret, throw.
  destruct (JsString.eqb (user_role user) (lit "ADMIN")); [reflexivity|].
  destruct (0 <? length org); [|reflexivity].
  destruct (fails env FindUserOrganization); [reflexivity|]. simpl.
  destruct (find _ (w_userOrganizations w)) as [uo|]; [|reflexivity].
  destruct (negb (checkOrgRolePermission (uo_role uo) action resource));
    reflexivity.
Qed.

Lemma find_update (id : jsstring) (data : Conversation -> Conversation)
      (cs : list Conversation) :
  (forall c, conv_id (data c) = conv_id c) ->
  find (fun c => JsString.eqb (conv_id c) id)
       (List.map (fun c => if JsString.eqb (conv_id c) id then data c else c) cs)
  = option_map data (find (fun c => JsString.eqb (conv_id c) id) cs).
Proof.
  intros Hid. induction cs as [|c cs IH]; [reflexivity|].
  simpl. destruct (JsString.eqb (conv_id c) id) eqn:E.
  - now rewrite Hid, E.
  - now rewrite E.
Qed.

(** The guard of the route.  A turn submitted through
    [POST /:id/messages] to a stored conversation whose status is not
    ACTIVE is rejected at once with an error of status 400: [Validation
    failed] when the request itself is malformed, [Conversation is not
    active] otherwise.  The world is left exactly as it was: no message is
    written, no event is emitted, the engine is never called. *)
Theorem postMessage_rejects_inactive
        env req (w : World) (conv : Conversation) (agt : Agent) :
  fails env FindConversation = false ->
  find (fun c => JsString.eqb (conv_id c) (req_id req)) (w_conversations w)
  = Some conv ->
  find (fun a => JsString.eqb (agent_id a) (conv_agentId conv)) (w_agents w)
  = Some agt ->
  status_eqb (conv_status conv) ACTIVE = false ->
  postMessage env req w
  = (Throw (AppError
              (if isUUID env (req_id req)
                  && (0 <? length (req_content req))
                  && isObject (req_metadata req)
               then lit "Conversation is not active"
               else lit "Validation failed")
              400),
     w).
Proof.
  intros Hread Hconv Hagent Hstatus. unfold postMessage.
  destruct (isUUID env (req_id req) && (0 <? length (req_content req))
            && isObject (req_metadata req)); [|reflexivity].
  change (negb true) with false. cbv iota zeta.
  erewrite bind_ok
    by (apply conversationFindUniqueWithMessages_found; eassumption).
  cbv beta iota. now rewrite Hstatus.
Qed.

Lemma postMessage_rejects_inactive_witness :
  postMessage (sampleEnv []) sampleRequest (sampleWorld ENDED)
  = (Throw (AppError (lit "Conversation is not active") 400),
     sampleWorld ENDED).
Proof.
  exact (@postMessage_rejects_inactive (sampleEnv []) sampleRequest
           (sampleWorld ENDED) (sampleConversation ENDED) agentA
           eq_refl eq_refl eq_refl eq_refl).
Defined.

(** C8 fails on the message-processing worker.  The route rejects a turn
    for a PAUSED, ENDED or TRANSFERRED conversation and leaves the world as
    it was; the worker, given the same conversation and the same input,
    never reads the status: it runs the engine, reports success, and the
    conversation, still in the status it had, has gained a USER and an
    ASSISTANT message. *)
Theorem messageProcessing_accepts_inactive :
  Forall
    (fun st =>
       postMessage (sampleEnv []) sampleRequest (sampleWorld st)
       = (Throw (AppError (lit "Conversation is not active") 400),
          sampleWorld st)
       /\ exists (result : Workers.MessageJobResult) (w' : World),
           Workers.messageProcessing (sampleEnv []) MoreSamples.sampleJob
             (sampleWorld st)
           = (Ok result, w')
           /\ Workers.success result = true
           /\ (exists reply,
                  List.map (fun m => (msg_role m, msg_content m))
                           (Prisma.messagesOf sampleId (w_messages w'))
                  = [(USER, sampleInput); (ASSISTANT, reply)])
           /\ statusOf sampleId w' = Some st)
    [PAUSED; ENDED; TRANSFERRED].
Proof.
  repeat (constructor;
          [split;
           [vm_compute; reflexivity
           | eexists; eexists; split; [vm_compute; reflexivity|];
             split; [vm_compute; reflexivity|];
             split; [eexists; vm_compute; reflexivity|];
             vm_compute; reflexivity]|]).
  constructor.
Qed.

(** C2, as the code has it.  A transfer by a permitted user of any stored
    conversation, whatever its status, sets the status to TRANSFERRED and
    appends exactly one SYSTEM message; nothing guards it by the
    lifecycle.  Sending a message, ending and transferring only ever keep
    a status or move it to ENDED or to TRANSFERRED, so a conversation that
    has left ACTIVE never returns to it. *)
Theorem transfer_and_status_lifecycle
        env req (w : World) (conv : Conversation) (agt : Agent) :
  isUUID env (req_id req) = true ->
  find (fun c => JsString.eqb (conv_id c) (req_id req)) (w_conversations w)
  = Some conv ->
  find (fun a => JsString.eqb (agent_id a) (conv_agentId conv)) (w_agents w)
  = Some agt ->
  fst (checkPermission env (req_user req) update conversation_
         (agent_organizationId agt) w) = Ok true ->
  fails env FindConversation = false ->
  fails env UpdateConversation = false ->
  fails env CreateSystemMessage = false ->
  (exists (updated : Conversation) (w' : World),
      transferConversation env req w
      = (Ok (ConversationTransferred updated), w')
      /\ conv_status updated = TRANSFERRED
      /\ statusOf (req_id req) w' = Some TRANSFERRED
      /\ w_messages w' = w_messages w ++ [transferMessage env req])
  /\ (forall env0 req0 id (w0 : World),
         Forall (fun handler : Env -> Request -> M Response =>
                   let after := statusOf id (snd (handler env0 req0 w0)) in
                   after = statusOf id w0
                   \/ after = Some ENDED \/ after = Some TRANSFERRED)
                [postMessage; endConversation; transferConversation]).
Proof.
  intros Huuid Hconv Hagent Hperm Hread Hupdate Hcreate. split.
  - assert (Hcheck : checkPermission env (req_user req) update conversation_
                       (agent_organizationId agt) w = (Ok true, w)).
    { rewrite (surjective_pairing (checkPermission _ _ _ _ _ _)).
      now rewrite Hperm, checkPermission_world. }
    unfold transferConversation. rewrite Huuid. change (negb true) with false. cbv iota zeta.
    erewrite bind_ok by (apply conversationFindUnique_found; eassumption).
    cbv beta iota.
    erewrite bind_ok by exact Hcheck.
    unfold Prisma.conversationUpdate, Prisma.messageCreate, at_site.
    rewrite Hupdate, Hcreate.
    unfold bind at 1. rewrite Hconv.
    eexists. eexists. split; [reflexivity|].
    split; [reflexivity|].
    split; [|reflexivity].
    unfold statusOf. simpl.
    rewrite find_update by reflexivity.
    now rewrite Hconv.
  - intros env0 req0 id w0.
    constructor;
      [apply lifecycle_statusOf, lifecycle_postMessage|].
    constructor;
      [apply lifecycle_statusOf, lifecycle_endConversation|].
    constructor;
      [apply lifecycle_statusOf, lifecycle_transferConversation|].
    constructor.
Qed.

Lemma transfer_and_status_lifecycle_witness :
  (exists (updated : Conversation) (w' : World),
      transferConversation (sampleEnv []) sampleRequest (sampleWorld ENDED)
      = (Ok (ConversationTransferred updated), w')
      /\ conv_status updated = TRANSFERRED
      /\ statusOf sampleId w' = Some TRANSFERRED
      /\ w_messages w' = [transferMessage (sampleEnv []) sampleRequest])
  /\ (forall env0 req0 id (w0 : World),
         Forall (fun handler : Env -> Request -> M Response =>
                   let after := statusOf id (snd (handler env0 req0 w0)) in
                   after = statusOf id w0
                   \/ after = Some ENDED \/ after = Some TRANSFERRED)
                [postMessage; endConversation; transferConversation]).
Proof.
  exact (@transfer_and_status_lifecycle (sampleEnv []) sampleRequest
           (sampleWorld ENDED) (sampleConversation ENDED) agentA
           eq_refl eq_refl eq_refl eq_refl eq_refl eq_refl eq_refl).
Defined.

(** C2 fails as stated: a second transfer of the same conversation, by
    then TRANSFERRED, appends a second SYSTEM record; and ending the
    transferred conversation moves it from TRANSFERRED to ENDED. *)
Lemma second_transfer_appends_second_record :
  let env := sampleEnv [] in
  let w1 := snd (transferConversation env sampleRequest (sampleWorld ACTIVE)) in
  let w2 := snd (transferConversation env sampleRequest w1) in
  statusOf sampleId w1 = Some TRANSFERRED
  /\ List.map msg_role (Prisma.messagesOf sampleId (w_messages w1)) = [SYSTEM]
  /\ List.map msg_role (Prisma.messagesOf sampleId (w_messages w2))
     = [SYSTEM; SYSTEM]
  /\ statusOf sampleId (snd (endConversation env sampleRequest w1))
     = Some ENDED.
Proof. vm_compute. repeat split. Qed.

End RouteTheorems.


(* ================================================================== *)
(** * Part II, continued: further properties of the services            *)
(* ================================================================== *)

(** ** The normalizer and the analyzer *)

Module NormalizerExtras.

Import Shape MoreShape JsStringFacts NormalizerFacts.
Import HebrewNLP Frame Policy EffectFacts EngineFacts.
Local Open Scope N_scope.

Lemma tidyFrom_white_space (s : jsstring) (b : bool) :
  tidyFrom b s = true ->
  Forall (fun c => isWhiteSpace c = true -> c = SPACE) s.
Proof.
  revert b. induction s as [|c t IH]; intros b H; constructor.
  - intros Hc. simpl in H. rewrite Hc in H.
    apply andb_true_iff in H as [H _]. apply andb_true_iff in H as [_ H].
    now apply N.eqb_eq in H.
  - simpl in H. destruct (isWhiteSpace c).
    + apply andb_true_iff in H as [_ H]. exact (IH true H).
    + exact (IH false H).
Qed.

Lemma forallb_plain_In (s : jsstring) (c : char) :
  forallb plain s = true -> In c s ->
  c <> GERSHAYIM /\ c <> GERESH /\ c <> MAQAF.
Proof.
  intros H Hin. rewrite forallb_forall in H. specialize (H c Hin).
  unfold plain in H.
  apply andb_true_iff in H as [H H3]. apply andb_true_iff in H as [H1 H2].
  apply negb_true_iff in H1, H2, H3.
  repeat split; intros ->; discriminate.
Qed.

(** X1. Normalized text is in normal form: each of the four stages of the
    normalizer leaves it unchanged, its only white-space units are single
    spaces, and none of the three Hebrew punctuation marks is left in it. *)
Theorem normalizeHebrewText_normal (x : jsstring) :
  let n := normalizeHebrewText x in
  replaceWhiteSpaceRuns false n = n
  /\ trim n = n
  /\ replaceHebrewPunctuation n = n
  /\ fixFinalLetters n = n
  /\ Forall (fun c => isWhiteSpace c = true -> c = SPACE) n
  /\ ~ In GERSHAYIM n /\ ~ In GERESH n /\ ~ In MAQAF n.
Proof.
  intros n.
  destruct (NormalizerTheorems.normalizeHebrewText_normal_form x)
    as (Ht & Hp & Hf).
  fold n in Ht, Hp, Hf.
  split; [now apply replaceWhiteSpaceRuns_tidy|].
  split; [now apply trim_tidy|].
  split; [now apply replaceHebrewPunctuation_of_plain|].
  split; [exact Hf|].
  split.
  { destruct n as [|c t]; [constructor|].
    exact (tidyFrom_white_space (c :: t) true Ht). }
  repeat split; intros Hin;
    destruct (forallb_plain_In n _ Hp Hin) as (H1 & H2 & H3); congruence.
Qed.

Lemma length_replaceWhiteSpaceRuns (s : jsstring) (b : bool) :
  (length (replaceWhiteSpaceRuns b s) <= length s)%nat.
Proof.
  revert b. induction s as [|c t IH]; intros b; simpl; [lia|].
  pose proof (IH true). pose proof (IH false).
  destruct (isWhiteSpace c); [destruct b|]; simpl; lia.
Qed.

Lemma length_trimStart (s : jsstring) : (length (trimStart s) <= length s)%nat.
Proof.
  induction s as [|c t IH]; simpl; [lia|].
  destruct (isWhiteSpace c); simpl; lia.
Qed.

Lemma length_trimEnd (s : jsstring) : (length (trimEnd s) <= length s)%nat.
Proof.
  induction s as [|c t IH]; simpl; [lia|].
  destruct (trimEnd t); [destruct (isWhiteSpace c)|]; simpl in *; lia.
Qed.

Lemma length_trim (s : jsstring) : (length (trim s) <= length s)%nat.
Proof.
  unfold trim. etransitivity; [apply length_trimEnd | apply length_trimStart].
Qed.

(** X2. Normalization never lengthens a text, and final-letter correction
    keeps its length: it changes a unit only from a medial letter to the
    final form of that letter. *)
Theorem normalizeHebrewText_length (x : jsstring) :
  (length (normalizeHebrewText x) <= length x)%nat
  /\ length (fixFinalLetters x) = length x
  /\ Forall2 (fun a b => a = b \/ finalLetterMap a = Some b)
             x (fixFinalLetters x).
Proof.
  assert (Hfix : forall s, length (fixFinalLetters s) = length s).
  { intros s. symmetry.
    exact (Forall2_length (fixFinalLetters_finalized s)). }
  split; [|split; [apply Hfix | apply fixFinalLetters_finalized]].
  unfold normalizeHebrewText. rewrite Hfix.
  unfold replaceHebrewPunctuation, replaceChar. rewrite !length_map.
  etransitivity; [apply length_trim | apply length_replaceWhiteSpaceRuns].
Qed.

(** X3. Where the correction applies: a text of one word whose
    second-to-last unit is a letter with a final form and whose last unit is
    not in the Hebrew block gets the final form in second-to-last place. *)
Theorem fixFinalLetters_repairs (pre : jsstring) (a b final : char) :
  spaceFree (pre ++ [a; b]) = true ->
  finalLetterMap a = Some final ->
  isHebrewChar b = false ->
  fixFinalLetters (pre ++ [a; b]) = pre ++ [final; b].
Proof.
  intros Hsp Ha Hb. unfold fixFinalLetters.
  rewrite (split_spaceFree_word _ Hsp). simpl.
  now rewrite fixWord_snoc2, Ha, Hb.
Qed.

Lemma fixFinalLetters_repairs_witness :
  fixFinalLetters [0x05E9; 0x05DC; 0x05D5; 0x05DE; 0x002C]
  = [0x05E9; 0x05DC; 0x05D5; 0x05DD; 0x002C].
Proof.
  exact (@fixFinalLetters_repairs [0x05E9; 0x05DC; 0x05D5] 0x05DE 0x002C 0x05DD
           eq_refl eq_refl eq_refl).
Defined.

End NormalizerExtras.

Module AnalyzerExtras.

Import Shape MoreShape JsStringFacts NormalizerFacts.
Import HebrewNLP HebrewSummary Frame Policy EffectFacts EngineFacts.
Local Open Scope N_scope.

(** *** Tokens *)

Lemma splitWhiteSpaceRuns_in_run (s : jsstring) :
  tidyFrom true s = true ->
  splitWhiteSpaceRuns true s = splitWhiteSpaceRuns false s.
Proof.
  destruct s as [|c t]; [discriminate|].
  simpl. destruct (isWhiteSpace c); [discriminate | reflexivity].
Qed.

Lemma isWhiteSpace_SPACE_false (c : char) :
  isWhiteSpace c = false -> (c =? SPACE) = false.
Proof.
  intros H. destruct (c =? SPACE) eqn:E; [|reflexivity].
  apply N.eqb_eq in E. subst c. discriminate.
Qed.

Lemma splitWhiteSpaceRuns_tidyFrom (s : jsstring) (b : bool) :
  tidyFrom b s = true -> splitWhiteSpaceRuns false s = split SPACE s.
Proof.
  revert b. induction s as [|c t IH]; intros b H; [reflexivity|].
  simpl in *. destruct (isWhiteSpace c) eqn:E.
  - apply andb_true_iff in H as [H Ht]. apply andb_true_iff in H as [_ Hc].
    rewrite Hc. rewrite (splitWhiteSpaceRuns_in_run t Ht).
    now rewrite (IH true Ht).
  - rewrite (isWhiteSpace_SPACE_false c E). now rewrite (IH false H).
Qed.

Lemma split_tidyFrom_nonempty (s : jsstring) (b : bool) :
  tidyFrom b s = true ->
  match split SPACE s with
  | w :: ws => (b = true -> w <> []) /\ Forall (fun t => t <> []) ws
  | [] => False
  end.
Proof.
  revert b. induction s as [|c t IH]; intros b H; simpl in *.
  - destruct b; [discriminate|]. split; [discriminate | constructor].
  - destruct (isWhiteSpace c) eqn:E.
    + apply andb_true_iff in H as [H Ht]. apply andb_true_iff in H as [Hb Hc].
      rewrite Hc. apply negb_true_iff in Hb. subst b.
      split; [discriminate|].
      specialize (IH true Ht). destruct (split SPACE t) as [|w ws]; [contradiction|].
      destruct IH as [Hw Hws]. constructor; [now apply Hw | exact Hws].
    + rewrite (isWhiteSpace_SPACE_false c E).
      specialize (IH false H). destruct (split SPACE t) as [|w ws]; [contradiction|].
      destruct IH as [_ Hws]. split; [discriminate | exact Hws].
Qed.

Lemma tokens_of_tidy (s : jsstring) :
  tidyFrom true s = true ->
  filter (fun token => (0 <? length token)%nat) (splitWhiteSpaceRuns false s)
  = split SPACE s
  /\ Forall (fun t => t <> []) (split SPACE s).
Proof.
  intros H. rewrite (splitWhiteSpaceRuns_tidyFrom s true H).
  pose proof (split_tidyFrom_nonempty s true H) as Hne.
  destruct (split SPACE s) as [|w ws]; [contradiction|].
  destruct Hne as [Hw Hws]. specialize (Hw eq_refl).
  assert (Hall : Forall (fun t : jsstring => t <> []) (w :: ws))
    by (constructor; assumption).
  split; [|exact Hall].
  clear - Hall. induction Hall as [|t l Ht _ IH]; [reflexivity|].
  simpl. destruct t; [congruence|]. simpl. now rewrite IH.
Qed.

(** A text with a unit that is not white space keeps one through
    white-space collapse and trim. *)
Lemma replaceWhiteSpaceRuns_keeps (s : jsstring) (b : bool) :
  existsb (fun c => negb (isWhiteSpace c)) s = true ->
  existsb (fun c => negb (isWhiteSpace c)) (replaceWhiteSpaceRuns b s) = true.
Proof.
  revert b. induction s as [|c t IH]; intros b H; [discriminate|].
  simpl in *. destruct (isWhiteSpace c) eqn:E; simpl in *.
  - destruct b; simpl; auto.
  - now rewrite E.
Qed.

Lemma trimStart_keeps (s : jsstring) :
  existsb (fun c => negb (isWhiteSpace c)) s = true ->
  existsb (fun c => negb (isWhiteSpace c)) (trimStart s) = true.
Proof.
  induction s as [|c t IH]; intros H; [discriminate|].
  simpl in *. destruct (isWhiteSpace c) eqn:E; simpl in *; [auto|].
  now rewrite E.
Qed.

Lemma trimEnd_keeps (s : jsstring) :
  existsb (fun c => negb (isWhiteSpace c)) s = true -> trimEnd s <> [].
Proof.
  induction s as [|c t IH]; intros H; [discriminate|].
  simpl in *. destruct (isWhiteSpace c) eqn:E; simpl in *.
  - specialize (IH H). destruct (trimEnd t); [congruence | discriminate].
  - destruct (trimEnd t); discriminate.
Qed.

Lemma isHebrewText_not_blank (x : jsstring) :
  isHebrewText x = true ->
  existsb (fun c => negb (isWhiteSpace c)) x = true.
Proof.
  unfold isHebrewText. induction x as [|c t IH]; [discriminate|].
  simpl. intros H. apply orb_true_iff in H as [H | H].
  - apply orb_true_iff. left. unfold isHebrewChar in H.
    apply andb_true_iff in H as [H1 H2].
    apply N.leb_le in H1, H2. unfold isWhiteSpace.
    repeat match goal with
           | |- context [?a <=? ?b] =>
               let E := fresh in destruct (a <=? b) eqn:E;
               [apply N.leb_le in E | apply N.leb_gt in E]
           | |- context [?a =? ?b] =>
               let E := fresh in destruct (a =? b) eqn:E;
               [apply N.eqb_eq in E | apply N.eqb_neq in E]
           end; simpl; try reflexivity; lia.
  - apply orb_true_iff. right. now apply IH.
Qed.

Lemma normalized_hebrew_tidyFrom (x : jsstring) :
  isHebrewText x = true -> tidyFrom true (normalizeHebrewText x) = true.
Proof.
  intros Hx.
  destruct (NormalizerTheorems.normalizeHebrewText_normal_form x) as (Ht & _).
  assert (Hne : normalizeHebrewText x <> []).
  { intros E. apply (f_equal (@length _)) in E. revert E.
    unfold normalizeHebrewText.
    rewrite <- (Forall2_length (fixFinalLetters_finalized _)).
    unfold replaceHebrewPunctuation, replaceChar. rewrite !length_map.
    intros E. apply length_zero_iff_nil in E. revert E.
    unfold trim. apply trimEnd_keeps, trimStart_keeps, replaceWhiteSpaceRuns_keeps.
    now apply isHebrewText_not_blank. }
  destruct (normalizeHebrewText x); [congruence | exact Ht].
Qed.

(** X4. The tokens of an analysis, joined by single spaces, give back its
    normalized text, and no token contains a space.  For a Hebrew input
    every token is non-empty, and the fallback of a failing tokenizer
    yields the very same tokens. *)
Theorem analyzeText_tokens env (x : jsstring) (w : World) :
  fails env DetectLanguage = false ->
  fails env NormalizeText = false ->
  exists analysis w',
    analyzeText env x w = (Ok analysis, w')
    /\ tokens analysis = split SPACE (normalizedText analysis)
    /\ join [SPACE] (tokens analysis) = normalizedText analysis
    /\ Forall (fun token => spaceFree token = true) (tokens analysis)
    /\ (if isHebrewText x
        then Forall (fun token => token <> []) (tokens analysis)
        else normalizedText analysis = x).
Proof.
  intros Hd Hn. rewrite analyzeText_run.
  unfold analysisOutcome. rewrite Hd, Hn.
  destruct (isHebrewText x) eqn:Hx; simpl.
  - destruct (tokens_of_tidy _ (normalized_hebrew_tidyFrom x Hx)) as [Htok Hne].
    eexists. eexists. split; [reflexivity|]. simpl.
    assert (E : (if fails env Tokenize
                 then split SPACE (normalizeHebrewText x)
                 else filter (fun token => (0 <? length token)%nat)
                        (splitWhiteSpaceRuns false (normalizeHebrewText x)))
                = split SPACE (normalizeHebrewText x))
      by (destruct (fails env Tokenize); [reflexivity | exact Htok]).
    rewrite E.
    split; [reflexivity|]. split; [apply join_split|].
    split; [apply split_spaceFree | exact Hne].
  - eexists. eexists. split; [reflexivity|]. simpl.
    split; [reflexivity|]. split; [apply join_split|].
    split; [apply split_spaceFree | reflexivity].
Qed.

Lemma analyzeText_tokens_witness :
  exists analysis w',
    analyzeText (Samples.sampleEnv [Tokenize]) Samples.sampleInput
      (Samples.sampleWorld ACTIVE) = (Ok analysis, w')
    /\ tokens analysis = split SPACE (normalizedText analysis)
    /\ join [SPACE] (tokens analysis) = normalizedText analysis
    /\ Forall (fun token => spaceFree token = true) (tokens analysis)
    /\ (if isHebrewText Samples.sampleInput
        then Forall (fun token => token <> []) (tokens analysis)
        else normalizedText analysis = Samples.sampleInput).
Proof.
  exact (@analyzeText_tokens (Samples.sampleEnv [Tokenize]) Samples.sampleInput
           (Samples.sampleWorld ACTIVE) eq_refl eq_refl).
Defined.

End AnalyzerExtras.

Module EntityExtras.

Import HebrewNLP EntityShape.
Local Open Scope nat_scope.

Section Scan.

Variable matchAt : jsstring -> option nat.
Hypothesis matchAt_length :
  forall t len, matchAt t = Some len -> 1 <= len <= length t.

Lemma scanAll_spans (s : jsstring) :
  forall skip idx0,
    Forall (fun m => idx0 + skip <= fst m
                     /\ snd m = firstn (length (snd m)) (skipn (fst m - idx0) s)
                     /\ 1 <= length (snd m)
                     /\ fst m - idx0 + length (snd m) <= length s)
           (scanAll matchAt skip idx0 s).
Proof.
  induction s as [|c t IH]; intros skip idx0; [constructor|].
  assert (Hshift :
            forall k,
              Forall (fun m => idx0 + S k <= fst m
                               /\ snd m = firstn (length (snd m))
                                            (skipn (fst m - idx0) (c :: t))
                               /\ 1 <= length (snd m)
                               /\ fst m - idx0 + length (snd m) <= length (c :: t))
                     (scanAll matchAt k (S idx0) t)).
  { intros k. eapply Forall_impl; [|apply (IH k (S idx0))].
    intros m (H1 & H2 & H3 & H4).
    replace (fst m - idx0) with (S (fst m - S idx0)) by lia.
    simpl. repeat split; try assumption; lia. }
  simpl. destruct skip as [|k]; [|apply Hshift].
  destruct (matchAt (c :: t)) as [len|] eqn:E.
  - destruct (matchAt_length E) as [Hlen1 Hlen2].
    assert (Hl : length (firstn len (c :: t)) = len)
      by (rewrite length_firstn; lia).
    constructor.
    + cbn [fst snd]. rewrite Hl, Nat.sub_diag.
      change (skipn 0 (c :: t)) with (c :: t).
      simpl length in Hlen2 |- *.
      split; [lia|]. split; [reflexivity|]. split; lia.
    + eapply Forall_impl; [|apply (Hshift (len - 1))].
      cbv beta. intros m (H1 & H2 & H3 & H4). repeat split; try assumption; lia.
  - eapply Forall_impl; [|apply (Hshift 0)].
    cbv beta. intros m (H1 & H2 & H3 & H4). repeat split; try assumption; lia.
Qed.

Lemma scanAll_sorted (s : jsstring) :
  forall skip idx0,
    StronglySorted (fun m1 m2 => fst m1 + length (snd m1) <= fst m2)
                   (scanAll matchAt skip idx0 s).
Proof.
  induction s as [|c t IH]; intros skip idx0; [constructor|].
  simpl. destruct skip as [|k]; [|apply IH].
  destruct (matchAt (c :: t)) as [len|] eqn:E; [|apply IH].
  destruct (matchAt_length E) as [Hlen1 Hlen2].
  constructor; [apply IH|].
  eapply Forall_impl; [|apply (scanAll_spans t (len - 1) (S idx0))].
  cbn [fst snd]. intros m (H1 & _). rewrite length_firstn. lia.
Qed.

End Scan.

Lemma spanLength_le (p : char -> bool) (s : jsstring) : spanLength p s <= length s.
Proof.
  induction s as [|c t IH]; simpl; [lia|]. destruct (p c); simpl; lia.
Qed.

Lemma matchDate_length t len : matchDate t = Some len -> 1 <= len <= length t.
Proof.
  unfold matchDate.
  do 10 (destruct t as [|? t]; [discriminate|]).
  match goal with |- (if ?b then _ else _) = _ -> _ => destruct b end;
    [|discriminate].
  intros [= <-]. simpl. lia.
Qed.

Lemma matchRun_length p t len : matchRun p t = Some len -> 1 <= len <= length t.
Proof.
  unfold matchRun. pose proof (spanLength_le p t).
  destruct (spanLength p t); [discriminate|]. intros [= <-]. lia.
Qed.

Lemma matchHebrewPair_length t len :
  matchHebrewPair t = Some len -> 1 <= len <= length t.
Proof.
  unfold matchHebrewPair.
  pose proof (spanLength_le isHebrewLetter t) as H1.
  destruct (spanLength isHebrewLetter t) as [|n] eqn:En; [discriminate|].
  pose proof (length_skipn (S n) t) as Hs.
  destruct (skipn (S n) t) as [|sp rest] eqn:Es; [discriminate|].
  destruct (sp =? SPACE)%N; [|discriminate].
  pose proof (spanLength_le isHebrewLetter rest) as H2.
  destruct (spanLength isHebrewLetter rest) as [|m]; [discriminate|].
  intros [= <-]. simpl in Hs. lia.
Qed.

Lemma entitiesOf_by_pattern (s : jsstring) :
  entitiesOf s
  = entitiesWith matchDate DATE s
    ++ entitiesWith (matchRun isDigit) NUMBER s
    ++ entitiesWith matchHebrewPair PERSON s.
Proof. unfold entitiesOf, patterns. simpl. now rewrite app_nil_r. Qed.

Lemma entitiesWith_spans matchAt ty (s : jsstring) :
  (forall t len, matchAt t = Some len -> 1 <= len <= length t) ->
  Forall (fun e => ent_text e <> []
                   /\ ent_endIndex e = ent_startIndex e + length (ent_text e)
                   /\ ent_endIndex e <= length s
                   /\ ent_text e
                      = substring s (ent_startIndex e) (ent_endIndex e))
         (entitiesWith matchAt ty s).
Proof.
  intros Hm. unfold entitiesWith. apply Forall_map.
  eapply Forall_impl; [|apply (@scanAll_spans matchAt Hm s 0 0)].
  cbn [ent_text ent_startIndex ent_endIndex].
  intros [i t0] (H1 & H2 & H3 & H4). cbn [fst snd] in *.
  rewrite Nat.sub_0_r in *.
  split; [intros ->; simpl in H3; lia|].
  split; [reflexivity|]. split; [lia|].
  unfold substring. now replace (i + length t0 - i) with (length t0) by lia.
Qed.

Lemma entitiesWith_sorted matchAt ty (s : jsstring) :
  (forall t len, matchAt t = Some len -> 1 <= len <= length t) ->
  StronglySorted precedes (entitiesWith matchAt ty s).
Proof.
  intros Hm. unfold entitiesWith.
  pose proof (@scanAll_sorted matchAt Hm s 0 0) as H.
  induction H as [|m l _ IH Hall]; simpl; constructor; [exact IH|].
  apply Forall_map. eapply Forall_impl; [|exact Hall].
  intros m' Hle. exact Hle.
Qed.

Lemma filter_type_entitiesWith matchAt ty ty' (s : jsstring) :
  filter (fun e => entityType_eqb (ent_type e) ty') (entitiesWith matchAt ty s)
  = if entityType_eqb ty ty' then entitiesWith matchAt ty s else [].
Proof.
  unfold entitiesWith.
  induction (scanAll matchAt 0 0 s) as [|m l IH]; simpl.
  - now destruct (entityType_eqb ty ty').
  - rewrite IH. now destruct (entityType_eqb ty ty').
Qed.

(** X5. Every entity that [extractEntities] finds is a non-empty piece of
    the text it was given: its text is the substring between its start and
    end index, the end index lies within the text, and its length is the
    difference of the two.  The entities of one type are listed from left
    to right and never overlap. *)
Theorem entitiesOf_spans (s : jsstring) :
  Forall (fun e => ent_text e <> []
                   /\ ent_endIndex e = ent_startIndex e + length (ent_text e)
                   /\ ent_endIndex e <= length s
                   /\ ent_text e
                      = substring s (ent_startIndex e) (ent_endIndex e))
         (entitiesOf s)
  /\ (forall ty, StronglySorted precedes
                   (filter (fun e => entityType_eqb (ent_type e) ty)
                           (entitiesOf s))).
Proof.
  rewrite entitiesOf_by_pattern. split.
  - repeat (apply Forall_app; split); apply entitiesWith_spans;
      [apply matchDate_length | apply matchRun_length
      | apply matchHebrewPair_length].
  - intros ty. rewrite !filter_app, !filter_type_entitiesWith.
    destruct ty; simpl; rewrite ?app_nil_r;
      try constructor; apply entitiesWith_sorted;
      [apply matchHebrewPair_length | apply matchDate_length
      | apply matchRun_length].
Qed.

End EntityExtras.

Module SummaryExtras.

Import Shape MoreShape JsStringFacts HebrewSummary.
Local Open Scope nat_scope.

Lemma join_firstn_prefix (ws : list jsstring) (n : nat) :
  Prefix (join [SPACE] (firstn n ws)) (join [SPACE] ws).
Proof.
  revert n. induction ws as [|w ws IH]; intros n.
  - rewrite firstn_nil. now exists [].
  - destruct n as [|n]; [now exists (join [SPACE] (w :: ws))|].
    simpl firstn. destruct ws as [|w' ws'].
    + rewrite firstn_nil. exists []. simpl. now rewrite app_nil_r.
    + rewrite (@join_cons [SPACE] w (w' :: ws')) by discriminate.
      destruct n as [|n].
      * simpl. now exists ([SPACE] ++ join [SPACE] (w' :: ws')).
      * destruct (IH (S n)) as [rest Hrest].
        rewrite join_cons by (simpl; discriminate).
        exists rest. rewrite Hrest. now rewrite <- !app_assoc.
Qed.

(** X6. [summarize] returns a text of at most [maxLength] words as it is.
    A longer text is cut after its first [maxLength] words: the summary is a
    prefix of the text followed by three dots, and never more than three
    units longer than the text. *)
Theorem summarize_shape (text : jsstring) (maxLength : nat) :
  if length (split SPACE text) <=? maxLength
  then summarize text maxLength = text
  else exists kept,
      summarize text maxLength = kept ++ lit "..."
      /\ Prefix kept text
      /\ (if maxLength =? 0 then kept = []
          else split SPACE kept = firstn maxLength (split SPACE text)
               /\ length (split SPACE kept) = maxLength)
      /\ length (summarize text maxLength) <= length text + 3.
Proof.
  unfold summarize.
  destruct (length (split SPACE text) <=? maxLength) eqn:E; [reflexivity|].
  apply Nat.leb_gt in E.
  exists (join [SPACE] (firstn maxLength (split SPACE text))).
  assert (Hpre : Prefix (join [SPACE] (firstn maxLength (split SPACE text))) text).
  { rewrite <- (join_split SPACE text) at 2. apply join_firstn_prefix. }
  split; [reflexivity|]. split; [exact Hpre|]. split.
  - destruct maxLength as [|n]; [reflexivity|]. simpl Nat.eqb. cbv iota.
    assert (Hsplit : split SPACE (join [SPACE] (firstn (S n) (split SPACE text)))
                     = firstn (S n) (split SPACE text)).
    { apply split_join.
      - destruct (split SPACE text); [simpl in E; lia | discriminate].
      - apply Forall_forall. intros w Hin.
        pose proof (split_spaceFree text) as Hall.
        rewrite Forall_forall in Hall. apply Hall.
        rewrite <- (firstn_skipn (S n) (split SPACE text)).
        apply in_or_app. now left. }
    split; [exact Hsplit|]. rewrite Hsplit, length_firstn. lia.
  - destruct Hpre as [rest Hrest]. rewrite length_app.
    rewrite Hrest at 2. rewrite length_app. simpl. lia.
Qed.

End SummaryExtras.

(** ** The agent engine *)

Module EngineExtras.

Import Shape MoreShape Retrieval JsStringFacts.
Import HebrewNLP VectorStore AgentEngine Frame Policy EffectFacts EngineFacts.
Local Open Scope nat_scope.

(** *** Direction marks *)

Lemma stripMarks_wrapRuns (p : char -> bool) (b : bool) (s : jsstring) :
  stripMarks (wrapRuns p b s) = stripMarks s.
Proof.
  revert b. induction s as [|c t IH]; intros b.
  - destruct b; reflexivity.
  - simpl wrapRuns. unfold stripMarks in *.
    destruct (p c), b; simpl; rewrite ?IH; reflexivity.
Qed.

Lemma wrapRuns_balance (p : char -> bool) (b : bool) (s : jsstring) :
  count_occ N.eq_dec (wrapRuns p b s) PDF + count_occ N.eq_dec s LRO
  = count_occ N.eq_dec (wrapRuns p b s) LRO + count_occ N.eq_dec s PDF
    + (if b then 1 else 0).
Proof.
  revert b. induction s as [|c t IH]; intros b.
  - destruct b; reflexivity.
  - pose proof (IH true) as Ht. pose proof (IH false) as Hf.
    simpl wrapRuns. unfold LRO, PDF in *.
    destruct (p c), b; cbn [count_occ];
      repeat match goal with
             | |- context [N.eq_dec ?x ?y] => destruct (N.eq_dec x y)
             end;
      try (exfalso; congruence); try (subst; discriminate); lia.
Qed.

(** X7. [fixRTLFormatting] only inserts direction marks, and it inserts them
    in pairs: without the marks U+202D and U+202C its result reads as its
    input does, and it adds as many closing marks as opening marks. *)
Theorem fixRTLFormatting_marks (s : jsstring) :
  stripMarks (fixRTLFormatting s) = stripMarks s
  /\ count_occ N.eq_dec (fixRTLFormatting s) PDF + count_occ N.eq_dec s LRO
     = count_occ N.eq_dec (fixRTLFormatting s) LRO + count_occ N.eq_dec s PDF.
Proof.
  unfold fixRTLFormatting. split.
  - now rewrite !stripMarks_wrapRuns.
  - pose proof (wrapRuns_balance isDigit false s) as H1.
    pose proof (wrapRuns_balance isAsciiLetter false (wrapRuns isDigit false s))
      as H2.
    cbv iota in H1, H2. lia.
Qed.

(** *** The model registry *)

Lemma existsb_eqb_In (name : jsstring) (l : list jsstring) :
  existsb (JsString.eqb name) l = true <-> In name l.
Proof.
  rewrite existsb_exists. split.
  - intros (x & Hin & E). apply eqb_eq in E. now subst.
  - intros Hin. exists name. split; [exact Hin | apply eqb_refl].
Qed.

(** The choice of the model: a registered name is used as it is, any
    other name falls back to gpt-4. *)
Lemma selectModel_cases (name : jsstring) :
  In (selectModel name) models
  /\ (In name models /\ selectModel name = name
      \/ ~ In name models /\ selectModel name = lit "gpt-4").
Proof.
  unfold selectModel.
  destruct (existsb (JsString.eqb name) models) eqn:E.
  - apply existsb_eqb_In in E. split; [exact E | left; split; [exact E | reflexivity]].
  - split; [left; reflexivity|]. right. split; [|reflexivity].
    intros Hin. apply existsb_eqb_In in Hin. congruence.
Qed.

(** *** Suggested actions *)

Lemma trimStart_head (s : jsstring) :
  match trimStart s with
  | [] => True
  | c :: _ => isWhiteSpace c = false
  end.
Proof.
  induction s as [|c t IH]; simpl; [exact I|].
  destruct (isWhiteSpace c) eqn:E; [exact IH | exact E].
Qed.

Lemma trimEnd_idempotent (s : jsstring) : trimEnd (trimEnd s) = trimEnd s.
Proof.
  induction s as [|c t IH]; [reflexivity|].
  simpl. destruct (trimEnd t) as [|d u] eqn:E.
  - destruct (isWhiteSpace c) eqn:Ec; [reflexivity|]. simpl. now rewrite Ec.
  - change (trimEnd (c :: d :: u)) with
      (match trimEnd (d :: u) with
       | [] => if isWhiteSpace c then [] else [c]
       | t' => c :: t'
       end).
    now rewrite IH.
Qed.

Lemma trimEnd_head (c : char) (t : jsstring) :
  isWhiteSpace c = false -> exists u, trimEnd (c :: t) = c :: u.
Proof.
  intros Hc. simpl. destruct (trimEnd t) as [|d u].
  - rewrite Hc. now exists [].
  - now exists (d :: u).
Qed.

Lemma trim_idempotent (s : jsstring) : trim (trim s) = trim s.
Proof.
  unfold trim. pose proof (trimStart_head s) as H.
  destruct (trimStart s) as [|c t]; [reflexivity|].
  destruct (trimEnd_head c t H) as [u Hu]. rewrite Hu.
  replace (trimStart (c :: u)) with (c :: u) by (simpl; now rewrite H).
  rewrite <- Hu. apply trimEnd_idempotent.
Qed.

Lemma lazyUntilQuestionMark_none (s : jsstring) :
  ~ In 0x3F%N s -> lazyUntilQuestionMark s = None.
Proof.
  induction s as [|c t IH]; intros H; [reflexivity|].
  simpl. destruct (N.eqb_spec c 0x3F) as [-> | Hc].
  - exfalso. apply H. now left.
  - destruct (isLineTerminator c); [reflexivity|].
    rewrite IH; [reflexivity|]. intros Hin. apply H. now right.
Qed.

Lemma matchAction_none (prefix s : jsstring) :
  ~ In 0x3F%N s -> matchAction prefix s = None.
Proof.
  intros H. unfold matchAction.
  destruct (startsWith prefix s); [|reflexivity].
  assert (Hskip : ~ In 0x3F%N (skipn (length prefix) s)).
  { intros Hin. apply H. rewrite <- (firstn_skipn (length prefix) s).
    apply in_or_app. now right. }
  destruct (skipn (length prefix) s) as [|c rest]; [reflexivity|].
  destruct (isLineTerminator c); [reflexivity|].
  rewrite lazyUntilQuestionMark_none; [reflexivity|].
  intros Hin. apply Hskip. now right.
Qed.

Lemma scanAll_none (matchAt : jsstring -> option nat) (s : jsstring) :
  (forall t, (exists pre, s = pre ++ t) -> matchAt t = None) ->
  forall skip idx, scanAll matchAt skip idx s = [].
Proof.
  induction s as [|c t IH]; intros H skip idx; [reflexivity|].
  assert (Ht : forall u, (exists pre, t = pre ++ u) -> matchAt u = None).
  { intros u [pre ->]. apply H. now exists (c :: pre). }
  simpl. destruct skip; [|now apply IH].
  rewrite (H (c :: t)) by (now exists []). now apply IH.
Qed.

(** X9. Every suggested action is trimmed: taking leading and trailing
    white space away from it changes nothing. *)
Theorem extractSuggestedActions_trimmed (s : jsstring) :
  Forall (fun action => trim action = action) (extractSuggestedActions s).
Proof.
  unfold extractSuggestedActions. apply Forall_forall. intros a Hin.
  apply in_flat_map in Hin as (prefix & _ & Hin).
  apply in_map_iff in Hin as (m & <- & _).
  apply trim_idempotent.
Qed.

(** X10. A reply without a question mark suggests no action. *)
Theorem extractSuggestedActions_needs_question (s : jsstring) :
  ~ In 0x3F%N s -> extractSuggestedActions s = [].
Proof.
  intros H. unfold extractSuggestedActions.
  induction actionPrefixes as [|prefix l IH]; [reflexivity|].
  simpl. rewrite IH, app_nil_r.
  rewrite scanAll_none; [reflexivity|].
  intros t [pre ->]. apply matchAction_none.
  intros Hin. apply H. apply in_or_app. now right.
Qed.

Lemma extractSuggestedActions_needs_question_witness :
  extractSuggestedActions (lit "Would you like me to book a table") = [].
Proof.
  apply extractSuggestedActions_needs_question.
  vm_compute. intuition discriminate.
Defined.

End EngineExtras.

Module TurnExtras.

Import Shape MoreShape Retrieval JsStringFacts.
Import HebrewNLP VectorStore AgentEngine Frame Policy Samples.
Import EffectFacts EngineFacts.
Local Open Scope nat_scope.

(** X11. Retrieval absorbs its failures.  When the embedding call fails, no
    request is sent to the index; when the search call fails, the request
    was sent; in both cases [getRelevantContext] logs the error twice (once
    in the store, once in the engine) and returns no chunk.  Otherwise it
    returns the contents of the hits in their order. *)
Theorem getRelevantContext_outcome env (agentId query : jsstring)
        (limit : nat) (w : World) :
  let request := agentRequest env agentId query limit in
  getRelevantContext env agentId query limit w
  = if fails env EmbedQuery then
      (Ok [],
       appendTrace w
         [ Logged Err (lit "Vector search failed:") (Some (Failure EmbedQuery));
           Logged Err (lit "Failed to get relevant context:")
                  (Some (Failure EmbedQuery)) ])
    else if fails env QdrantSearch then
      (Ok [],
       appendTrace w
         [ Searched request;
           Logged Err (lit "Vector search failed:") (Some (Failure QdrantSearch));
           Logged Err (lit "Failed to get relevant context:")
                  (Some (Failure QdrantSearch)) ])
    else
      (Ok (List.map (fun hit => pl_content (pt_payload (hit_point hit)))
             (qdrantSearch env (w_points w) request)),
       appendTrace w [Searched request]).
Proof.
  intros request.
  unfold getRelevantContext, similaritySearch, tryCatch, bind, at_site,
    logError, record, get, ret, throw, appendTrace.
  destruct (fails env EmbedQuery); [reflexivity|]. simpl.
  destruct (fails env QdrantSearch); [reflexivity|]. simpl.
  now rewrite map_map.
Qed.

(** *** The model that is invoked *)

Lemma invokedModels_app (evs evs' : list Event) :
  invokedModels (evs ++ evs') = invokedModels evs ++ invokedModels evs'.
Proof. unfold invokedModels. apply flat_map_app. Qed.

Lemma noInvocation_refl (w : World) : NoInvocation w w.
Proof. exists []. now rewrite app_nil_r. Qed.

Lemma noInvocation_trans (w1 w2 w3 : World) :
  NoInvocation w1 w2 -> NoInvocation w2 w3 -> NoInvocation w1 w3.
Proof.
  intros (new & H & Hnew) (new' & H' & Hnew'). exists (new ++ new').
  split; [now rewrite H', H, app_assoc|].
  now rewrite invokedModels_app, Hnew, Hnew'.
Qed.

Lemma noInvocation_logged level message error :
  Respects NoInvocation (record (Logged level message error)).
Proof. intros w. now exists [Logged level message error]. Qed.

Lemma noInvocation_searched request :
  Respects NoInvocation (record (Searched request)).
Proof. intros w. now exists [Searched request]. Qed.

Lemma noInvocation_messageCreate env site id role content meta :
  Respects NoInvocation (Prisma.messageCreate env site id role content meta).
Proof.
  unfold Prisma.messageCreate.
  apply (@respects_at_site NoInvocation noInvocation_refl).
  intros w. exists []. simpl. now rewrite app_nil_r.
Qed.

(** Splits a goal [Respects NoInvocation m] along the structure of [m]. *)
Ltac no_invocation :=
  repeat first
    [ apply (@respects_ret NoInvocation noInvocation_refl)
    | apply (@respects_throw NoInvocation noInvocation_refl)
    | apply (@respects_get NoInvocation noInvocation_refl)
    | apply noInvocation_logged
    | apply noInvocation_searched
    | apply noInvocation_messageCreate
    | apply (@respects_at_site NoInvocation noInvocation_refl)
    | apply (@respects_bind NoInvocation noInvocation_trans)
    | apply (@respects_tryCatch NoInvocation noInvocation_trans)
    | progress intros
    | match goal with
      | |- Respects _ (if ?b then _ else _) => destruct b
      | |- Respects _ (match ?x with _ => _ end) => destruct x
      end
    | assumption ].

Lemma noInvocation_analyzeText env s :
  Respects NoInvocation (analyzeText env s).
Proof.
  unfold analyzeText, tokenize, extractEntities, analyzeSentiment, addNikud,
    logError, logInfo.
  no_invocation.
Qed.

Lemma noInvocation_getRelevantContext env agentId query limit :
  Respects NoInvocation (getRelevantContext env agentId query limit).
Proof.
  unfold getRelevantContext, similaritySearch, logError. no_invocation.
Qed.

Lemma noInvocation_postProcessResponse env reply hebrew :
  Respects NoInvocation (postProcessResponse env reply hebrew).
Proof.
  pose proof (noInvocation_analyzeText env) as Ha.
  unfold postProcessResponse. no_invocation; apply Ha.
Qed.

Lemma noInvocation_saveMessages env context assistantContent :
  Respects NoInvocation (saveMessages env context assistantContent).
Proof. unfold saveMessages, logError. no_invocation. Qed.

Lemma invoke_split {B} env model messages (k : jsstring -> M B) (w : World) :
  bind (invoke env model messages) k w
  = bind (at_site env ModelInvoke (ret (modelReply env model messages))) k
         (appendTrace w [Invoked model messages]).
Proof. reflexivity. Qed.

(** X8. [processMessage] invokes a model at most once, and always one of
    the three registered ones: when the analysis of the input returns, the
    only model invoked is the one the agent names, if that is registered,
    and gpt-4 otherwise; when the analysis throws, no model is invoked.
    Nothing is ever taken from the trace. *)
Theorem processMessage_invokes_registered env context (w : World) :
  let name := agent_model (agent context) in
  exists new,
    w_trace (snd (processMessage env context w)) = w_trace w ++ new
    /\ invokedModels new
       = match analysisOutcome env (userInput context) with
         | Ok _ => [selectModel name]
         | Throw _ => []
         end
    /\ In (selectModel name) models
    /\ (In name models /\ selectModel name = name
        \/ ~ In name models /\ selectModel name = lit "gpt-4").
Proof.
  intros name.
  assert (Hmodels := EngineExtras.selectModel_cases name).
  destruct (analysisOutcome env (userInput context)) as [ta | e] eqn:Hta.
  - set (w1 := appendTrace w (analysisLog env (userInput context))).
    assert (H1 : NoInvocation w w1).
    { pose proof (noInvocation_analyzeText env (userInput context) w) as H.
      now rewrite analyzeText_run in H. }
    set (w2 := snd (logInfo (lit "Text analysis completed") w1)).
    assert (H2 : NoInvocation w1 w2) by apply noInvocation_logged.
    pose proof (noInvocation_getRelevantContext env (agent_id (agent context))
                  (normalizedText ta) 5 w2) as H3.
    destruct (getRelevantContext_total env (agent_id (agent context))
                (normalizedText ta) 5 w2) as (docs & w3 & Hdocs & _).
    rewrite Hdocs in H3. cbn [snd] in H3.
    set (messages := buildMessages context ta docs).
    set (w4 := appendTrace w3 [Invoked (selectModel name) messages]).
    set (rest :=
           bind (at_site env ModelInvoke
                   (ret (modelReply env (selectModel name) messages)))
                (fun response =>
                   bind (postProcessResponse env response (isHebrew ta))
                        (fun processedResponse =>
                           bind (saveMessages env context
                                   (content processedResponse))
                                (fun _ => ret processedResponse)))).
    set (handler := fun error : Error =>
                      bind (logError (lit "Agent engine error:") error)
                           (fun _ => @throw AgentResponse error)).
    assert (Hrun : processMessage env context w = tryCatch rest handler w4).
    { unfold processMessage, tryCatch.
      erewrite bind_ok by (rewrite analyzeText_run, Hta; reflexivity).
      erewrite bind_ok by reflexivity.
      erewrite bind_ok by exact Hdocs.
      cbv zeta. rewrite invoke_split. reflexivity. }
    assert (H4 : NoInvocation w4 (snd (processMessage env context w))).
    { assert (Hrest : Respects NoInvocation (tryCatch rest handler)).
      { pose proof (noInvocation_postProcessResponse env) as Hp.
        pose proof (noInvocation_saveMessages env context) as Hs.
        unfold rest, handler, logError.
        no_invocation; first [apply Hp | apply Hs]. }
      rewrite Hrun. apply Hrest. }
    destruct (noInvocation_trans (noInvocation_trans H1 H2) H3)
      as (before & Hbefore & Hnone).
    destruct H4 as (after & Hafter & Hnone').
    exists (before ++ [Invoked (selectModel name) messages] ++ after).
    split.
    { rewrite Hafter. unfold w4. rewrite appendTrace_trace, Hbefore.
      now rewrite <- !app_assoc. }
    split; [|exact Hmodels].
    rewrite !invokedModels_app, Hnone, Hnone'. reflexivity.
  - rewrite (@TurnTheorems.processMessage_analysis_throw env context w e Hta).
    eexists. split; [apply appendTrace_trace|].
    split; [|exact Hmodels].
    pose proof (noInvocation_analyzeText env (userInput context) w)
      as (new & Hnew & Hnone).
    rewrite analyzeText_run in Hnew. cbn [snd] in Hnew.
    rewrite appendTrace_trace in Hnew. apply app_inv_head in Hnew.
    now rewrite invokedModels_app, Hnew, Hnone.
Qed.

Lemma processMessage_invoke_throws env context (w : World) :
  fails env DetectLanguage = false ->
  fails env NormalizeText = false ->
  fails env ModelInvoke = true ->
  exists (earlier : list Event) (w' : World),
    processMessage env context w = (Throw (Failure ModelInvoke), w')
    /\ tables w' = tables w
    /\ w_trace w'
       = earlier ++ [Logged Err (lit "Agent engine error:")
                            (Some (Failure ModelInvoke))].
Proof.
  intros Hd Hn Hi.
  destruct (analysisOutcome_ok env (userInput context) Hd Hn)
    as (ta & Hta & _).
  set (w1 := appendTrace w (analysisLog env (userInput context))).
  set (w2 := snd (logInfo (lit "Text analysis completed") w1)).
  destruct (getRelevantContext_total env (agent_id (agent context))
              (normalizedText ta) 5 w2) as (docs & w3 & Hdocs & Ht3).
  set (messages := buildMessages context ta docs).
  set (model := selectModel (agent_model (agent context))).
  set (w4 := appendTrace w3 [Invoked model messages]).
  assert (Hinvoke : invoke env model messages w3 = (Throw (Failure ModelInvoke), w4)).
  { unfold invoke, bind, at_site, record, throw. simpl. now rewrite Hi. }
  exists (w_trace w4).
  exists (snd (logError (lit "Agent engine error:") (Failure ModelInvoke) w4)).
  split.
  { unfold processMessage.
    erewrite tryCatch_throw.
    2:{ erewrite bind_ok by (rewrite analyzeText_run, Hta; reflexivity).
        erewrite bind_ok by reflexivity.
        erewrite bind_ok by exact Hdocs.
        apply bind_throw. exact Hinvoke. }
    reflexivity. }
  split; [|reflexivity].
  simpl. unfold w4. change (tables (appendTrace w3 [Invoked model messages])
                            = tables w).
  rewrite appendTrace_tables, Ht3. unfold w2, w1. simpl.
  apply (appendTrace_tables w).
Qed.


Lemma processMessage_completes env context (w : World) :
  fails env DetectLanguage = false ->
  fails env NormalizeText = false ->
  fails env ModelInvoke = false ->
  exists (response : AgentResponse) (w5 w' : World),
    processMessage env context w = (Ok response, w')
    /\ tables w5 = tables w
    /\ saveMessages env context (content response) w5 = (Ok tt, w')
    /\ w_messages w'
       = w_messages w ++ persisted env context (content response)
    /\ w_conversations w' = w_conversations w.
Proof.
  intros Hd Hn Hi.
  destruct (analysisOutcome_ok env (userInput context) Hd Hn)
    as (ta & Hta & _).
  set (w1 := appendTrace w (analysisLog env (userInput context))).
  set (w2 := snd (logInfo (lit "Text analysis completed") w1)).
  destruct (getRelevantContext_total env (agent_id (agent context))
              (normalizedText ta) 5 w2) as (docs & w3 & Hdocs & Ht3).
  set (messages := buildMessages context ta docs).
  set (model := selectModel (agent_model (agent context))).
  set (w4 := appendTrace w3 [Invoked model messages]).
  destruct (postProcessResponse_total env (modelReply env model messages)
              (isHebrew ta) w4 Hd Hn) as (pr & w5 & Hpp & Ht5).
  destruct (saveMessages_run env context (content pr) w5)
    as (w6 & Hsave & Hmsgs & Htrace & Hconv).
  assert (Ht : tables w5 = tables w).
  { rewrite Ht5. unfold w4. rewrite appendTrace_tables, Ht3.
    unfold w2, w1. simpl. apply (appendTrace_tables w). }
  exists pr, w5, w6.
  split.
  { unfold processMessage. apply tryCatch_ok.
    erewrite bind_ok by (rewrite analyzeText_run, Hta; reflexivity).
    erewrite bind_ok by reflexivity.
    erewrite bind_ok by exact Hdocs.
    erewrite bind_ok by (apply invoke_run; exact Hi).
    erewrite bind_ok by exact Hpp.
    erewrite bind_ok by exact Hsave.
    reflexivity. }
  split; [exact Ht|]. split; [exact Hsave|].
  unfold tables in Ht.
  split; [rewrite Hmsgs; congruence | rewrite Hconv; congruence].
Qed.

(** X12. A failing model call fails the turn before anything is
    persisted: [processMessage] throws the provider's error, the tables are
    as they were (no USER row is left behind), and the last thing it does is
    to log the error. *)
Theorem processMessage_model_failure env context (w : World) :
  fails env DetectLanguage = false ->
  fails env NormalizeText = false ->
  fails env ModelInvoke = true ->
  exists (earlier : list Event) (w' : World),
    processMessage env context w = (Throw (Failure ModelInvoke), w')
    /\ tables w' = tables w
    /\ w_trace w'
       = earlier ++ [Logged Err (lit "Agent engine error:")
                            (Some (Failure ModelInvoke))].
Proof. apply processMessage_invoke_throws. Qed.

Lemma processMessage_model_failure_witness :
  exists (earlier : list Event) (w' : World),
    processMessage (sampleEnv [ModelInvoke]) sampleContext (sampleWorld ACTIVE)
    = (Throw (Failure ModelInvoke), w')
    /\ tables w' = tables (sampleWorld ACTIVE)
    /\ w_trace w'
       = earlier ++ [Logged Err (lit "Agent engine error:")
                            (Some (Failure ModelInvoke))].
Proof.
  exact (@processMessage_model_failure (sampleEnv [ModelInvoke]) sampleContext
           (sampleWorld ACTIVE) eq_refl eq_refl eq_refl).
Defined.

End TurnExtras.

(** ** Permissions *)

Module PermissionExtras.

Import Shape MoreShape JsStringFacts.
Import Permissions Frame Policy EffectFacts.
Local Open Scope nat_scope.

(** X13. The organization roles form a ladder: whatever a VIEWER may do a
    MEMBER may do, whatever a MEMBER may do an ADMIN may do, and whatever
    an ADMIN may do an OWNER may do.  Each of the four roles may read every
    resource; a role outside the table may do nothing. *)
Theorem checkOrgRolePermission_ladder (action : Action) (resource : Resource) :
  implb (checkOrgRolePermission (lit "VIEWER") action resource)
        (checkOrgRolePermission (lit "MEMBER") action resource) = true
  /\ implb (checkOrgRolePermission (lit "MEMBER") action resource)
           (checkOrgRolePermission (lit "ADMIN") action resource) = true
  /\ implb (checkOrgRolePermission (lit "ADMIN") action resource)
           (checkOrgRolePermission (lit "OWNER") action resource) = true
  /\ Forall (fun role => checkOrgRolePermission role read resource = true)
            [lit "OWNER"; lit "ADMIN"; lit "MEMBER"; lit "VIEWER"]
  /\ (forall role,
         In role [lit "OWNER"; lit "ADMIN"; lit "MEMBER"; lit "VIEWER"]
         \/ checkOrgRolePermission role action resource = false).
Proof.
  split; [destruct action, resource; reflexivity|].
  split; [destruct action, resource; reflexivity|].
  split; [destruct action, resource; reflexivity|].
  split; [repeat constructor; destruct resource; reflexivity|].
  intros role. unfold checkOrgRolePermission, permissions.
  destruct (JsString.eqb role (lit "OWNER")) eqn:E1;
    [apply eqb_eq in E1; subst; left; simpl; auto|].
  destruct (JsString.eqb role (lit "ADMIN")) eqn:E2;
    [apply eqb_eq in E2; subst; left; simpl; auto|].
  destruct (JsString.eqb role (lit "MEMBER")) eqn:E3;
    [apply eqb_eq in E3; subst; left; simpl; auto|].
  destruct (JsString.eqb role (lit "VIEWER")) eqn:E4;
    [apply eqb_eq in E4; subst; left; simpl; auto 6|].
  now right.
Qed.

(** X14. [checkPermission] reads and never writes: the world after it is the
    world before it.  It never returns [false]: it returns [true], or throws
    an error of status 403, or fails with the error of the membership
    lookup.  A user whose platform role is ADMIN passes without the lookup,
    and so does anyone when the resource has no organization id. *)
Theorem checkPermission_outcome env (user : User) (action : Action)
        (resource : Resource) (org : jsstring) (w : World) :
  let result := fst (checkPermission env user action resource org w) in
  snd (checkPermission env user action resource org w) = w
  /\ (result = Ok true
      \/ result = Throw (AppError (lit "Access denied") 403)
      \/ result = Throw (AppError (lit "Insufficient permissions") 403)
      \/ result = Throw (Failure FindUserOrganization))
  /\ (if JsString.eqb (user_role user) (lit "ADMIN") || (length org =? 0)
      then result = Ok true
      else if fails env FindUserOrganization
           then result = Throw (Failure FindUserOrganization)
           else result <> Throw (Failure FindUserOrganization)).
Proof.
  unfold checkPermission, Prisma.userOrganizationFindFirst,
    at_site, bind, get, ret, throw.
  destruct (JsString.eqb (user_role user) (lit "ADMIN")); simpl; [auto|].
  destruct org as [|c org']; simpl; [auto|].
  destruct (fails env FindUserOrganization); simpl; [auto 6|].
  destruct (find _ (w_userOrganizations w)) as [uo|]; simpl.
  - destruct (checkOrgRolePermission (uo_role uo) action resource); simpl;
      (split; [reflexivity|]); (split; [auto 6 | discriminate]).
  - split; [reflexivity|]. split; [auto 6 | discriminate].
Qed.

End PermissionExtras.

(** ** The conversation routes, continued *)

Module RouteExtras.

Import Shape MoreShape RouteShape JsStringFacts.
Import AgentEngine Conversations Permissions Frame Policy Samples MoreSamples.
Import EffectFacts EngineFacts RouteFacts TurnExtras.
Local Open Scope nat_scope.

Lemma mayUpdate_run env req agt (w : World) :
  mayUpdate env req agt w ->
  checkPermission env (req_user req) update conversation_
    (agent_organizationId agt) w = (Ok true, w).
Proof.
  unfold mayUpdate. intros H.
  rewrite (surjective_pairing (checkPermission _ _ _ _ _ _)).
  now rewrite H, RouteTheorems.checkPermission_world.
Qed.


Lemma turnSucceeds_sites env :
  turnSucceeds env = true ->
  fails env DetectLanguage = false /\ fails env NormalizeText = false
  /\ fails env ModelInvoke = false /\ fails env CreateUserMessage = false
  /\ fails env CreateAssistantMessage = false.
Proof.
  unfold turnSucceeds. intros H.
  repeat (apply andb_true_iff in H as [H ?]).
  repeat match goal with
         | H : negb _ = true |- _ => apply negb_true_iff in H
         end.
  auto.
Qed.

(** Runs [postMessage] up to the call of the engine. *)
Ltac enter_postMessage Hvalid Hread Hconv Hagent Hactive Hmay :=
  unfold postMessage;
  unfold validMessageRequest in Hvalid; rewrite Hvalid;
  change (negb true) with false; cbv iota zeta;
  erewrite bind_ok
    by (apply RouteTheorems.conversationFindUniqueWithMessages_found;
        [exact Hread | exact Hconv | exact Hagent]);
  cbv beta iota; rewrite Hactive;
  change (negb true) with false; cbv iota;
  erewrite bind_ok by (apply mayUpdate_run; exact Hmay);
  erewrite bind_ok by reflexivity.

(** X15. A valid message to an ACTIVE conversation, by a user who may
    update it, with analysis, model and database working: the route answers
    with the reply of the engine, the conversation gains exactly the USER
    row and then the ASSISTANT row carrying that reply, no conversation row
    changes (the status stays ACTIVE), and the last event is the
    [message:new] emitted to the room of the conversation. *)
Theorem postMessage_completes env req (w : World) (conv : Conversation)
        (agt : Agent) :
  validMessageRequest env req = true ->
  fails env FindConversation = false ->
  stored w (req_id req) conv agt ->
  status_eqb (conv_status conv) ACTIVE = true ->
  mayUpdate env req agt w ->
  turnSucceeds env = true ->
  let context := turnContext agt conv w req in
  exists (response : AgentResponse) (earlier : list Event) (payload : Json)
         (w' : World),
    postMessage env req w = (Ok (MessageReply response), w')
    /\ w_messages w'
       = w_messages w ++ [ userMessage env context;
                           assistantMessage env context (content response) ]
    /\ w_conversations w' = w_conversations w
    /\ w_trace w'
       = earlier ++ [Emitted (lit "conversation:" ++ req_id req)
                             (lit "message:new") payload].
Proof.
  intros Hvalid Hread [Hconv Hagent] Hactive Hmay Hturn context.
  destruct (turnSucceeds_sites env Hturn) as (Hd & Hn & Hi & Hu & Ha).
  enter_postMessage Hvalid Hread Hconv Hagent Hactive Hmay.
  match goal with
  | |- context [tryCatch (bind (processMessage env ?c) _) _ ?w0] =>
      destruct (processMessage_completes env c w0 Hd Hn Hi)
        as (response & w5 & w6 & Hrun & Ht & _ & Hmsgs & Hconvs)
  end.
  erewrite tryCatch_ok.
  2:{ erewrite bind_ok by exact Hrun.
      erewrite bind_ok by reflexivity. reflexivity. }
  eexists. exists (w_trace w6). eexists. eexists.
  split; [reflexivity|]. simpl.
  split; [|split; [exact Hconvs | reflexivity]].
  rewrite Hmsgs. unfold persisted. now rewrite Hu, Ha.
Qed.

Lemma postMessage_completes_witness :
  let context := turnContext agentA (sampleConversation ACTIVE)
                   (sampleWorld ACTIVE) sampleRequest in
  exists (response : AgentResponse) (earlier : list Event) (payload : Json)
         (w' : World),
    postMessage (sampleEnv []) sampleRequest (sampleWorld ACTIVE)
    = (Ok (MessageReply response), w')
    /\ w_messages w'
       = w_messages (sampleWorld ACTIVE)
         ++ [ userMessage (sampleEnv []) context;
              assistantMessage (sampleEnv []) context (content response) ]
    /\ w_conversations w' = w_conversations (sampleWorld ACTIVE)
    /\ w_trace w'
       = earlier ++ [Emitted (lit "conversation:" ++ req_id sampleRequest)
                             (lit "message:new") payload].
Proof.
  exact (@postMessage_completes (sampleEnv []) sampleRequest
           (sampleWorld ACTIVE) (sampleConversation ACTIVE) agentA
           eq_refl eq_refl (conj eq_refl eq_refl) eq_refl eq_refl eq_refl).
Defined.

(** X16. When the model call fails, the route answers with the error
    [Failed to process message] of status 500, leaves every table as it was,
    and the last event is the [agent:error] emitted to the room of the
    conversation. *)
Theorem postMessage_model_failure env req (w : World) (conv : Conversation)
        (agt : Agent) :
  validMessageRequest env req = true ->
  fails env FindConversation = false ->
  stored w (req_id req) conv agt ->
  status_eqb (conv_status conv) ACTIVE = true ->
  mayUpdate env req agt w ->
  fails env DetectLanguage = false ->
  fails env NormalizeText = false ->
  fails env ModelInvoke = true ->
  exists (earlier : list Event) (w' : World),
    postMessage env req w
    = (Throw (AppError (lit "Failed to process message") 500), w')
    /\ tables w' = tables w
    /\ w_trace w'
       = earlier
         ++ [Emitted (lit "conversation:" ++ req_id req) (lit "agent:error")
               (JObj [ (lit "conversationId", JStr (req_id req));
                       (lit "error", JStr (lit "Failed to process message")) ])].
Proof.
  intros Hvalid Hread [Hconv Hagent] Hactive Hmay Hd Hn Hi.
  enter_postMessage Hvalid Hread Hconv Hagent Hactive Hmay.
  match goal with
  | |- context [tryCatch (bind (processMessage env ?c) _) _ ?w0] =>
      destruct (processMessage_invoke_throws env c w0 Hd Hn Hi)
        as (earlier & w1 & Hrun & Ht & _)
  end.
  erewrite tryCatch_throw by (apply bind_throw; exact Hrun).
  eexists. eexists. split; [reflexivity|].
  split; [|reflexivity]. simpl. exact Ht.
Qed.

Lemma postMessage_model_failure_witness :
  exists (earlier : list Event) (w' : World),
    postMessage (sampleEnv [ModelInvoke]) sampleRequest (sampleWorld ACTIVE)
    = (Throw (AppError (lit "Failed to process message") 500), w')
    /\ tables w' = tables (sampleWorld ACTIVE)
    /\ w_trace w'
       = earlier
         ++ [Emitted (lit "conversation:" ++ req_id sampleRequest)
               (lit "agent:error")
               (JObj [ (lit "conversationId", JStr (req_id sampleRequest));
                       (lit "error", JStr (lit "Failed to process message")) ])].
Proof.
  exact (@postMessage_model_failure (sampleEnv [ModelInvoke]) sampleRequest
           (sampleWorld ACTIVE) (sampleConversation ACTIVE) agentA
           eq_refl eq_refl (conj eq_refl eq_refl) eq_refl eq_refl
           eq_refl eq_refl eq_refl).
Defined.

Lemma valid_isUUID env req :
  validMessageRequest env req = true -> isUUID env (req_id req) = true.
Proof.
  unfold validMessageRequest. intros H.
  apply andb_true_iff in H as [H _]. now apply andb_true_iff in H as [H _].
Qed.

Lemma conversationFindUnique_missing env id (w : World) :
  fails env FindConversation = false ->
  find (fun c => JsString.eqb (conv_id c) id) (w_conversations w) = None ->
  Prisma.conversationFindUnique env id w = (Ok None, w).
Proof.
  intros Hread Hnone.
  unfold Prisma.conversationFindUnique, at_site, bind, get, ret.
  now rewrite Hread, Hnone.
Qed.

(** X17. A request for an id under which no conversation is stored is
    answered with [Conversation not found], status 404, by each of the three
    routes, and the world is left exactly as it was. *)
Theorem routes_not_found env req (w : World) :
  validMessageRequest env req = true ->
  fails env FindConversation = false ->
  find (fun c => JsString.eqb (conv_id c) (req_id req)) (w_conversations w)
  = None ->
  Forall (fun handler : Env -> Request -> M Response =>
            handler env req w
            = (Throw (AppError (lit "Conversation not found") 404), w))
         [postMessage; endConversation; transferConversation].
Proof.
  intros Hvalid Hread Hnone.
  pose proof (valid_isUUID env req Hvalid) as Huuid.
  pose proof (conversationFindUnique_missing env (req_id req) w Hread Hnone)
    as Hfind.
  constructor; [|constructor; [|constructor; [|constructor]]].
  - unfold postMessage. unfold validMessageRequest in Hvalid. rewrite Hvalid.
    change (negb true) with false. cbv iota zeta.
    unfold Prisma.conversationFindUniqueWithMessages.
    erewrite bind_ok; [|erewrite bind_ok by exact Hfind; reflexivity].
    reflexivity.
  - unfold endConversation. rewrite Huuid.
    change (negb true) with false. cbv iota zeta.
    erewrite bind_ok by exact Hfind. reflexivity.
  - unfold transferConversation. rewrite Huuid.
    change (negb true) with false. cbv iota zeta.
    erewrite bind_ok by exact Hfind. reflexivity.
Qed.

Lemma routes_not_found_witness :
  Forall (fun handler : Env -> Request -> M Response =>
            handler (sampleEnv []) sampleRequest
              (Prisma.setConversations (sampleWorld ACTIVE) [])
            = (Throw (AppError (lit "Conversation not found") 404),
               Prisma.setConversations (sampleWorld ACTIVE) []))
         [postMessage; endConversation; transferConversation].
Proof.
  exact (@routes_not_found (sampleEnv []) sampleRequest
           (Prisma.setConversations (sampleWorld ACTIVE) [])
           eq_refl eq_refl eq_refl).
Defined.



(** X19. Ending a stored conversation, by a user who may update it and with
    the database working, sets its status to ENDED and its end time to the
    current time whatever its status was, and writes no message.  The
    answer reports the time since the start and the number of messages of
    the conversation. *)
Theorem endConversation_completes env req (w : World) (conv : Conversation)
        (agt : Agent) :
  isUUID env (req_id req) = true ->
  fails env FindConversation = false ->
  stored w (req_id req) conv agt ->
  mayUpdate env req agt w ->
  fails env UpdateConversation = false ->
  fails env FindMessages = false ->
  exists (updated : Conversation) (avg : Q) (w' : World),
    endConversation env req w
    = (Ok (ConversationEnded updated
             (Z.of_N (now env) - Z.of_N (conv_startedAt conv))%Z
             (length (Prisma.messagesOf (req_id req) (w_messages w))) avg),
       w')
    /\ conv_status updated = ENDED
    /\ conv_endedAt updated = Some (now env)
    /\ conv_metadata updated = conv_metadata conv
    /\ statusOf (req_id req) w' = Some ENDED
    /\ w_messages w' = w_messages w.
Proof.
  intros Huuid Hread [Hconv Hagent] Hmay Hupdate Hfind.
  unfold endConversation. rewrite Huuid.
  change (negb true) with false. cbv iota zeta.
  erewrite bind_ok
    by (apply RouteTheorems.conversationFindUnique_found; eassumption).
  cbv beta iota.
  erewrite bind_ok by (apply mayUpdate_run; exact Hmay).
  unfold Prisma.conversationUpdate, Prisma.messageFindMany, at_site.
  rewrite Hupdate, Hfind.
  unfold bind at 1. rewrite Hconv.
  eexists. eexists. eexists. split; [reflexivity|].
  split; [reflexivity|]. split; [reflexivity|]. split; [reflexivity|].
  split; [|reflexivity].
  unfold statusOf. simpl.
  rewrite RouteTheorems.find_update by reflexivity.
  now rewrite Hconv.
Qed.

Lemma endConversation_completes_witness :
  exists (updated : Conversation) (avg : Q) (w' : World),
    endConversation (sampleEnv []) sampleRequest (sampleWorld TRANSFERRED)
    = (Ok (ConversationEnded updated
             (Z.of_N (now (sampleEnv []))
              - Z.of_N (conv_startedAt (sampleConversation TRANSFERRED)))%Z
             (length (Prisma.messagesOf (req_id sampleRequest)
                        (w_messages (sampleWorld TRANSFERRED)))) avg),
       w')
    /\ conv_status updated = ENDED
    /\ conv_endedAt updated = Some (now (sampleEnv []))
    /\ conv_metadata updated = conv_metadata (sampleConversation TRANSFERRED)
    /\ statusOf (req_id sampleRequest) w' = Some ENDED
    /\ w_messages w' = w_messages (sampleWorld TRANSFERRED).
Proof.
  exact (@endConversation_completes (sampleEnv []) sampleRequest
           (sampleWorld TRANSFERRED) (sampleConversation TRANSFERRED) agentA
           eq_refl eq_refl (conj eq_refl eq_refl) eq_refl eq_refl eq_refl).
Defined.

End RouteExtras.

(** ** The failure policy of the analysis, up to the route *)

Module PolicyTheorems.

Import Shape MoreShape RouteShape JsStringFacts.
Import HebrewNLP AgentEngine Conversations Permissions.
Import Frame Policy Samples MoreSamples.
Import EffectFacts EngineFacts RouteFacts RouteExtras.
Local Open Scope nat_scope.

(** The analysis throws exactly when language detection fails, or the text
    is Hebrew and normalization fails. *)
Lemma analysisOutcome_throws env (s : jsstring) :
  fails env DetectLanguage = true
  \/ (isHebrewText s = true /\ fails env NormalizeText = true) ->
  let e := if fails env DetectLanguage then Failure DetectLanguage
           else Failure NormalizeText in
  analysisOutcome env s = Throw e
  /\ analysisLog env s
     = [Logged Err (lit "Hebrew NLP analysis failed:") (Some e)].
Proof.
  unfold analysisOutcome, analysisLog.
  intros [Hd | [Hh Hn]].
  - rewrite Hd. now split.
  - destruct (fails env DetectLanguage); [now split|].
    rewrite Hh, Hn. now split.
Qed.

(** The route on a failing analysis. *)
Lemma postMessage_analysis_failure env req (w : World) (conv : Conversation)
      (agt : Agent) :
  validMessageRequest env req = true ->
  fails env FindConversation = false ->
  stored w (req_id req) conv agt ->
  status_eqb (conv_status conv) ACTIVE = true ->
  mayUpdate env req agt w ->
  fails env DetectLanguage = true
  \/ (isHebrewText (req_content req) = true
      /\ fails env NormalizeText = true) ->
  let e := if fails env DetectLanguage then Failure DetectLanguage
           else Failure NormalizeText in
  postMessage env req w
  = (Throw (AppError (lit "Failed to process message") 500),
     appendTrace w
       [ Emitted (lit "conversation:" ++ req_id req) (lit "agent:typing")
           (JObj [(lit "conversationId", JStr (req_id req))]);
         Logged Err (lit "Hebrew NLP analysis failed:") (Some e);
         Logged Err (lit "Agent engine error:") (Some e);
         Logged Err (lit "Message processing failed:") (Some e);
         Emitted (lit "conversation:" ++ req_id req) (lit "agent:error")
           (JObj [ (lit "conversationId", JStr (req_id req));
                   (lit "error", JStr (lit "Failed to process message")) ]) ]).
Proof.
  intros Hvalid Hread [Hconv Hagent] Hactive Hmay Hfail e.
  destruct (analysisOutcome_throws env (req_content req) Hfail)
    as [Hthrow Hlog]. fold e in Hthrow, Hlog.
  enter_postMessage Hvalid Hread Hconv Hagent Hactive Hmay.
  erewrite tryCatch_throw.
  2:{ apply bind_throw.
      apply TurnTheorems.processMessage_analysis_throw. exact Hthrow. }
  cbn [userInput]. rewrite Hlog. reflexivity.
Qed.

(** C3, as the code has it.  Failures inside tokenization, entity
    extraction, sentiment analysis and vocalization are absorbed by the
    analyzer: each is logged and replaced by its fallback, and
    [analyzeText] returns an analysis.  A failure of language detection or
    of normalization is logged by [analyzeText] and thrown again;
    [processMessage] logs it once more and throws it to its caller; and
    the route, for a valid request to a stored ACTIVE conversation by a
    user who may update it, logs it a third time, emits [agent:error] and
    answers with the error [Failed to process message] of status 500,
    having written to no table. *)
Theorem analysis_failure_policy env context (w : World) :
  let input := userInput context in
  analyzeText env input w
  = (analysisOutcome env input, appendTrace w (analysisLog env input))
  /\ (if fails env DetectLanguage then
        processMessage env context w
        = (Throw (Failure DetectLanguage),
           appendTrace w
             [ Logged Err (lit "Hebrew NLP analysis failed:")
                      (Some (Failure DetectLanguage));
               Logged Err (lit "Agent engine error:")
                      (Some (Failure DetectLanguage)) ])
      else if isHebrewText input && fails env NormalizeText then
        processMessage env context w
        = (Throw (Failure NormalizeText),
           appendTrace w
             [ Logged Err (lit "Hebrew NLP analysis failed:")
                      (Some (Failure NormalizeText));
               Logged Err (lit "Agent engine error:")
                      (Some (Failure NormalizeText)) ])
      else
        analysisOutcome env input
        = Ok (if isHebrewText input then hebrewAnalysis env input
              else plainAnalysis input))
  /\ (forall (req : Request) (conv : Conversation) (agt : Agent)
             (w0 : World),
         validMessageRequest env req = true ->
         fails env FindConversation = false ->
         stored w0 (req_id req) conv agt ->
         status_eqb (conv_status conv) ACTIVE = true ->
         mayUpdate env req agt w0 ->
         fails env DetectLanguage = true
         \/ (isHebrewText (req_content req) = true
             /\ fails env NormalizeText = true) ->
         let e := if fails env DetectLanguage then Failure DetectLanguage
                  else Failure NormalizeText in
         postMessage env req w0
         = (Throw (AppError (lit "Failed to process message") 500),
            appendTrace w0
              [ Emitted (lit "conversation:" ++ req_id req)
                  (lit "agent:typing")
                  (JObj [(lit "conversationId", JStr (req_id req))]);
                Logged Err (lit "Hebrew NLP analysis failed:") (Some e);
                Logged Err (lit "Agent engine error:") (Some e);
                Logged Err (lit "Message processing failed:") (Some e);
                Emitted (lit "conversation:" ++ req_id req)
                  (lit "agent:error")
                  (JObj [ (lit "conversationId", JStr (req_id req));
                          (lit "error",
                           JStr (lit "Failed to process message")) ]) ])
         /\ tables (snd (postMessage env req w0)) = tables w0).
Proof.
  intros input.
  destruct (TurnTheorems.processMessage_analysis_outcomes env context w)
    as [Hanalyze Hengine].
  split; [exact Hanalyze|]. split; [exact Hengine|].
  intros req conv agt w0 Hvalid Hread Hstored Hactive Hmay Hfail e.
  pose proof (postMessage_analysis_failure Hvalid Hread Hstored Hactive Hmay
                Hfail) as Hroute.
  cbv zeta in Hroute. fold e in Hroute.
  split; [exact Hroute|].
  rewrite Hroute. cbn [snd]. apply appendTrace_tables.
Qed.

Lemma analysis_failure_policy_witness :
  postMessage (sampleEnv [DetectLanguage]) sampleRequest (sampleWorld ACTIVE)
  = (Throw (AppError (lit "Failed to process message") 500),
     appendTrace (sampleWorld ACTIVE)
       [ Emitted (lit "conversation:" ++ sampleId) (lit "agent:typing")
           (JObj [(lit "conversationId", JStr sampleId)]);
         Logged Err (lit "Hebrew NLP analysis failed:")
                (Some (Failure DetectLanguage));
         Logged Err (lit "Agent engine error:")
                (Some (Failure DetectLanguage));
         Logged Err (lit "Message processing failed:")
                (Some (Failure DetectLanguage));
         Emitted (lit "conversation:" ++ sampleId) (lit "agent:error")
           (JObj [ (lit "conversationId", JStr sampleId);
                   (lit "error", JStr (lit "Failed to process message")) ]) ])
  /\ tables (snd (postMessage (sampleEnv [DetectLanguage]) sampleRequest
                    (sampleWorld ACTIVE)))
     = tables (sampleWorld ACTIVE).
Proof.
  exact (proj2 (proj2 (@analysis_failure_policy (sampleEnv [DetectLanguage])
                         sampleContext (sampleWorld ACTIVE)))
           sampleRequest (sampleConversation ACTIVE) agentA
           (sampleWorld ACTIVE) eq_refl eq_refl (conj eq_refl eq_refl)
           eq_refl eq_refl (or_introl eq_refl)).
Defined.

End PolicyTheorems.

Module ConversationExtras.

Import Shape MoreShape RouteShape PromptShape JsStringFacts.
Import HebrewNLP AgentEngine Conversations ConversationSentiment Permissions.
Import Frame Policy Samples MoreSamples.
Import EffectFacts EngineFacts RouteFacts RouteExtras.
Local Open Scope nat_scope.

(** *** The history window *)


(** [orderBy createdAt desc] sorts and loses nothing. *)












(** *** Response times *)

Lemma responseTimes_nonneg (ms : list Message) :
  forall prev,
    Sorted (fun a b => (msg_createdAt a <= msg_createdAt b)%N) (prev :: ms) ->
    Forall (fun t => (0 <= t)%Z) (responseTimes prev ms).
Proof.
  induction ms as [|m t IH]; intros prev H; [constructor|].
  inversion H as [|? ? Hsorted Hhd]; subst.
  inversion Hhd as [|? ? Hle]; subst.
  simpl. destruct (msg_role m), (msg_role prev);
    try (apply IH; exact Hsorted).
  constructor; [lia | apply IH; exact Hsorted].
Qed.

Lemma fold_add_nonneg (l : list Z) (acc : Z) :
  Forall (fun t => (0 <= t)%Z) l -> (0 <= acc)%Z ->
  (0 <= fold_left Z.add l acc)%Z.
Proof.
  revert acc. induction l as [|t l IH]; intros acc H Hacc; [exact Hacc|].
  inversion H; subst. simpl. apply IH; [assumption | lia].
Qed.

(** X21. When the messages are given in the order of their creation, the
    average response time is never negative. *)
Theorem calculateAvgResponseTime_nonneg (messages : list Message) :
  Sorted (fun a b => (msg_createdAt a <= msg_createdAt b)%N) messages ->
  (0 <= calculateAvgResponseTime messages)%Q.
Proof.
  intros H. unfold calculateAvgResponseTime.
  destruct messages as [|m t]; [apply Qle_refl|].
  destruct (length (responseTimes m t) =? 0); [apply Qle_refl|].
  unfold Qle. simpl. rewrite Z.mul_1_r.
  apply fold_add_nonneg; [now apply responseTimes_nonneg | lia].
Qed.

Lemma calculateAvgResponseTime_nonneg_witness :
  (0 <= calculateAvgResponseTime sampleRows)%Q.
Proof.
  apply calculateAvgResponseTime_nonneg.
  repeat constructor; vm_compute; discriminate.
Defined.

(** *** The metadata of a transfer *)

Lemma getField_setField_same k v o : getField k (setField k v o) = Some v.
Proof.
  induction o as [|[k' v'] o IH]; simpl.
  - now rewrite eqb_refl.
  - destruct (JsString.eqb k' k) eqn:E; simpl.
    + now rewrite eqb_refl.
    + now rewrite E.
Qed.

Lemma getField_setField_other k k' v o :
  JsString.eqb k k' = false ->
  getField k' (setField k v o) = getField k' o.
Proof.
  intros Hk. induction o as [|[k0 v0] o IH]; simpl.
  - now rewrite Hk.
  - destruct (JsString.eqb k0 k) eqn:E; simpl.
    + apply eqb_eq in E. subst k0. now rewrite Hk.
    + now rewrite IH.
Qed.

Lemma getField_removeField_same k o : getField k (removeField k o) = None.
Proof.
  induction o as [|[k' v'] o IH]; simpl; [reflexivity|].
  destruct (JsString.eqb k' k) eqn:E; simpl; [exact IH | now rewrite E].
Qed.

Lemma getField_removeField_other k k' o :
  JsString.eqb k k' = false ->
  getField k' (removeField k o) = getField k' o.
Proof.
  intros Hk. induction o as [|[k0 v0] o IH]; simpl; [reflexivity|].
  destruct (JsString.eqb k0 k) eqn:E; simpl.
  - apply eqb_eq in E. subst k0. now rewrite Hk.
  - now rewrite IH.
Qed.

Lemma getField_setOptionalField_same k v o :
  getField k (setOptionalField k v o) = option_map JStr v.
Proof.
  destruct v; simpl;
    [apply getField_setField_same | apply getField_removeField_same].
Qed.

Lemma getField_setOptionalField_other k k' v o :
  JsString.eqb k k' = false ->
  getField k' (setOptionalField k v o) = getField k' o.
Proof.
  intros Hk. destruct v; simpl;
    [now apply getField_setField_other | now apply getField_removeField_other].
Qed.

(** X22. A transfer records itself in the metadata of the conversation: the
    time, the id of the user and the reason, if one was given, are written
    under their three keys (an earlier reason is dropped when none is
    given), and every other key keeps the value it had.  The end time of
    the conversation is not touched. *)
Theorem transferConversation_metadata env req (w : World)
        (conv : Conversation) (agt : Agent) :
  isUUID env (req_id req) = true ->
  fails env FindConversation = false ->
  stored w (req_id req) conv agt ->
  mayUpdate env req agt w ->
  fails env UpdateConversation = false ->
  fails env CreateSystemMessage = false ->
  exists (fields : list (jsstring * Json)) (updated : Conversation)
         (w' : World),
    transferConversation env req w
    = (Ok (ConversationTransferred updated), w')
    /\ conv_metadata updated = JObj fields
    /\ getField (lit "transferredAt") fields = Some (JDate (now env))
    /\ getField (lit "transferredBy") fields
       = Some (JStr (user_id (req_user req)))
    /\ getField (lit "transferReason") fields = option_map JStr (req_reason req)
    /\ (forall k,
           JsString.eqb (lit "transferredAt") k = false ->
           JsString.eqb (lit "transferredBy") k = false ->
           JsString.eqb (lit "transferReason") k = false ->
           getField k fields = getField k (spread (conv_metadata conv)))
    /\ conv_endedAt updated = conv_endedAt conv.
Proof.
  intros Huuid Hread [Hconv Hagent] Hmay Hupdate Hcreate.
  unfold transferConversation. rewrite Huuid.
  change (negb true) with false. cbv iota zeta.
  erewrite bind_ok
    by (apply RouteTheorems.conversationFindUnique_found; eassumption).
  cbv beta iota.
  erewrite bind_ok by (apply mayUpdate_run; exact Hmay).
  unfold Prisma.conversationUpdate, Prisma.messageCreate, at_site.
  rewrite Hupdate, Hcreate.
  unfold bind at 1. rewrite Hconv.
  eexists. eexists. eexists. split; [reflexivity|].
  split; [reflexivity|].
  split.
  { rewrite getField_setOptionalField_other by reflexivity.
    rewrite getField_setField_other by reflexivity.
    apply getField_setField_same. }
  split.
  { rewrite getField_setOptionalField_other by reflexivity.
    apply getField_setField_same. }
  split; [apply getField_setOptionalField_same|].
  split; [|reflexivity].
  intros k H1 H2 H3.
  rewrite getField_setOptionalField_other by exact H3.
  rewrite getField_setField_other by exact H2.
  now rewrite getField_setField_other by exact H1.
Qed.

Lemma transferConversation_metadata_witness :
  exists (fields : list (jsstring * Json)) (updated : Conversation)
         (w' : World),
    transferConversation (sampleEnv []) sampleRequest (sampleWorld ACTIVE)
    = (Ok (ConversationTransferred updated), w')
    /\ conv_metadata updated = JObj fields
    /\ getField (lit "transferredAt") fields
       = Some (JDate (now (sampleEnv [])))
    /\ getField (lit "transferredBy") fields
       = Some (JStr (user_id (req_user sampleRequest)))
    /\ getField (lit "transferReason") fields
       = option_map JStr (req_reason sampleRequest)
    /\ (forall k,
           JsString.eqb (lit "transferredAt") k = false ->
           JsString.eqb (lit "transferredBy") k = false ->
           JsString.eqb (lit "transferReason") k = false ->
           getField k fields
           = getField k (spread (conv_metadata (sampleConversation ACTIVE))))
    /\ conv_endedAt updated = conv_endedAt (sampleConversation ACTIVE).
Proof.
  exact (@transferConversation_metadata (sampleEnv []) sampleRequest
           (sampleWorld ACTIVE) (sampleConversation ACTIVE) agentA
           eq_refl eq_refl (conj eq_refl eq_refl) eq_refl eq_refl eq_refl).
Defined.

(** *** The sentiment of a conversation *)

Lemma quiet_promiseAll {A} (ms : list (M A)) :
  Forall Quiet ms -> Quiet (promiseAll ms).
Proof.
  induction 1 as [|m ms Hm _ IH]; intros w; [reflexivity|].
  simpl. specialize (Hm w). destruct (m w) as [[a | e] w1]; simpl in *.
  - specialize (IH w1). destruct (promiseAll ms w1) as [[l | e] w2];
      simpl in *; congruence.
  - specialize (IH w1). congruence.
Qed.

Lemma analysisOutcome_score env s analysis :
  analysisOutcome env s = Ok analysis -> sent_score (sentiment analysis) = 0%Q.
Proof.
  unfold analysisOutcome.
  destruct (fails env DetectLanguage); [discriminate|].
  destruct (negb (isHebrewText s)); [now intros [= <-]|].
  destruct (fails env NormalizeText); [discriminate|].
  now intros [= <-].
Qed.

Lemma promiseAll_scores env (msgs : list Message) :
  forall (w w' : World) sentiments,
    promiseAll
      (List.map
         (fun msg =>
            bind (analyzeText env (msg_content msg))
                 (fun analysis => ret (sentiment analysis, msg_createdAt msg)))
         msgs) w = (Ok sentiments, w') ->
    Forall (fun s : SentimentResult * N => sent_score (fst s) = 0%Q) sentiments
    /\ length sentiments = length msgs.
Proof.
  induction msgs as [|msg msgs IH]; intros w w' sentiments H.
  - injection H as <- <-. split; [constructor | reflexivity].
  - simpl in H. unfold bind at 1 in H. rewrite analyzeText_run in H.
    destruct (analysisOutcome env (msg_content msg)) as [a | e] eqn:Ea;
      [|discriminate].
    unfold ret at 1 in H.
    destruct (promiseAll _ _) as [[l | e] w2] eqn:El; [|discriminate].
    injection H as <- <-.
    destruct (IH _ _ _ El) as [Hall Hlen].
    split; [|simpl; now rewrite Hlen].
    constructor; [|exact Hall]. simpl. exact (analysisOutcome_score env _ Ea).
Qed.

Lemma fold_scores_zero (sentiments : list (SentimentResult * N)) :
  Forall (fun s : SentimentResult * N => sent_score (fst s) = 0%Q) sentiments ->
  fold_left (fun sum s => (sum + sent_score (fst s))%Q) sentiments 0%Q = 0%Q.
Proof.
  induction 1 as [|s l Hs _ IH]; [reflexivity|].
  simpl. rewrite Hs. exact IH.
Qed.

(** X23. With the sentiment analysis the service has, the sentiment of a
    conversation is always neutral with score zero: whenever
    [analyzeConversationSentiment] returns, that is its answer, with one
    breakdown entry for each USER message, and no table was written. *)
Theorem analyzeConversationSentiment_neutral env (messages : list Message)
        (w w' : World) (summary : SentimentSummary) :
  analyzeConversationSentiment env messages w = (Ok summary, w') ->
  overall summary = neutral
  /\ (score summary == 0)%Q
  /\ length (breakdown summary)
     = length (filter (fun m => match msg_role m with USER => true | _ => false end)
                      messages)
  /\ tables w' = tables w.
Proof.
  unfold analyzeConversationSentiment.
  set (userMessages := filter _ messages).
  destruct (length userMessages =? 0) eqn:E.
  - intros [= <- <-]. apply Nat.eqb_eq in E.
    repeat split; try reflexivity. simpl. now rewrite E.
  - unfold bind at 1.
    destruct (promiseAll _ w) as [[sentiments | e] w1] eqn:Hall; [|discriminate].
    intros [= <- <-].
    destruct (promiseAll_scores env userMessages w Hall) as [Hzero Hlen].
    assert (Hquiet : tables w1 = tables w).
    { pose proof (@quiet_promiseAll _
                    (List.map
                       (fun msg =>
                          bind (analyzeText env (msg_content msg))
                               (fun analysis =>
                                  ret (sentiment analysis, msg_createdAt msg)))
                       userMessages)) as Hq.
      assert (Hms : Forall Quiet
                      (List.map
                         (fun msg =>
                            bind (analyzeText env (msg_content msg))
                                 (fun analysis =>
                                    ret (sentiment analysis, msg_createdAt msg)))
                         userMessages)).
      { apply Forall_map. apply Forall_forall. intros msg _. frame. }
      specialize (Hq Hms w). now rewrite Hall in Hq. }
    cbn [overall score breakdown].
    rewrite (fold_scores_zero Hzero).
    split; [|split; [|split; [exact Hlen | exact Hquiet]]].
    + destruct (length sentiments); reflexivity.
    + destruct (length sentiments); reflexivity.
Qed.

Lemma analyzeConversationSentiment_neutral_witness :
  exists summary w',
    analyzeConversationSentiment (sampleEnv []) sampleRows (sampleWorld ACTIVE)
    = (Ok summary, w')
    /\ overall summary = neutral
    /\ (score summary == 0)%Q
    /\ length (breakdown summary) = 1
    /\ tables w' = tables (sampleWorld ACTIVE).
Proof.
  eexists. eexists.
  split; [vm_compute; reflexivity|].
  eapply (@analyzeConversationSentiment_neutral (sampleEnv []) sampleRows
            (sampleWorld ACTIVE)).
  vm_compute. reflexivity.
Defined.

End ConversationExtras.

(** ** The vector store *)

Module StoreExtras.

Import Retrieval JsStringFacts.
Import VectorStore Ingestion Frame Policy Samples EffectFacts.
Local Open Scope nat_scope.

(** *** Filters *)

Lemma buildQdrantFilter_loop (filter : list (jsstring * FilterValue)) :
  forall acc : list Condition,
    fold_left
      (fun must entry =>
         match snd entry with
         | Array values =>
             must ++ [{| cond_key := fst entry;
                         cond_match := MatchAny values |}]
         | Scalar value =>
             must ++ [{| cond_key := fst entry;
                         cond_match := MatchValue value |}]
         end)
      filter acc
    = acc ++ List.map (fun entry =>
                         {| cond_key := fst entry;
                            cond_match := match snd entry with
                                          | Array values => MatchAny values
                                          | Scalar value => MatchValue value
                                          end |}) filter.
Proof.
  induction filter as [|[k v] filter IH]; intros acc; simpl.
  - now rewrite app_nil_r.
  - rewrite IH. destruct v; now rewrite <- app_assoc.
Qed.

Lemma buildQdrantFilter_must (filter : list (jsstring * FilterValue)) :
  must (buildQdrantFilter filter)
  = List.map (fun entry =>
                {| cond_key := fst entry;
                   cond_match := match snd entry with
                                 | Array values => MatchAny values
                                 | Scalar value => MatchValue value
                                 end |}) filter.
Proof.
  unfold buildQdrantFilter. cbn [must]. now rewrite buildQdrantFilter_loop.
Qed.

(** X24. The filter that [buildQdrantFilter] makes of a simple filter
    object admits a payload exactly when every entry of the object is
    matched: the payload has the key, with the value of a scalar entry or
    one of the values of an array entry.  So the empty object admits every
    payload, and an entry with an empty array admits none. *)
Theorem buildQdrantFilter_admits (filter : list (jsstring * FilterValue))
        (p : Payload) :
  filterHolds (Some (buildQdrantFilter filter)) p
  = forallb (fun entry =>
               match payloadField p (fst entry), snd entry with
               | Some v, Scalar value => JsString.eqb v value
               | Some v, Array values => existsb (JsString.eqb v) values
               | None, _ => false
               end) filter.
Proof.
  unfold filterHolds. rewrite buildQdrantFilter_must.
  induction filter as [|[k v] filter IH]; [reflexivity|].
  simpl. rewrite IH. f_equal.
  unfold conditionHolds. cbn [cond_key cond_match].
  destruct (payloadField p k); destruct v; reflexivity.
Qed.

(** *** Ingestion *)

Lemma lookup_setEntry_same k v o : lookup k (setEntry k v o) = Some v.
Proof.
  induction o as [|[k' v'] o IH]; simpl.
  - now rewrite eqb_refl.
  - destruct (JsString.eqb k' k) eqn:E; simpl.
    + now rewrite eqb_refl.
    + now rewrite E.
Qed.

Lemma lookup_setEntry_other k k' v o :
  JsString.eqb k k' = false -> lookup k' (setEntry k v o) = lookup k' o.
Proof.
  intros Hk. induction o as [|[k0 v0] o IH]; simpl.
  - now rewrite Hk.
  - destruct (JsString.eqb k0 k) eqn:E; simpl.
    + apply eqb_eq in E. subst k0. now rewrite Hk.
    + now rewrite IH.
Qed.

Lemma lookup_absent k (o : list (jsstring * jsstring)) :
  ~ In k (List.map fst o) -> lookup k o = None.
Proof.
  induction o as [|[k' v'] o IH]; intros H; [reflexivity|].
  simpl in *. destruct (JsString.eqb k' k) eqn:E.
  - apply eqb_eq in E. tauto.
  - apply IH. tauto.
Qed.

(** Spreading an object into another: its keys win. *)
Lemma lookup_spreadInto k (entries : list (jsstring * jsstring)) :
  NoDup (List.map fst entries) ->
  forall o,
    lookup k (spreadInto o entries)
    = match lookup k entries with
      | Some v => Some v
      | None => lookup k o
      end.
Proof.
  unfold spreadInto.
  induction entries as [|[k1 v1] entries IH]; intros Hnd o; [reflexivity|].
  simpl in Hnd. inversion Hnd as [|? ? Hnotin Hnd']; subst.
  cbn [fold_left fst snd]. rewrite (IH Hnd').
  cbn [lookup]. destruct (JsString.eqb k1 k) eqn:E.
  - apply eqb_eq in E. subst k1.
    rewrite (lookup_absent _ _ Hnotin). apply lookup_setEntry_same.
  - destruct (lookup k entries); [reflexivity|].
    now apply lookup_setEntry_other.
Qed.

Lemma lookup_filter_other k k' (o : list (jsstring * jsstring)) :
  JsString.eqb k' k = false ->
  lookup k' (filter (fun kv => negb (JsString.eqb (fst kv) k)) o) = lookup k' o.
Proof.
  intros Hk. induction o as [|[k0 v0] o IH]; [reflexivity|].
  cbn [filter fst]. destruct (JsString.eqb k0 k) eqn:E; cbn [negb lookup].
  - apply eqb_eq in E. subst k0.
    assert (Hk' : JsString.eqb k k' = false).
    { apply eqb_neq. intros ->. now rewrite eqb_refl in Hk. }
    now rewrite Hk'.
  - now rewrite IH.
Qed.

Lemma payloadOf_agentId (doc : Document) (metadata : list (jsstring * jsstring))
      (agentId : jsstring) :
  NoDup (List.map fst metadata) ->
  lookup (lit "agentId") metadata = Some agentId ->
  payloadField (payloadOf doc metadata) (lit "agentId") = Some agentId.
Proof.
  intros Hnd Hl. unfold payloadField, payloadOf. cbn [pl_metadata pl_content].
  change (JsString.eqb (lit "agentId") (lit "content")) with false.
  cbv iota. rewrite lookup_filter_other by reflexivity.
  now rewrite (@lookup_spreadInto _ _ Hnd), Hl.
Qed.

Lemma upsertPoint_from (P : Point -> Prop) (p : Point) (points : list Point) :
  P p -> Forall P points -> Forall P (upsertPoint p points).
Proof.
  intros Hp. induction 1 as [|q rest Hq Hrest IH]; simpl.
  - constructor; [exact Hp | constructor].
  - destruct (JsString.eqb (pt_id q) (pt_id p));
      constructor; assumption.
Qed.

Lemma upsert_from (P : Point -> Prop) (batch points : list Point) :
  Forall P batch -> Forall P points -> Forall P (upsert batch points).
Proof.
  unfold upsert. intros Hb. revert points.
  induction Hb as [|p batch Hp _ IH]; intros points Hps; [exact Hps|].
  simpl. apply IH. now apply upsertPoint_from.
Qed.

Section Batch.

Variable env : Env.
Variable generateId : nat -> jsstring.
Variable metadata : list (jsstring * jsstring).

Lemma buildPoints_run (documents : list Document) :
  fails env EmbedQuery = false ->
  forall (points : list Point) (w : World),
  exists batch,
    buildPoints env generateId documents metadata points w
    = (Ok (points ++ batch), w)
    /\ List.map pt_payload batch
       = List.map (fun doc => payloadOf doc metadata) documents
    /\ List.map pt_vector batch
       = List.map (fun doc => embedQuery env (pageContent doc)) documents.
Proof.
  intros Hembed.
  induction documents as [|doc rest IH]; intros points w.
  - exists []. simpl. rewrite app_nil_r. now repeat split.
  - cbn [buildPoints]. unfold at_site. rewrite Hembed.
    unfold bind at 1, ret at 1. cbv zeta.
    match goal with
    | |- context [buildPoints env generateId rest metadata (points ++ [?p]) w] =>
        destruct (IH (points ++ [p]) w) as (batch & Hrun & Hp & Hv);
        exists (p :: batch)
    end.
    rewrite Hrun, <- app_assoc. cbn [app List.map pt_payload pt_vector].
    split; [reflexivity|]. split; congruence.
Qed.

Lemma buildPoints_embedding_fails (doc : Document) (rest : list Document)
      (points : list Point) (w : World) :
  fails env EmbedQuery = true ->
  buildPoints env generateId (doc :: rest) metadata points w
  = (Throw (Failure EmbedQuery), w).
Proof.
  intros Hembed. cbn [buildPoints]. unfold at_site. now rewrite Hembed.
Qed.

End Batch.

(** X25. Every point that [addDocuments] writes carries the [agentId] of
    its [metadata] argument, whatever the documents' own metadata says:
    when the embeddings and the upsert succeed, each point of the store
    afterwards was there before or is owned by that agent, no other table
    changes, and one line with the number of documents is logged. *)
Theorem addDocuments_owned env (generateId : nat -> jsstring)
        (documents : list Document) (metadata : list (jsstring * jsstring))
        (agentId : jsstring) (w : World) :
  fails env EmbedQuery = false ->
  NoDup (List.map fst metadata) ->
  lookup (lit "agentId") metadata = Some agentId ->
  exists w',
    addDocuments env None generateId documents (Some metadata) w = (Ok tt, w')
    /\ Forall (fun p => In p (w_points w) \/ ownedBy agentId p) (w_points w')
    /\ (w_agents w', w_conversations w', w_messages w', w_userOrganizations w')
       = (w_agents w, w_conversations w, w_messages w, w_userOrganizations w)
    /\ w_trace w'
       = w_trace w
         ++ [Logged Info
               (lit "Added " ++ decimal (length documents)
                ++ lit " documents to vector store") None].
Proof.
  intros Hembed Hnd Hl.
  destruct (buildPoints_run env generateId metadata documents Hembed [] w)
    as (batch & Hrun & Hpayload & _).
  unfold addDocuments, tryCatch, bind at 1. rewrite Hrun. cbn [app].
  eexists. split; [reflexivity|].
  cbn [snd w_points w_agents w_conversations w_messages w_userOrganizations
       w_trace setPoints].
  split; [|split; reflexivity].
  apply upsert_from.
  - apply Forall_forall. intros p Hp. right. unfold ownedBy.
    assert (Hin : In (pt_payload p) (List.map pt_payload batch))
      by now apply in_map.
    rewrite Hpayload in Hin. apply in_map_iff in Hin.
    destruct Hin as (doc & <- & _). now apply payloadOf_agentId.
  - apply Forall_forall. intros p Hp. now left.
Qed.

Lemma addDocuments_owned_witness :
  exists w',
    addDocuments (sampleEnv []) None (fun _ => lit "doc_1")
      [ {| pageContent := lit "hello";
           doc_metadata := [(lit "agentId", lit "agent-b")] |} ]
      (Some [(lit "agentId", lit "agent-a")]) (sampleWorld ACTIVE)
    = (Ok tt, w')
    /\ Forall (fun p => In p (w_points (sampleWorld ACTIVE))
                       \/ ownedBy (lit "agent-a") p) (w_points w')
    /\ (w_agents w', w_conversations w', w_messages w', w_userOrganizations w')
       = (w_agents (sampleWorld ACTIVE), w_conversations (sampleWorld ACTIVE),
          w_messages (sampleWorld ACTIVE),
          w_userOrganizations (sampleWorld ACTIVE))
    /\ w_trace w'
       = w_trace (sampleWorld ACTIVE)
         ++ [Logged Info
               (lit "Added " ++ decimal 1 ++ lit " documents to vector store")
               None].
Proof.
  refine (@addDocuments_owned (sampleEnv []) (fun _ => lit "doc_1")
            [ {| pageContent := lit "hello";
                 doc_metadata := [(lit "agentId", lit "agent-b")] |} ]
            [(lit "agentId", lit "agent-a")] (lit "agent-a")
            (sampleWorld ACTIVE) eq_refl _ eq_refl).
  constructor; [simpl; tauto | constructor].
Defined.

(** X26. [addDocuments] is all or nothing.  When it throws, no point and no
    row was written and the error was logged once before it was thrown
    again; and it does throw when the upsert is rejected, or when the
    embedding service is down and there is a document to embed. *)
Theorem addDocuments_failure env (putError : option Error)
        (generateId : nat -> jsstring) (documents : list Document)
        (metadata : option (list (jsstring * jsstring))) (w : World) :
  (fails env EmbedQuery = true /\ documents <> [])
  \/ (fails env EmbedQuery = false /\ putError <> None) ->
  exists e,
    addDocuments env putError generateId documents metadata w
    = (Throw e,
       appendTrace w
         [Logged Err (lit "Failed to add documents to vector store:") (Some e)])
    /\ (fails env EmbedQuery = true -> e = Failure EmbedQuery)
    /\ (fails env EmbedQuery = false -> putError = Some e).
Proof.
  intros [[Hembed Hdocs] | [Hembed Hput]].
  - destruct documents as [|doc rest]; [congruence|].
    exists (Failure EmbedQuery).
    unfold addDocuments, tryCatch, bind at 1.
    rewrite buildPoints_embedding_fails by exact Hembed.
    split; [reflexivity|]. split; [reflexivity | congruence].
  - destruct putError as [e|]; [|congruence]. exists e.
    destruct (buildPoints_run env generateId
                (match metadata with Some m => m | None => [] end)
                documents Hembed [] w) as (batch & Hrun & _).
    unfold addDocuments, tryCatch, bind at 1. rewrite Hrun.
    split; [reflexivity|]. split; [congruence | reflexivity].
Qed.

Lemma addDocuments_failure_witness :
  exists e,
    addDocuments (sampleEnv [EmbedQuery]) None (fun _ => lit "doc_1")
      [ {| pageContent := lit "hello"; doc_metadata := [] |} ]
      (Some [(lit "agentId", lit "agent-a")]) (sampleWorld ACTIVE)
    = (Throw e,
       appendTrace (sampleWorld ACTIVE)
         [Logged Err (lit "Failed to add documents to vector store:") (Some e)])
    /\ (fails (sampleEnv [EmbedQuery]) EmbedQuery = true
        -> e = Failure EmbedQuery)
    /\ (fails (sampleEnv [EmbedQuery]) EmbedQuery = false -> None = Some e).
Proof.
  refine (@addDocuments_failure (sampleEnv [EmbedQuery]) None
            (fun _ => lit "doc_1")
            [ {| pageContent := lit "hello"; doc_metadata := [] |} ]
            (Some [(lit "agentId", lit "agent-a")]) (sampleWorld ACTIVE) _).
  left. split; [reflexivity | discriminate].
Defined.

End StoreExtras.

(** ** The workers *)

Module WorkerExtras.

Import Shape MoreShape RouteShape JsStringFacts.
Import AgentEngine Workers Frame Policy Samples MoreSamples.
Import EffectFacts EngineFacts RouteFacts TurnExtras RouteExtras.
Local Open Scope nat_scope.

Lemma trimStart_In (x : char) (s : jsstring) : In x (trimStart s) -> In x s.
Proof.
  induction s as [|c t IH]; [tauto|].
  simpl. destruct (isWhiteSpace c); [right; now apply IH | tauto].
Qed.

Lemma trimEnd_In (x : char) (s : jsstring) : In x (trimEnd s) -> In x s.
Proof.
  induction s as [|c t IH]; [tauto|].
  simpl. destruct (trimEnd t) as [|d u].
  - destruct (isWhiteSpace c); simpl; tauto.
  - intros [H | H]; [now left | right; now apply IH].
Qed.

Lemma trim_In (x : char) (s : jsstring) : In x (trim s) -> In x s.
Proof. intros H. now apply trimStart_In, trimEnd_In. Qed.

(** No piece of a split holds a separator. *)
Lemma splitRuns_free (p : char -> bool) (s : jsstring) :
  forall inRun,
    Forall (fun piece => forall c, In c piece -> p c = false)
           (splitRuns p inRun s).
Proof.
  induction s as [|c t IH]; intros inRun.
  - constructor; [intros c [] | constructor].
  - simpl. destruct (p c) eqn:E.
    + destruct inRun; [apply IH|].
      constructor; [intros d [] | apply IH].
    + specialize (IH false). destruct (splitRuns p false t) as [|w ws].
      * constructor; [|constructor]. intros d [<- | []]. exact E.
      * inversion IH as [|? ? Hw Hws]; subst. constructor; [|exact Hws].
        intros d [<- | Hd]; [exact E | now apply Hw].
Qed.

Section Invariant.

Variable chunkSize : nat.

(** [P] holds of the chunks, [Q] of the chunk under construction and [R]
    of the sentences. *)
Variables P Q R : jsstring -> Prop.

Hypothesis start : forall s, R s -> Q s.
Hypothesis extend :
  forall cur s,
    Q cur -> R s -> length cur + length s <= chunkSize ->
    Q (cur ++ (if 0 <? length cur then lit ". " else []) ++ s).
Hypothesis push : forall cur, Q cur -> P (trim cur).

Lemma chunkStep_invariant (state : list jsstring * jsstring) (s : jsstring) :
  Forall P (fst state) -> Q (snd state) -> R s ->
  Forall P (fst (chunkStep chunkSize state s))
  /\ Q (snd (chunkStep chunkSize state s)).
Proof.
  destruct state as [chunks cur]. cbn [fst snd]. intros Hchunks Hcur Hs.
  unfold chunkStep.
  destruct (chunkSize <? length cur + length s) eqn:E; cbn [fst snd].
  - split; [|now apply start].
    destruct (0 <? length cur); [|exact Hchunks].
    apply Forall_app. split; [exact Hchunks|].
    constructor; [now apply push | constructor].
  - split; [exact Hchunks|]. apply Nat.ltb_ge in E. now apply extend.
Qed.

Lemma chunkLoop_invariant (sentences : list jsstring) :
  Forall R sentences ->
  forall state,
    Forall P (fst state) -> Q (snd state) ->
    Forall P (fst (fold_left (chunkStep chunkSize) sentences state))
    /\ Q (snd (fold_left (chunkStep chunkSize) sentences state)).
Proof.
  induction 1 as [|s sentences Hs _ IH]; intros state Hchunks Hcur;
    [now split|].
  simpl. destruct (chunkStep_invariant state Hchunks Hcur Hs) as [H1 H2].
  now apply IH.
Qed.

Lemma chunkText_invariant (text : jsstring) :
  Q [] ->
  Forall R (splitRuns isSentenceEnd false text) ->
  Forall P (chunkText text chunkSize).
Proof.
  intros Hnil Hsentences. unfold chunkText.
  destruct (chunkLoop_invariant Hsentences ([], []) (Forall_nil _) Hnil)
    as [Hchunks Hcur].
  destruct (fold_left _ _ _) as [chunks cur]. cbn [fst snd] in *.
  destruct (0 <? length cur); [|exact Hchunks].
  apply Forall_app. split; [exact Hchunks|].
  constructor; [now apply push | constructor].
Qed.

End Invariant.

(** X27. A chunk of [chunkText] may be longer than [chunkSize]: by the two
    code units of the joining full stop and blank at most, unless the
    chunk is a single sentence of the text, trimmed, that is itself longer
    than [chunkSize]; such a sentence is never cut. *)
Theorem chunkText_length (text : jsstring) (chunkSize : nat) :
  Forall (fun chunk =>
            length chunk <= chunkSize + 2
            \/ exists sentence,
                 In sentence (splitRuns isSentenceEnd false text)
                 /\ chunkSize < length sentence
                 /\ chunk = trim sentence)
         (chunkText text chunkSize).
Proof.
  apply chunkText_invariant
    with (Q := fun cur =>
                 length cur <= chunkSize + 2
                 \/ (In cur (splitRuns isSentenceEnd false text)
                     /\ chunkSize < length cur))
         (R := fun s => In s (splitRuns isSentenceEnd false text)).
  - intros s Hs. destruct (le_lt_dec (length s) chunkSize) as [H | H].
    + left. lia.
    + right. now split.
  - intros cur s _ _ Hlen. left. rewrite !length_app.
    destruct (0 <? length cur); simpl length; lia.
  - intros cur [H | [Hin Hlen]].
    + left. pose proof (NormalizerExtras.length_trim cur). lia.
    + right. exists cur. now repeat split.
  - left. simpl. lia.
  - apply Forall_forall. auto.
Qed.

(** X28. [chunkText] drops the marks that end a sentence: no chunk holds an
    exclamation mark or a question mark, whatever the text and the chunk
    size. *)
Theorem chunkText_drops_marks (text : jsstring) (chunkSize : nat) :
  Forall (fun chunk => ~ In 0x21%N chunk /\ ~ In 0x3F%N chunk)
         (chunkText text chunkSize).
Proof.
  apply chunkText_invariant
    with (Q := fun cur => ~ In 0x21%N cur /\ ~ In 0x3F%N cur)
         (R := fun s => ~ In 0x21%N s /\ ~ In 0x3F%N s).
  - auto.
  - intros cur s [Hc1 Hc2] [Hs1 Hs2] _.
    assert (Hjoin : forall x,
               In x (if 0 <? length cur then lit ". " else []) ->
               x <> 0x21%N /\ x <> 0x3F%N).
    { intros x. destruct (0 <? length cur); [|intros []].
      intros [<- | [<- | []]]; split; discriminate. }
    split; intros H; apply in_app_or in H; destruct H as [H | H];
      try tauto; apply in_app_or in H; destruct H as [H | H]; try tauto;
      destruct (Hjoin _ H); congruence.
  - intros cur [H1 H2].
    split; intros H; apply trim_In in H; tauto.
  - split; intros [].
  - pose proof (splitRuns_free isSentenceEnd text false) as Hfree.
    eapply Forall_impl; [|exact Hfree].
    intros piece Hpiece. split; intros H; apply Hpiece in H; discriminate.
Qed.

(** *** The message-processing worker *)

(** X29. The message-processing worker handles a job for any stored
    conversation, whatever its status and whoever the user of the job is:
    with analysis, model and database working it reports success with the
    length of the reply, the conversation gains the USER row and then the
    ASSISTANT row carrying that reply, no conversation row changes, and
    the last thing it does is to log that the message was processed. *)
Theorem messageProcessing_completes env (job : MessageJob) (w : World)
        (conv : Conversation) (agt : Agent) :
  fails env FindConversation = false ->
  stored w (job_conversationId job) conv agt ->
  turnSucceeds env = true ->
  let context := jobContext agt conv w job in
  exists (response : AgentResponse) (earlier : list Event) (w' : World),
    messageProcessing env job w
    = (Ok {| success := true;
             responseLength := length (content response) |}, w')
    /\ w_messages w'
       = w_messages w ++ [ userMessage env context;
                           assistantMessage env context (content response) ]
    /\ w_conversations w' = w_conversations w
    /\ w_trace w'
       = earlier
         ++ [Logged Info
               (lit "Message processed for conversation "
                ++ job_conversationId job) None].
Proof.
  intros Hread [Hconv Hagent] Hturn context.
  destruct (turnSucceeds_sites env Hturn) as (Hd & Hn & Hi & Hu & Ha).
  unfold messageProcessing. cbv zeta.
  erewrite bind_ok by reflexivity.
  set (w0 := snd (logInfo (lit "Processing message for conversation "
                           ++ job_conversationId job) w)).
  destruct (processMessage_completes env context w0 Hd Hn Hi)
    as (response & w5 & w6 & Hrun & Ht & _ & Hmsgs & Hconvs).
  erewrite tryCatch_ok.
  2:{ erewrite bind_ok
        by (apply (@RouteTheorems.conversationFindUniqueWithMessages_found
                     env (job_conversationId job) w0 conv agt Hread Hconv
                     Hagent 10)).
      cbv beta iota.
      erewrite bind_ok by exact Hrun.
      erewrite bind_ok by reflexivity. reflexivity. }
  exists response, (w_trace w6). eexists.
  split; [reflexivity|]. simpl.
  split; [|split; [exact Hconvs | reflexivity]].
  rewrite Hmsgs. unfold persisted. now rewrite Hu, Ha.
Qed.

Lemma messageProcessing_completes_witness :
  let context := jobContext agentA (sampleConversation ENDED)
                   (sampleWorld ENDED) sampleJob in
  exists (response : AgentResponse) (earlier : list Event) (w' : World),
    messageProcessing (sampleEnv []) sampleJob (sampleWorld ENDED)
    = (Ok {| success := true;
             responseLength := length (content response) |}, w')
    /\ w_messages w'
       = w_messages (sampleWorld ENDED)
         ++ [ userMessage (sampleEnv []) context;
              assistantMessage (sampleEnv []) context (content response) ]
    /\ w_conversations w' = w_conversations (sampleWorld ENDED)
    /\ w_trace w'
       = earlier
         ++ [Logged Info
               (lit "Message processed for conversation "
                ++ job_conversationId sampleJob) None].
Proof.
  exact (@messageProcessing_completes (sampleEnv []) sampleJob
           (sampleWorld ENDED) (sampleConversation ENDED) agentA
           eq_refl (conj eq_refl eq_refl) eq_refl).
Defined.

(** X30. A job for an id under which no conversation is stored fails with
    the plain error [Conversation not found]: the worker logs the start of
    the job and the failure, throws the error as it is, and writes to no
    table. *)
Theorem messageProcessing_not_found env (job : MessageJob) (w : World) :
  fails env FindConversation = false ->
  find (fun c => JsString.eqb (conv_id c) (job_conversationId job))
       (w_conversations w) = None ->
  messageProcessing env job w
  = (Throw (PlainError (lit "Conversation not found")),
     appendTrace w
       [ Logged Info
           (lit "Processing message for conversation "
            ++ job_conversationId job) None;
         Logged Err
           (lit "Failed to process message for conversation "
            ++ job_conversationId job ++ lit ":")
           (Some (PlainError (lit "Conversation not found"))) ]).
Proof.
  intros Hread Hnone.
  unfold messageProcessing. cbv zeta.
  erewrite bind_ok by reflexivity.
  erewrite tryCatch_throw.
  2:{ unfold Prisma.conversationFindUniqueWithMessages.
      erewrite bind_ok.
      2:{ erewrite bind_ok
            by (apply conversationFindUnique_missing;
                [exact Hread | exact Hnone]).
          reflexivity. }
      reflexivity. }
  reflexivity.
Qed.

Lemma messageProcessing_not_found_witness :
  messageProcessing (sampleEnv [])
    {| job_conversationId := lit "missing";
       job_messageContent := sampleInput;
       job_userId := lit "user-1" |} (sampleWorld ACTIVE)
  = (Throw (PlainError (lit "Conversation not found")),
     appendTrace (sampleWorld ACTIVE)
       [ Logged Info
           (lit "Processing message for conversation " ++ lit "missing") None;
         Logged Err
           (lit "Failed to process message for conversation "
            ++ lit "missing" ++ lit ":")
           (Some (PlainError (lit "Conversation not found"))) ]).
Proof.
  exact (@messageProcessing_not_found (sampleEnv [])
           {| job_conversationId := lit "missing";
              job_messageContent := sampleInput;
              job_userId := lit "user-1" |} (sampleWorld ACTIVE)
           eq_refl eq_refl).
Defined.

End WorkerExtras.
